(** * PNG-Utils-JS: a shallow embedding of [png_utils.js]

    The class [png] of [src/png_utils.js] has three methods with real
    content: [parseChunks], [reverseFiltering] and [subimage].  The
    constructor, [#initialize], [#concatIDATChunks] and the two methods
    around the deflate streams are rendered as far as they are code of
    the class; the file reader and the streams themselves are parameters.
    Each is rendered below as a Rocq function over explicit
    JavaScript-like data: numbers are integers or [NaN], arrays are lists,
    [undefined] is a value of its own, and a [throw] is the [Threw] outcome
    of a small error monad.

    Numbers are restricted to the integers on which double arithmetic is
    exact; the only non-integers the source can produce from integers
    (the halves under [~~] and [Math.floor]) are rounded on the spot. *)

From Stdlib Require Import String Ascii ZArith List Bool Lia.
Import ListNotations.
Open Scope Z_scope.

(** ** JavaScript data and outcomes *)
Module JS.

(** What a method can throw.  The messages of the source's [new Error(...)]
    are kept as one constructor each:
    - [UnexpectedFilterByte]: "Unexpected filter byte."
    - [InvalidTileSize]: "Invalid tileSize: ..."
    - [InvalidMargins]: "Invalid margins: ..."
    - [InvalidSeparation]: "Invalid separation: ..."
    - [InvalidOptions]: "Invalid options: ..."
    - [SubimageError]: "Error trying to get subimage. ..."
    [TypeError] and [RangeError] are the engine's own. *)
Inductive error : Type :=
| TypeError
| RangeError
| UnexpectedFilterByte
| InvalidTileSize
| InvalidMargins
| InvalidSeparation
| InvalidOptions
| SubimageError.

(** Outcome of running a method: a returned value, a thrown error, or the
    loop budget of the model used up (which the methods never do: see
    [reverseFiltering_fuel] and [parseChunks_fuel]). *)
Inductive result (A : Type) : Type :=
| Returned (a : A)
| Threw (e : error)
| OutOfFuel.
Arguments Returned {A} a.
Arguments Threw {A} e.
Arguments OutOfFuel {A}.

Definition bind {A B} (m : result A) (k : A -> result B) : result B :=
  match m with
  | Returned a => k a
  | Threw e => Threw e
  | OutOfFuel => OutOfFuel
  end.

Notation "x <- m ;; k" := (bind m (fun x => k))
  (at level 61, m at next level, right associativity).

(** A JavaScript number, as far as these methods need one. *)
Inductive num : Type :=
| Int (z : Z)
| NaN.

Definition add (a b : num) : num :=
  match a, b with
  | Int x, Int y => Int (x + y)
  | _, _ => NaN
  end.

Definition sub (a b : num) : num :=
  match a, b with
  | Int x, Int y => Int (x - y)
  | _, _ => NaN
  end.

(** [Math.abs] *)
Definition abs (a : num) : num :=
  match a with
  | Int x => Int (Z.abs x)
  | NaN => NaN
  end.

(** [a <= b]: false as soon as one side is [NaN]. *)
Definition le (a b : num) : bool :=
  match a, b with
  | Int x, Int y => x <=? y
  | _, _ => false
  end.

(** [undefined] read in an arithmetic position is [NaN]. *)
Definition to_num (o : option num) : num :=
  match o with
  | Some n => n
  | None => NaN
  end.

(** [ToInt32], the conversion behind the bitwise operators. *)
Definition toInt32 (z : Z) : Z := (z + 2 ^ 31) mod 2 ^ 32 - 2 ^ 31.

(** [~~(n / 2)]: halve, drop the fraction towards zero, wrap to 32 bits;
    [~~NaN] is 0. *)
Definition half (n : num) : num :=
  match n with
  | Int z => Int (toInt32 (Z.quot z 2))
  | NaN => Int 0
  end.

(** [if (ret >= 256) { ret -= 256; }] *)
Definition wrap (ret : num) : num :=
  match ret with
  | Int z => if 256 <=? z then Int (z - 256) else Int z
  | NaN => NaN
  end.

(** [l[k]]: [None] is [undefined] (index out of range or negative). *)
Definition index {A} (l : list A) (k : Z) : option A :=
  if k <? 0 then None else nth_error l (Z.to_nat k).

(** [l.slice(s, e)], negative positions counted from the end. *)
Definition slice {A} (l : list A) (s e : Z) : list A :=
  let len := Z.of_nat (length l) in
  let rel k := if k <? 0 then Z.max (len + k) 0 else Z.min k len in
  firstn (Z.to_nat (rel e - rel s)) (skipn (Z.to_nat (rel s)) l).

(** What a row of the reconstructed image holds, and what [tempArr] and
    [filterByte] can be: [undefined], a number, or an array of numbers
    (a pixel). *)
Inductive value : Type :=
| Undefined
| Number (n : num)
| Array (l : list num).

(** An entry of the outer array [res]: a row, or a hole left by a write
    beyond the end. *)
Inductive slot : Type :=
| Hole
| Row (cells : list value).

(** [res[k]] as an array: [None] when it is [undefined]. *)
Definition row_at (res : list slot) (k : Z) : option (list value) :=
  match index res k with
  | Some (Row r) => Some r
  | _ => None
  end.

(** [r[k]] for a row [r]. *)
Definition cell (r : list value) (k : Z) : value :=
  match index r k with
  | Some v => v
  | None => Undefined
  end.

(** [res[k] = v].  A write at the end appends, one beyond it leaves holes.
    No element has a negative index; the loop never writes at one
    ([body_lineNum]). *)
Definition store (res : list slot) (k : Z) (v : slot) : list slot :=
  if k <? 0 then res
  else
    let n := Z.to_nat k in
    if (n <? length res)%nat
    then firstn n res ++ v :: skipn (S n) res
    else res ++ repeat Hole (n - length res) ++ [v].

(** [res[k].push(v)] *)
Definition push (res : list slot) (k : Z) (v : value) : result (list slot) :=
  match row_at res k with
  | Some r => Returned (store res k (Row (r ++ [v])))
  | None => Threw TypeError
  end.

(** [res[a][b]] *)
Definition at2 (res : list slot) (a b : Z) : result value :=
  match row_at res a with
  | Some r => Returned (cell r b)
  | None => Threw TypeError
  end.

(** [v[c]] *)
Definition prop (v : value) (c : Z) : result (option num) :=
  match v with
  | Undefined => Threw TypeError
  | Number _ => Returned None
  | Array l => Returned (index l c)
  end.

(** [res[a][b][c]] *)
Definition at3 (res : list slot) (a b c : Z) : result (option num) :=
  v <- at2 res a b ;; prop v c.

(** [l.map(f)] for a callback that counts its calls in [c] and may throw. *)
Fixpoint mapi {A B} (f : Z -> A -> result B) (c : Z) (l : list A)
  : result (list B) :=
  match l with
  | [] => Returned []
  | x :: t => y <- f c x ;; ys <- mapi f (c + 1) t ;; Returned (y :: ys)
  end.

(** [v.reduce((acc, curr) => acc + curr)], without initial value. *)
Definition reduce_sum (v : value) : result num :=
  match v with
  | Array (h :: t) => Returned (fold_left add t h)
  | _ => Threw TypeError
  end.

(** [tmp[c] + v] for the literal [tmp = [0, 0, 0, 0]] and a cell [v] used
    without a channel index.  When [v] is an array, [+] concatenates the
    strings "0" and [v.join(",")], and the division that follows reads the
    string back as a number: [NaN] unless the array is empty or holds one
    non-negative integer. *)
Definition tmp_plus (c : Z) (v : value) : num :=
  if (0 <=? c) && (c <? 4) then
    match v with
    | Undefined => NaN
    | Number n => add (Int 0) n
    | Array [] => Int 0
    | Array [Int b] => if 0 <=? b then Int b else NaN
    | Array _ => NaN
    end
  else NaN.

End JS.

(** ** The class [png] *)
Module Png.
Import JS.

(** [chunkInfo] of the header chunk. *)
Record chunkInfo_t : Type := mkChunkInfo {
  widthPixels : Z;
  heightPixels : Z
}.

(** An element of [chunks]; [chunkInfo] is present on "IHDR" chunks only. *)
Record chunk : Type := mkChunk {
  fourCC : string;
  size : Z;
  data : list Z;
  offset : Z;
  crc : Z;
  chunkInfo : option chunkInfo_t
}.

(** The state of a [png] object: [this.data], [null] until [#initialize]
    has stored the parsed chunks. *)
Record png : Type := mkPng {
  this_data : option (list chunk)
}.

(** *** [reverseFiltering] *)

(** The local variables of [reverseFiltering] that live across iterations. *)
Record locals : Type := mkLocals {
  i : Z;
  filterByte : value;
  res : list slot;
  lineNum : Z;
  tempArr : value;
  pixelCount : Z
}.

Definition set_i (v : Z) (s : locals) : locals :=
  mkLocals v (filterByte s) (res s) (lineNum s) (tempArr s) (pixelCount s).
Definition set_res (v : list slot) (s : locals) : locals :=
  mkLocals (i s) (filterByte s) v (lineNum s) (tempArr s) (pixelCount s).
Definition set_tempArr (v : value) (s : locals) : locals :=
  mkLocals (i s) (filterByte s) (res s) (lineNum s) v (pixelCount s).
Definition set_pixelCount (v : Z) (s : locals) : locals :=
  mkLocals (i s) (filterByte s) (res s) (lineNum s) (tempArr s) v.

(** [arrayBuffer.slice(k, k + 4)] as an array of numbers. *)
Definition slice4 (arrayBuffer : list Z) (k : Z) : list num :=
  map Int (slice arrayBuffer k (k + 4)).

(** [arrayBuffer[k]] *)
Definition byte_at (arrayBuffer : list Z) (k : Z) : value :=
  match index arrayBuffer k with
  | Some b => Number (Int b)
  | None => Undefined
  end.

(** [res[lineNum].push(px)] on the locals. *)
Definition push_pixel (px : list num) (s : locals) : result locals :=
  r <- push (res s) (lineNum s) (Array px) ;; Returned (set_res r s).

(** [case 0], None. *)
Definition case_none (s : locals) (curPixel : list num) : result locals :=
  push_pixel curPixel s.

(** [case 1], Sub. *)
Definition case_sub (widthBytes : Z) (s : locals) (curPixel : list num)
  : result locals :=
  if widthBytes * lineNum s + 3 <? i s then
    px <- mapi (fun c x =>
                  t <- prop (tempArr s) c ;;
                  Returned (wrap (add x (to_num t)))) 0 curPixel ;;
    s <- push_pixel px s ;;
    t <- at2 (res s) (lineNum s) (pixelCount s + 1) ;;
    Returned (set_tempArr t s)
  else
    push_pixel curPixel (set_tempArr (Array curPixel) s).

(** [case 2], Up. *)
Definition case_up (s : locals) (curPixel : list num) : result locals :=
  if 0 <? lineNum s then
    px <- mapi (fun c x =>
                  u <- at3 (res s) (lineNum s - 1) (pixelCount s + 1) c ;;
                  Returned (wrap (add x (to_num u)))) 0 curPixel ;;
    push_pixel px s
  else
    push_pixel curPixel (set_tempArr (Array curPixel) s).

(** [case 3], Average.  [tmp] is the literal [[0, 0, 0, 0]]. *)
Definition case_average (widthBytes : Z) (s : locals) (curPixel : list num)
  : result locals :=
  let tmp := [Int 0; Int 0; Int 0; Int 0] in
  if (0 <? lineNum s) && (widthBytes * lineNum s + 3 <? i s) then
    px <- mapi (fun c x =>
                  u <- at3 (res s) (lineNum s) (pixelCount s + 1) c ;;
                  v <- at3 (res s) (lineNum s - 1) (pixelCount s + 1) c ;;
                  Returned (wrap (add x (half (add (to_num u) (to_num v))))))
               0 curPixel ;;
    push_pixel px s
  else
    s <- (if negb (0 <? lineNum s) then
            px <- mapi (fun c x =>
                          u <- at3 (res s) (lineNum s) (pixelCount s + 1) c ;;
                          Returned (wrap (add x (half (add (to_num u)
                                                   (to_num (index tmp c)))))))
                       0 curPixel ;;
            push_pixel px s
          else if negb (widthBytes * lineNum s + 3 <? i s) then
            px <- mapi (fun c x =>
                          v <- at2 (res s) (lineNum s - 1) (pixelCount s + 1) ;;
                          Returned (wrap (add x (half (tmp_plus c v)))))
                       0 curPixel ;;
            push_pixel px s
          else
            px <- mapi (fun c x =>
                          Returned (wrap (add x (half (add (to_num (index tmp c))
                                                   (to_num (index tmp c)))))))
                       0 curPixel ;;
            push_pixel px s) ;;
    push_pixel curPixel (set_tempArr (Array curPixel) s).

(** The [for (let j = 0; j < 4; j++)] loops of Paeth:
    [ref = n[j] + curPixel[j]], wrapped, for the chosen neighbour [n]. *)
Definition paeth_add (n : value) (curPixel : list num) : result (list num) :=
  mapi (fun j (_ : unit) =>
          r <- prop n j ;;
          Returned (wrap (add (to_num r) (to_num (index curPixel j)))))
       0 [tt; tt; tt; tt].

(** [case 4], Paeth. *)
Definition case_paeth (s : locals) (curPixel : list num) : result locals :=
  let zeros := Array [Int 0; Int 0; Int 0; Int 0] in
  abc <- (if (0 <? lineNum s) && negb (pixelCount s =? 0) then
            a <- at2 (res s) (lineNum s) (pixelCount s) ;;
            b <- at2 (res s) (lineNum s - 1) (pixelCount s + 1) ;;
            c <- at2 (res s) (lineNum s - 1) (pixelCount s) ;;
            Returned (a, b, c)
          else if (pixelCount s =? 0) && (0 <? lineNum s) then
            b <- at2 (res s) (lineNum s - 1) (pixelCount s + 1) ;;
            Returned (zeros, b, zeros)
          else if negb (pixelCount s =? 0) && negb (0 <? lineNum s) then
            a <- at2 (res s) (lineNum s) (pixelCount s) ;;
            Returned (a, zeros, zeros)
          else
            Returned (zeros, zeros, zeros)) ;;
  let '(a, b, c) := abc in
  sa <- reduce_sum a ;;
  sb <- reduce_sum b ;;
  sc <- reduce_sum c ;;
  let p := sub (add sa sb) sc in
  let pa := abs (sub p sa) in
  let pb := abs (sub p sb) in
  let pc := abs (sub p sc) in
  ret <- (if le pa pb && le pa pc then paeth_add a curPixel
          else if le pb pc then paeth_add b curPixel
          else paeth_add c curPixel) ;;
  push_pixel ret s.

(** [i % widthBytes === 0 || i === 0].  For the non-negative [i] of the
    loop [Z.rem] is the remainder of JavaScript; for [widthBytes = 0] the
    remainder is [NaN] there and [i] here, neither of which is 0 unless
    [i] is. *)
Definition at_line_start (widthBytes : Z) (s : locals) : bool :=
  (Z.rem (i s) widthBytes =? 0) || (i s =? 0).

(** The first [if] of the loop body: a new scanline begins. *)
Definition enter_line (arrayBuffer : list Z) (widthBytes : Z) (s : locals)
  : locals :=
  if at_line_start widthBytes s then
    mkLocals (i s + 1) (byte_at arrayBuffer (i s)) (res s) (lineNum s + 1)
             (Array (slice4 arrayBuffer (i s))) 0
  else s.

(** The second [if]:
    [if (res[lineNum] === undefined || res[lineNum].length === 0)]. *)
Definition open_row (arrayBuffer : list Z) (s : locals) : locals :=
  match row_at (res s) (lineNum s) with
  | None | Some [] =>
      set_tempArr (Array (slice4 arrayBuffer (i s)))
        (set_res (store (res s) (lineNum s) (Row [filterByte s])) s)
  | Some _ => s
  end.

(** [switch (filterByte)] *)
Definition switch (widthBytes : Z) (s : locals) (curPixel : list num)
  : result locals :=
  match filterByte s with
  | Number (Int 0) => case_none s curPixel
  | Number (Int 1) => case_sub widthBytes s curPixel
  | Number (Int 2) => case_up s curPixel
  | Number (Int 3) => case_average widthBytes s curPixel
  | Number (Int 4) => case_paeth s curPixel
  | _ => Threw UnexpectedFilterByte
  end.

(** One iteration of the [for] loop, up to and including [pixelCount++]. *)
Definition body (arrayBuffer : list Z) (widthBytes : Z) (s : locals)
  : result locals :=
  let s := enter_line arrayBuffer widthBytes s in
  let s := open_row arrayBuffer s in
  let curPixel := slice4 arrayBuffer (i s) in
  s <- switch widthBytes s curPixel ;;
  Returned (set_pixelCount (pixelCount s + 1) s).

(** [for (let i = 0; i < arrayBuffer.length; i += 4) body], with a budget
    of iterations. *)
Fixpoint loop (fuel : nat) (arrayBuffer : list Z) (widthBytes : Z)
  (s : locals) : result locals :=
  if i s <? Z.of_nat (length arrayBuffer) then
    match fuel with
    | O => OutOfFuel
    | S fuel' =>
        s' <- body arrayBuffer widthBytes s ;;
        loop fuel' arrayBuffer widthBytes (set_i (i s' + 4) s')
    end
  else Returned s.

(** [const { widthPixels } = this.data[0].chunkInfo;] *)
Definition header_width (this : png) : result Z :=
  match this_data this with
  | None => Threw TypeError
  | Some chunks =>
      match index chunks 0 with
      | None => Threw TypeError
      | Some c =>
          match chunkInfo c with
          | None => Threw TypeError
          | Some info => Returned (widthPixels info)
          end
      end
  end.

(** [reverseFiltering(arrayBuffer)], [arrayBuffer] being what
    [Array.from] makes of the argument: an array of numbers.  Every
    iteration moves [i] forward by 4 at least, so the length of the array
    is budget enough. *)
Definition reverseFiltering (this : png) (arrayBuffer : list Z)
  : result (list slot) :=
  widthPixels <- header_width this ;;
  let widthBytes := widthPixels * 4 + 1 in
  s <- loop (length arrayBuffer) arrayBuffer widthBytes
         (mkLocals 0 Undefined [Row []] (-1) Undefined 0) ;;
  Returned (res s).

(** *** [parseChunks] *)

(** [dataView.getUint32(pos)]: big-endian, [RangeError] outside the
    buffer. *)
Definition getUint32 (bytes : list Z) (pos : Z) : result Z :=
  if (pos <? 0) || (Z.of_nat (length bytes) <? pos + 4) then Threw RangeError
  else
    match slice bytes pos (pos + 4) with
    | [b0; b1; b2; b3] => Returned (b0 * 2 ^ 24 + b1 * 2 ^ 16 + b2 * 2 ^ 8 + b3)
    | _ => Threw RangeError
    end.

(** [utf8Decode.decode(new Uint8Array(l))].  Bytes below 128 decode to the
    ASCII character of that code.  A byte of 128 or more decodes, alone or
    with its neighbours, to a character outside ASCII, or is dropped as
    part of a byte-order mark; it is kept here as the character of its own
    code, which differs from every ASCII character, so that
    [fourCC === "IHDR"] is decided as in the source. *)
Definition decode (l : list Z) : string :=
  string_of_list_ascii (map (fun b => ascii_of_nat (Z.to_nat b)) l).

(** The object [{ chunks: chunks }] that [parseChunks] resolves to. *)
Record parsed : Type := mkParsed {
  chunks : list chunk
}.

(** The [while (pos < arrayBuffer.byteLength)] loop, with a budget of
    iterations. *)
Fixpoint parse_loop (fuel : nat) (bytes : list Z) (pos : Z)
  (chunks : list chunk) : result (list chunk) :=
  if pos <? Z.of_nat (length bytes) then
    match fuel with
    | O => OutOfFuel
    | S fuel' =>
        size <- getUint32 bytes pos ;;
        let fourCC := decode (slice bytes (pos + 4) (pos + 8)) in
        let offset := pos + 8 in
        let pos := offset + size in
        crc <- getUint32 bytes pos ;;
        let pos := pos + 4 in
        c <- (if String.eqb fourCC "IHDR" then
                w <- getUint32 bytes 16 ;;
                h <- getUint32 bytes 20 ;;
                Returned (mkChunk fourCC size
                            (slice bytes offset (offset + size)) offset crc
                            (Some (mkChunkInfo w h)))
              else
                Returned (mkChunk fourCC size
                            (slice bytes offset (offset + size)) offset crc
                            None)) ;;
        parse_loop fuel' bytes pos (chunks ++ [c])
    end
  else Returned chunks.

(** [parseChunks(arrayBuffer)], [bytes] being the bytes of the buffer.  A
    chunk takes 12 bytes at least, so the length of the buffer is budget
    enough. *)
Definition parseChunks (bytes : list Z) : result parsed :=
  cs <- parse_loop (length bytes) bytes 8 [] ;;
  Returned (mkParsed cs).

(** *** [subimage] *)

(** [tileSize]: an object with numbers [x] and [y]. *)
Record tileSize_t : Type := mkTileSize {
  x : Z;
  y : Z
}.

(** [margins]: an object on which the method reads [x], [y], [xMargin] and
    [yMargin]; [None] is a missing property. *)
Record margins_t : Type := mkMargins {
  margins_x : option Z;
  margins_y : option Z;
  xMargin : option Z;
  yMargin : option Z
}.

(** [options]: an object with an array of numbers [ignoredColour]. *)
Record options_t : Type := mkOptions {
  ignoredColour : list Z
}.

(** [l.slice(s, e)] for positions that are numbers: [NaN] counts as 0. *)
Definition slice_num {A} (l : list A) (s e : num) : list A :=
  let pos n := match n with Int z => z | NaN => 0 end in
  slice l (pos s) (pos e).

(** The innermost loop:
    [for (let i = yOffset; i < yOffset + tileHeight; i++)
       tile.push(imageDataBuffer[i].slice(xOffset, xOffset + tileWidth))]. *)
Definition tile_at {A} (imageDataBuffer : list (list A))
  (xOffset yOffset : num) (tileWidth tileHeight : Z)
  : result (list (list A)) :=
  match yOffset with
  | NaN => Returned []
  | Int y0 =>
      mapi (fun i (_ : unit) =>
              match index imageDataBuffer i with
              | Some r =>
                  Returned (slice_num r xOffset (add xOffset (Int tileWidth)))
              | None => Threw TypeError
              end)
           y0 (repeat tt (Z.to_nat tileHeight))
  end.

(** The locals that the two outer loops of [subimage] update. *)
Record tiling {A} : Type := mkTiling {
  xOffset : num;
  yOffset : num;
  tileset : list (list (list A))
}.
Arguments tiling A : clear implicits.

(** [for (let k = 0; k < n; k++) step], for a step that ignores [k]. *)
Fixpoint times {S} (n : nat) (step : S -> result S) (s : S) : result S :=
  match n with
  | O => Returned s
  | S n' => s' <- step s ;; times n' step s'
  end.

(** The number of iterations of [for (let k = 0; k < n; k++)]: none when
    [n] is [NaN]. *)
Definition count (n : num) : nat :=
  match n with
  | Int z => Z.to_nat z
  | NaN => O
  end.

(** [Math.floor((len - margin) / step)] for [step > 0]; [margin] is
    [undefined] when the property is missing, and the count then [NaN]. *)
Definition floor_div (len : Z) (margin : option Z) (step : Z) : num :=
  match margin with
  | Some m => Int ((len - m) / step)
  | None => NaN
  end.

(** [try { ... } catch (e) { throw new Error(...) }] *)
Definition rethrow {A} (m : result A) : result A :=
  match m with
  | Threw _ => Threw SubimageError
  | other => other
  end.

(** The two [for] loops over [row] and [col] inside the [try] block. *)
Definition tiling_loops {A} (imageDataBuffer : list (list A))
  (tileWidth tileHeight separation : Z) (xMargin yMargin : option Z)
  (numRows numCols : num) : result (tiling A) :=
  times (count numRows)
    (fun t =>
       t <- times (count numCols)
              (fun t =>
                 tile <- tile_at imageDataBuffer (xOffset t) (yOffset t)
                           tileWidth tileHeight ;;
                 Returned
                   (mkTiling A
                      (add (xOffset t) (Int (tileWidth + separation)))
                      (yOffset t)
                      (tileset t ++ [tile])))
              t ;;
       Returned
         (mkTiling A (to_num (option_map Int xMargin))
            (add (yOffset t) (Int (tileHeight + separation)))
            (tileset t)))
    (mkTiling A (to_num (option_map Int xMargin))
       (to_num (option_map Int yMargin)) []).

(** The body of [subimage] down to its last statement: what the local
    [tileset] holds when the loops are done.  A missing argument ([None])
    takes the default of the signature. *)
Definition subimage_tileset {A} (imageDataBuffer : list (list A))
  (tileSize : tileSize_t) (margins : option margins_t)
  (separation : option Z) (options : option options_t)
  : result (list (list (list A))) :=
  let margins :=
    match margins with
    | Some m => m
    | None => mkMargins None None (Some 0) (Some 0)
    end in
  let separation := match separation with Some n => n | None => 0 end in
  let options :=
    match options with
    | Some o => o
    | None => mkOptions [0; 0; 0; 0]
    end in
  if (x tileSize <=? 0) || (y tileSize <=? 0) then Threw InvalidTileSize
  else
    match margins_x margins, margins_y margins with
    | Some _, Some _ =>
        if separation <? 0 then Threw InvalidSeparation
        else if negb (Z.of_nat (length (ignoredColour options)) =? 4)
        then Threw InvalidOptions
        else
          let tileWidth := x tileSize in
          let tileHeight := y tileSize in
          let numRows :=
            if 0 <? tileHeight + separation
            then floor_div (Z.of_nat (length imageDataBuffer))
                   (yMargin margins) (tileHeight + separation)
            else Int 0 in
          numCols <-
            (if 0 <? tileWidth + separation then
               match index imageDataBuffer 0 with
               | Some r0 =>
                   Returned (floor_div (Z.of_nat (length r0))
                               (xMargin margins) (tileWidth + separation))
               | None => Threw TypeError
               end
             else Returned (Int 0)) ;;
          t <- rethrow
                 (tiling_loops imageDataBuffer tileWidth tileHeight separation
                    (xMargin margins) (yMargin margins) numRows numCols) ;;
          Returned (tileset t)
    | _, _ => Threw InvalidMargins
    end.

(** [subimage(imageDataBuffer, tileSize, margins, separation, options)].
    The method has no [return] statement: a call that does not throw
    evaluates to [undefined], rendered as [None]; [Some] would be a
    returned tile list. *)
Definition subimage {A} (imageDataBuffer : list (list A))
  (tileSize : tileSize_t) (margins : option margins_t)
  (separation : option Z) (options : option options_t)
  : result (option (list (list (list A)))) :=
  _ <- subimage_tileset imageDataBuffer tileSize margins separation options ;;
  Returned None.

(** *** [#initialize] and the constructor *)

(** [#initialize(target)], from the point where [#readBlob] has resolved to
    the bytes [arrayBuffer] of the file: the chunks are parsed and stored
    in [this.data]. *)
Definition initialize (arrayBuffer : list Z) : result png :=
  p <- parseChunks arrayBuffer ;;
  Returned (mkPng (Some (chunks p))).

(** An entry of [target.target.files]: its mime type, and the bytes a
    [FileReader] reads from it. *)
Record file_t : Type := mkFile {
  type : string;
  content : list Z
}.

(** What the constructor may be handed: [undefined], [null], a string, a
    [File] (an object without a [target] property), or an event whose
    [target.files] is an array of files. *)
Inductive target_t : Type :=
| TUndefined
| TNull
| TString (s : string)
| TFile (f : file_t)
| TEvent (files : list file_t).

(** How [await new png(target)] ends: with the object, with one of the two
    errors the constructor throws itself ("Invalid target." and "Supplied
    files have to be of type image/png."), with what the engine or
    [parseChunks] raised, or not at all within the budget of the model. *)
Inductive construction : Type :=
| Constructed (this : png)
| InvalidTarget
| NotImagePng
| Failed (e : error)
| Unfinished.

(** [new png(target)].  [!typeof target === "object"] compares the boolean
    [false] with a string and is never true, so the first guard rests on
    [target === "null"] alone. *)
Definition constructor (target : target_t) : construction :=
  let invalid :=
    match target with
    | TString s => String.eqb s "null"
    | _ => false
    end in
  if invalid then InvalidTarget
  else
    match target with
    | TEvent files =>
        match index files 0 with
        | Some f =>
            if negb (String.eqb (type f) "image/png") then NotImagePng
            else
              match initialize (content f) with
              | Returned this => Constructed this
              | Threw e => Failed e
              | OutOfFuel => Unfinished
              end
        | None => Failed TypeError
        end
    | _ => Failed TypeError
    end.

(** *** [#concatIDATChunks], [decompressIDATData], [compressIDATData] *)

(** The conversion of a number stored into a [Uint8Array]. *)
Definition toUint8 (z : Z) : Z := z mod 256.

(** [#concatIDATChunks()]: [for (let chunk of this.data)] over [null] is
    a [TypeError]. *)
Definition concatIDATChunks (this : png) : result (list Z) :=
  match this_data this with
  | None => Threw TypeError
  | Some chunks =>
      Returned
        (map toUint8
           (fold_left
              (fun idatData chunk =>
                 if String.eqb (fourCC chunk) "IDAT"
                 then idatData ++ data chunk
                 else idatData)
              chunks []))
  end.

(** [dataBuffer.set(chunk, offset)] on a typed array: [RangeError] if the
    chunk does not fit behind [offset]. *)
Definition typed_set (dataBuffer chunk : list Z) (offset : Z)
  : result (list Z) :=
  if (offset <? 0)
     || (Z.of_nat (length dataBuffer) <? offset + Z.of_nat (length chunk))
  then Threw RangeError
  else
    Returned (firstn (Z.to_nat offset) dataBuffer ++ chunk
              ++ skipn (Z.to_nat offset + length chunk) dataBuffer).

(** The end of [decompressIDATData] and of [compressIDATData]: a buffer of
    the total length of the chunks read, filled chunk by chunk. *)
Definition join_chunks (chunks : list (list Z)) : result (list Z) :=
  let total := fold_left (fun acc val => acc + Z.of_nat (length val)) chunks 0 in
  r <- fold_left
         (fun st chunk =>
            st <- st ;;
            let '(dataBuffer, offset) := st in
            b <- typed_set dataBuffer chunk offset ;;
            Returned (b, offset + Z.of_nat (length chunk)))
         chunks (Returned (repeat 0 (Z.to_nat total), 0)) ;;
  Returned (fst r).

(** [decompressIDATData()], for a deflate stream that hands the reader the
    chunks [inflate idatData], or fails. *)
Definition decompressIDATData (inflate : list Z -> result (list (list Z)))
  (this : png) : result (list Z) :=
  idatData <- concatIDATChunks this ;;
  chunks <- inflate idatData ;;
  join_chunks chunks.

(** [compressIDATData(arrayBuffer)], for a deflate stream that hands the
    reader the chunks [deflate arrayBuffer], or fails. *)
Definition compressIDATData (deflate : list Z -> result (list (list Z)))
  (arrayBuffer : list Z) : result (list Z) :=
  chunks <- deflate arrayBuffer ;;
  join_chunks chunks.

End Png.

(** ** The reference filters of the specification *)
Module Canon.

(** The Paeth predictor on one channel, in the specification's words:
    [p = a + b - c], [pa = |p - a|], [pb = |p - b|], [pc = |p - c|]; [a] if
    [pa <= pb] and [pa <= pc], else [b] if [pb <= pc], else [c]. *)
Definition paeth (a b c : Z) : Z :=
  let p := a + b - c in
  let pa := Z.abs (p - a) in
  let pb := Z.abs (p - b) in
  let pc := Z.abs (p - c) in
  if (pa <=? pb) && (pa <=? pc) then a
  else if pb <=? pc then b
  else c.

(** [recon = (x + chosen) mod 256], channel by channel over a pixel. *)
Fixpoint recon_paeth (x a b c : list Z) : list Z :=
  match x, a, b, c with
  | x0 :: x', a0 :: a', b0 :: b', c0 :: c' =>
      (x0 + paeth a0 b0 c0) mod 256 :: recon_paeth x' a' b' c'
  | _, _, _, _ => []
  end.

(** [recon = (x + floor((a + b) / 2)) mod 256], channel by channel. *)
Fixpoint recon_average (x a b : list Z) : list Z :=
  match x, a, b with
  | x0 :: x', a0 :: a', b0 :: b' =>
      (x0 + (a0 + b0) / 2) mod 256 :: recon_average x' a' b'
  | _, _, _ => []
  end.

End Canon.

(** ** Sample objects and images *)

(** A [png] object whose first chunk is a header of the given size. *)
Definition png_of_size (w h : Z) : Png.png :=
  Png.mkPng
    (Some [Png.mkChunk "IHDR" 13 [] 16 0 (Some (Png.mkChunkInfo w h))]).

(** A 130 by 130 grid of one opaque colour. *)
Definition grid130 : list (list (list Z)) :=
  repeat (repeat [10; 20; 30; 255] 130) 130.

(** [{ x: 0, y: 0 }]: margins under the names the validation reads. *)
Definition margins_xy : Png.margins_t :=
  Png.mkMargins (Some 0) (Some 0) None None.

(** [{ x: 0, y: 0, xMargin: 0, yMargin: 0 }]: margins under both the names
    the validation reads and the names the tiling reads. *)
Definition margins_both : Png.margins_t :=
  Png.mkMargins (Some 0) (Some 0) (Some 0) (Some 0).

(** ** Invariants and byte layouts used by the properties *)

Import JS.

(** The variables that steer the loop: a [case] of the [switch] changes
    none of them. *)
Definition ctl (s : Png.locals) : Z * Z * value * Z :=
  (Png.i s, Png.lineNum s, Png.filterByte s, Png.pixelCount s).

(** The values [i] takes at the head of the loop for an image of width
    [w]: the start of scanline [q], or its pixel [k] for [k] from 1. *)
Inductive position (w : Z) : Z -> Prop :=
| at_line q : 0 <= q -> position w (q * (w * 4 + 1))
| at_pixel q k :
    0 <= q -> 1 <= k <= w - 1 -> position w (q * (w * 4 + 1) + 1 + 4 * k).

(** Pixel [k] of scanline [q]: the four bytes behind the filter byte and
    [k] pixels. *)
Definition pixel_at (bs : list Z) (w : Z) (q k : nat) : value :=
  Array (Png.slice4 bs (Z.of_nat q * (w * 4 + 1) + 1 + 4 * Z.of_nat k)).

(** The output row of scanline [q] once [n] of its pixels are copied: the
    filter byte 0, then the pixels. *)
Definition copied_row (bs : list Z) (w : Z) (q n : nat) : slot :=
  Row (Number (Int 0) :: map (pixel_at bs w q) (seq 0 n)).

(** The output rows of the first [n] scanlines. *)
Definition copied_rows (bs : list Z) (w : Z) (n : nat) : list slot :=
  map (fun q => copied_row bs w q (Z.to_nat w)) (seq 0 n).

(** The loop at its head while it copies a stream of [h] scanlines of
    type 0. *)
Inductive copying (bs : list Z) (w : Z) (h : nat) : Png.locals -> Prop :=
| copying_init :
    copying bs w h (Png.mkLocals 0 Undefined [Row []] (-1) Undefined 0)
| copying_line q s :
    (1 <= q <= h)%nat ->
    Png.i s = Z.of_nat q * (w * 4 + 1) ->
    Png.lineNum s = Z.of_nat q - 1 ->
    Png.res s = copied_rows bs w q ->
    copying bs w h s
| copying_pixel q k s :
    (q < h)%nat -> 1 <= Z.of_nat k <= w - 1 ->
    Png.i s = Z.of_nat q * (w * 4 + 1) + 1 + 4 * Z.of_nat k ->
    Png.lineNum s = Z.of_nat q ->
    Png.res s = copied_rows bs w q ++ [copied_row bs w q k] ->
    Png.filterByte s = Number (Int 0) ->
    copying bs w h s.

(** The four bytes of an unsigned 32-bit integer, most significant
    first: what [getUint32] reads back. *)
Definition uint32_be (n : Z) : list Z :=
  [n / 2 ^ 24 mod 256; n / 2 ^ 16 mod 256; n / 2 ^ 8 mod 256; n mod 256].

(** The bytes of an ASCII type code. *)
Definition fourcc_bytes (s : string) : list Z :=
  map (fun a => Z.of_nat (nat_of_ascii a)) (list_ascii_of_string s).

(** A chunk as it lies in a file: length, type code, payload, CRC. *)
Definition chunk_bytes (ty : string) (payload crc : list Z) : list Z :=
  uint32_be (Z.of_nat (length payload)) ++ fourcc_bytes ty ++ payload ++ crc.

(** The big-endian value of four bytes. *)
Definition uint32_of (b : list Z) : Z :=
  match b with
  | [b0; b1; b2; b3] => b0 * 2 ^ 24 + b1 * 2 ^ 16 + b2 * 2 ^ 8 + b3
  | _ => 0
  end.

(** A pixel with its four channels. *)
Definition pixel4 (v : value) : Prop :=
  exists a b c d, v = Array [a; b; c; d].

(** A finished row: something in front, then at least [w] whole pixels. *)
Definition row_ok (w : Z) (sl : slot) : Prop :=
  exists c0 ps,
    sl = Row (c0 :: ps) /\ Forall pixel4 ps /\ w <= Z.of_nat (length ps).

(** The rows while pixel [k] of scanline [q], of filter type [f], is about
    to be read: [q] finished rows, then the row in the making, which holds
    one entry more than pixels read once an Average scanline has pushed
    its first pixel twice.  Its pixels are whole if the last one read was,
    which is what [whole] says. *)
Inductive shaped (whole : Prop) (w q k f : Z) (s : Png.locals) : Prop :=
| shaped_intro R c0 ps :
    Png.res s = R ++ [Row (c0 :: ps)] ->
    Z.of_nat (length R) = q ->
    Forall (row_ok w) R ->
    (whole -> Forall pixel4 ps) ->
    Z.of_nat (length ps) = (if (f =? 3) && (1 <=? k) then k + 1 else k) ->
    (exists l, Png.tempArr s = Array l) ->
    shaped whole w q k f s.

(** The loop at its head while it decodes scanlines of the filter types 0
    to 4: where it stands, how many rows there are, and their shape. *)
Inductive decoding (bs : list Z) (w : Z) : Png.locals -> Prop :=
| decoding_init :
    decoding bs w (Png.mkLocals 0 Undefined [Row []] (-1) Undefined 0)
| decoding_line q s :
    1 <= q ->
    Png.i s = q * (w * 4 + 1) ->
    Png.lineNum s = q - 1 ->
    Z.of_nat (length (Png.res s)) = q ->
    (q - 1) * (w * 4 + 1) < Z.of_nat (length bs) ->
    (Png.i s < Z.of_nat (length bs) -> Forall (row_ok w) (Png.res s)) ->
    decoding bs w s
| decoding_pixel q k f s :
    0 <= q -> 1 <= k <= w - 1 ->
    Png.i s = q * (w * 4 + 1) + 1 + 4 * k ->
    Png.lineNum s = q ->
    Png.pixelCount s = k ->
    Png.filterByte s = Number (Int f) ->
    index bs (q * (w * 4 + 1)) = Some f ->
    shaped (Png.i s < Z.of_nat (length bs)) w q k f s ->
    decoding bs w s.

(** What a [case] of the [switch] leaves behind when the rows were [R]
    and the row in the making began with [c0]: the pixels [ps'] of that
    row, whole if the pixel [cur] just read was whole. *)
Definition pushed (R : list slot) (c0 : value) (cur : list num)
  (t' : Png.locals) (ps' : list value) : Prop :=
  Png.res t' = R ++ [Row (c0 :: ps')]
  /\ (exists l, Png.tempArr t' = Array l)
  /\ (length cur = 4%nat -> Forall pixel4 ps').

(** ** Chunks in a file *)

(** [c] is the chunk that lies at [pos] in [bs]: its fields are read at
    their places, and it ends inside the buffer. *)
Definition read_at (bs : list Z) (pos : Z) (c : Png.chunk) : Prop :=
  Png.offset c = pos + 8
  /\ Png.getUint32 bs pos = Returned (Png.size c)
  /\ 0 <= Png.size c
  /\ Png.offset c + Png.size c + 4 <= Z.of_nat (length bs)
  /\ Png.fourCC c = Png.decode (slice bs (pos + 4) (pos + 8))
  /\ Png.data c = slice bs (Png.offset c) (Png.offset c + Png.size c)
  /\ Png.getUint32 bs (Png.offset c + Png.size c) = Returned (Png.crc c)
  /\ match Png.chunkInfo c with
     | Some info =>
         Png.fourCC c = "IHDR"%string
         /\ Png.getUint32 bs 16 = Returned (Png.widthPixels info)
         /\ Png.getUint32 bs 20 = Returned (Png.heightPixels info)
     | None => Png.fourCC c <> "IHDR"%string
     end.

(** The chunks [cs] lie one behind the other in [bs], the first at
    [pos], the last ending at [e]. *)
Inductive chained (bs : list Z) : Z -> list Png.chunk -> Z -> Prop :=
| chained_nil pos : chained bs pos [] pos
| chained_cons pos c cs e :
    read_at bs pos c ->
    chained bs (Png.offset c + Png.size c + 4) cs e ->
    chained bs pos (c :: cs) e.

(** A chunk to be written into a file: type code, payload, and the four
    bytes put in the place of the CRC. *)
Record piece : Type := mkPiece {
  piece_type : string;
  piece_payload : list Z;
  piece_crc : list Z
}.

(** The bytes of a chunk in a file. *)
Definition piece_bytes (c : piece) : list Z :=
  chunk_bytes (piece_type c) (piece_payload c) (piece_crc c).

(** A file: eight bytes in the place of the signature, then the chunks. *)
Definition file_bytes (signature : list Z) (cs : list piece) : list Z :=
  signature ++ concat (map piece_bytes cs).

(** A type code of four ASCII characters, four bytes of CRC, and a
    payload whose length fits into 32 bits. *)
Definition well_formed (c : piece) : Prop :=
  String.length (piece_type c) = 4%nat
  /\ length (piece_crc c) = 4%nat
  /\ Z.of_nat (length (piece_payload c)) < 2 ^ 32
  /\ forallb (fun a => (nat_of_ascii a <? 128)%nat)
       (list_ascii_of_string (piece_type c)) = true.

(** The chunk objects for the pieces [cs] written from [pos] on;
    [info] is what a chunk of type IHDR gets as [chunkInfo]. *)
Fixpoint layout (info : option Png.chunkInfo_t) (pos : Z) (cs : list piece)
  : list Png.chunk :=
  match cs with
  | [] => []
  | c :: cs' =>
      Png.mkChunk (piece_type c) (Z.of_nat (length (piece_payload c)))
        (piece_payload c) (pos + 8) (uint32_of (piece_crc c))
        (if String.eqb (piece_type c) "IHDR" then info else None)
      :: layout info (pos + 12 + Z.of_nat (length (piece_payload c))) cs'
  end.

(** The [chunkInfo] of every IHDR chunk of the buffer [buf]: the numbers
    at offsets 16 and 20. *)
Definition header_info (buf : list Z) : option Png.chunkInfo_t :=
  Some (Png.mkChunkInfo (uint32_of (slice buf 16 20))
          (uint32_of (slice buf 20 24))).

(** A chunk to be written whose type is IDAT. *)
Definition is_idat_piece (c : piece) : bool :=
  String.eqb (piece_type c) "IDAT".

(** A chunk of type IDAT. *)
Definition is_idat (c : Png.chunk) : bool := String.eqb (Png.fourCC c) "IDAT".

(** ** The reconstruction of a filtered stream *)

(** The filter type of scanline [q]. *)
Definition filter_type (bs : list Z) (w : Z) (q : nat) : Z :=
  match index bs (Z.of_nat q * (w * 4 + 1)) with
  | Some f => f
  | None => 0
  end.

(** The four filtered bytes of pixel [k] of scanline [q]. *)
Definition raw_pixel (bs : list Z) (w : Z) (q k : nat) : list Z :=
  slice bs (Z.of_nat q * (w * 4 + 1) + 1 + 4 * Z.of_nat k)
    (Z.of_nat q * (w * 4 + 1) + 1 + 4 * Z.of_nat k + 4).

(** Channel by channel, the sum modulo 256. *)
Definition add_pixel (x a : list Z) : list Z :=
  map (fun p => (fst p + snd p) mod 256) (combine x a).

(** The pixel taken where there is no neighbour. *)
Definition no_pixel : list Z := [0; 0; 0; 0].

(** The reconstruction of one pixel from its filtered bytes [x], the
    pixel [a] to its left, the pixel [b] above and the pixel [c] above
    [a], by the filter types of the PNG standard. *)
Definition recon_pixel (f : Z) (x a b c : list Z) : list Z :=
  if f =? 1 then add_pixel x a
  else if f =? 2 then add_pixel x b
  else if f =? 3 then Canon.recon_average x a b
  else if f =? 4 then Canon.recon_paeth x a b c
  else x.

(** The pixels of a scanline of type [f], from left to right. *)
Fixpoint recon_line (f : Z) (raw above : nat -> list Z) (k : nat) : list Z :=
  match k with
  | O => recon_pixel f (raw O) no_pixel (above O) no_pixel
  | S k' =>
      recon_pixel f (raw k) (recon_line f raw above k') (above k) (above k')
  end.

(** The pixels of scanline [q], from the scanline above. *)
Fixpoint recon (bs : list Z) (w : Z) (q : nat) : nat -> list Z :=
  match q with
  | O => recon_line (filter_type bs w O) (raw_pixel bs w O)
           (fun _ => no_pixel)
  | S q' => recon_line (filter_type bs w q) (raw_pixel bs w q)
              (recon bs w q')
  end.

(** The output row of scanline [q] once [n] of its pixels are there. *)
Definition recon_row (bs : list Z) (w : Z) (q n : nat) : slot :=
  Row (Number (Int (filter_type bs w q))
       :: map (fun k => Array (map Int (recon bs w q k))) (seq 0 n)).

(** The output rows of the first [n] scanlines. *)
Definition recon_rows (bs : list Z) (w : Z) (n : nat) : list slot :=
  map (fun q => recon_row bs w q (Z.to_nat w)) (seq 0 n).

(** The loop at its head while it reconstructs a stream of [h]
    scanlines. *)
Inductive reconstructing (bs : list Z) (w : Z) (h : nat)
  : Png.locals -> Prop :=
| reconstructing_init :
    reconstructing bs w h (Png.mkLocals 0 Undefined [Row []] (-1) Undefined 0)
| reconstructing_line q s :
    (1 <= q <= h)%nat ->
    Png.i s = Z.of_nat q * (w * 4 + 1) ->
    Png.lineNum s = Z.of_nat q - 1 ->
    Png.res s = recon_rows bs w q ->
    reconstructing bs w h s
| reconstructing_pixel q k s :
    (q < h)%nat -> 1 <= Z.of_nat k <= w - 1 ->
    Png.i s = Z.of_nat q * (w * 4 + 1) + 1 + 4 * Z.of_nat k ->
    Png.lineNum s = Z.of_nat q ->
    Png.pixelCount s = Z.of_nat k ->
    Png.res s = recon_rows bs w q ++ [recon_row bs w q k] ->
    Png.filterByte s = Number (Int (filter_type bs w q)) ->
    (filter_type bs w q = 1 ->
     Png.tempArr s = Array (map Int (recon bs w q (k - 1)))) ->
    reconstructing bs w h s.

(** A pixel of four bytes. *)
Definition pixel_ok (l : list Z) : Prop :=
  length l = 4%nat /\ Forall (fun b => 0 <= b < 256) l.

(** ** The tiles of a grid *)

(** The tile of [tw] by [th] cells whose upper left corner is cell [x0]
    of row [y0] of the grid [g]. *)
Definition window {A} (g : list (list A)) (tw th x0 y0 : Z)
  : list (list A) :=
  map (fun i => firstn (Z.to_nat tw)
                  (skipn (Z.to_nat x0) (nth (Z.to_nat y0 + i) g [])))
    (seq 0 (Z.to_nat th)).

(** The tiles of a grid, row of tiles by row of tiles: as many as fit
    behind the margins, [sep] cells apart. *)
Definition tiles_of {A} (g : list (list A)) (tw th sep xm ym : Z)
  : list (list (list A)) :=
  let nr := Z.to_nat ((Z.of_nat (length g) - ym) / (th + sep)) in
  let nc := Z.to_nat ((Z.of_nat (length (nth 0 g [])) - xm) / (tw + sep)) in
  concat
    (map (fun r =>
            map (fun c => window g tw th (xm + Z.of_nat c * (tw + sep))
                            (ym + Z.of_nat r * (th + sep)))
              (seq 0 nc))
       (seq 0 nr)).

(** The [options] argument passes the validation: it is left out, or
    its colour has four entries. *)
Definition valid_options (o : option Png.options_t) : Prop :=
  match o with
  | Some c => length (Png.ignoredColour c) = 4%nat
  | None => True
  end.

(** ** Sample files, streams and grids *)

(** The eight bytes every PNG file begins with. *)
Definition png_signature : list Z := [137; 80; 78; 71; 13; 10; 26; 10].

(** The chunks of a small file: a header for 2 by 3 pixels, two IDAT
    chunks and the end chunk. *)
Definition sample_pieces : list piece :=
  [mkPiece "IHDR" [0; 0; 0; 2; 0; 0; 0; 3; 8; 6; 0; 0; 0] [1; 2; 3; 4];
   mkPiece "IDAT" [7; 8] [5; 6; 7; 8];
   mkPiece "IDAT" [9] [0; 0; 0; 0];
   mkPiece "IEND" [] [9; 10; 11; 12]].

(** Three scanlines of two pixels, of the filter types Paeth, Sub and
    Up. *)
Definition sample_stream : list Z :=
  [4; 10; 20; 30; 40; 5; 6; 7; 8;
   1; 1; 2; 3; 4; 250; 250; 250; 250;
   2; 1; 1; 1; 1; 2; 2; 2; 2].

(** A grid of 4 rows of 5 cells, the cell of row [r] and column [c]
    being [10 * r + c]. *)
Definition sample_grid : list (list Z) :=
  [[0; 1; 2; 3; 4]; [10; 11; 12; 13; 14]; [20; 21; 22; 23; 24];
   [30; 31; 32; 33; 34]].

(** * Properties *)

(** ** Outcomes and arrays *)

Lemma bind_returned {X Y} (m : result X) (k : X -> result Y) y :
  bind m k = Returned y -> exists v, m = Returned v /\ k v = Returned y.
Proof. destruct m; cbn; intros H; try discriminate. eauto. Qed.

Ltac inv_bind H :=
  let v := fresh "v" in
  let Hv := fresh "Hv" in
  apply bind_returned in H; destruct H as (v & Hv & H).

Lemma bind_fuel {X Y} (m : result X) (k : X -> result Y) :
  m <> OutOfFuel -> (forall v, k v <> OutOfFuel) -> bind m k <> OutOfFuel.
Proof. intros Hm Hk. destruct m; cbn; auto; discriminate. Qed.

Lemma mapi_fuel {X Y} (f : Z -> X -> result Y) :
  (forall c v, f c v <> OutOfFuel) ->
  forall l c, mapi f c l <> OutOfFuel.
Proof.
  intros Hf l; induction l as [|v l IH]; intros c; simpl; [discriminate|].
  specialize (Hf c v); specialize (IH (c + 1)).
  destruct (f c v); simpl; try congruence.
  destruct (mapi f (c + 1) l); simpl; congruence.
Qed.

Lemma mapi_returned {X Y} (f : Z -> X -> result Y) :
  (forall c v, exists y, f c v = Returned y) ->
  forall l c, exists l', mapi f c l = Returned l' /\ length l' = length l.
Proof.
  intros Hf l. induction l as [|v l IH]; intros c; cbn [mapi].
  - exists []. auto.
  - destruct (Hf c v) as (y & ->). destruct (IH (c + 1)) as (l' & -> & Hl).
    cbn [bind]. exists (y :: l'). cbn [length]. auto.
Qed.

Lemma mapi_returned_range {X Y} (f : Z -> X -> result Y) l :
  forall c,
    (forall j v, c <= j < c + Z.of_nat (length l) ->
                 exists y, f j v = Returned y) ->
    exists l', mapi f c l = Returned l'.
Proof.
  induction l as [|v l IH]; intros c Hf; cbn [mapi]; [eauto|].
  destruct (Hf c v) as (y & ->); [cbn [length]; lia|].
  destruct (IH (c + 1)) as (l' & ->).
  - intros j v' Hj. apply Hf. cbn [length]. lia.
  - cbn [bind]. eauto.
Qed.

Lemma index_Some_lt {X} (l : list X) k v :
  index l k = Some v -> 0 <= k < Z.of_nat (length l).
Proof.
  unfold index. destruct (k <? 0) eqn:Hk; [discriminate|].
  apply Z.ltb_ge in Hk. intros H.
  assert (Hn : (Z.to_nat k < length l)%nat)
    by (apply nth_error_Some; congruence).
  lia.
Qed.

Lemma index_app_last {X} (l : list X) v :
  index (l ++ [v]) (Z.of_nat (length l)) = Some v.
Proof.
  unfold index. destruct (_ <? 0) eqn:H; [apply Z.ltb_lt in H; lia|].
  rewrite Nat2Z.id, nth_error_app2, Nat.sub_diag by lia. reflexivity.
Qed.

Lemma index_end {X} (l : list X) : index l (Z.of_nat (length l)) = None.
Proof.
  unfold index. destruct (_ <? 0); [reflexivity|].
  rewrite Nat2Z.id. apply nth_error_None. lia.
Qed.

Lemma slice_app {X} (pre mid post : list X) a b :
  a = Z.of_nat (length pre) -> b = a + Z.of_nat (length mid) ->
  slice (pre ++ mid ++ post) a b = mid.
Proof.
  intros -> ->. unfold slice. rewrite !length_app.
  destruct (Z.of_nat (length pre) <? 0) eqn:Ha; [apply Z.ltb_lt in Ha; lia|].
  destruct (Z.of_nat (length pre) + Z.of_nat (length mid) <? 0) eqn:Hb;
    [apply Z.ltb_lt in Hb; lia|].
  rewrite !Z.min_l by lia.
  replace (Z.to_nat (Z.of_nat (length pre))) with (length pre) by lia.
  replace (Z.to_nat _) with (length mid) by lia.
  rewrite skipn_app, skipn_all, Nat.sub_diag. cbn [skipn app].
  rewrite firstn_app, firstn_all, Nat.sub_diag. cbn [firstn].
  apply app_nil_r.
Qed.

Lemma slice_length {X} (l : list X) a b :
  0 <= a -> a <= b ->
  Z.of_nat (length (slice l a b))
  = Z.min b (Z.of_nat (length l)) - Z.min a (Z.of_nat (length l)).
Proof.
  intros Ha Hb. unfold slice.
  destruct (a <? 0) eqn:Ha'; [apply Z.ltb_lt in Ha'; lia|].
  destruct (b <? 0) eqn:Hb'; [apply Z.ltb_lt in Hb'; lia|].
  rewrite length_firstn, length_skipn. lia.
Qed.

Lemma Forall_slice {X} (P : X -> Prop) l a b :
  Forall P l -> Forall P (slice l a b).
Proof.
  intros H. unfold slice.
  set (n := Z.to_nat _). set (m := Z.to_nat _).
  rewrite <- (firstn_skipn m l) in H. apply Forall_app in H.
  destruct H as (_ & H).
  rewrite <- (firstn_skipn n (skipn m l)) in H. apply Forall_app in H.
  tauto.
Qed.

(** ** [reverseFiltering] *)

Lemma push_pixel_ctl px s s' :
  Png.push_pixel px s = Returned s' -> ctl s' = ctl s.
Proof.
  unfold Png.push_pixel. intros H. inv_bind H. injection H as <-. reflexivity.
Qed.

Ltac ctl_step :=
  match goal with
  | H : bind _ _ = Returned _ |- _ => inv_bind H
  | H : Png.push_pixel _ _ = Returned _ |- _ => apply push_pixel_ctl in H
  | H : Returned _ = Returned _ |- _ => injection H as <-
  | H : (if ?b then _ else _) = Returned _ |- _ => destruct b
  end.

Lemma case_sub_ctl wb s cur s' :
  Png.case_sub wb s cur = Returned s' -> ctl s' = ctl s.
Proof.
  unfold Png.case_sub. intros H. repeat ctl_step; unfold ctl in *; cbn in *; congruence.
Qed.

Lemma case_up_ctl s cur s' :
  Png.case_up s cur = Returned s' -> ctl s' = ctl s.
Proof.
  unfold Png.case_up. intros H. repeat ctl_step; unfold ctl in *; cbn in *; congruence.
Qed.

Lemma case_average_ctl wb s cur s' :
  Png.case_average wb s cur = Returned s' -> ctl s' = ctl s.
Proof.
  unfold Png.case_average. intros H. repeat ctl_step; unfold ctl in *; cbn in *; congruence.
Qed.

Lemma case_paeth_ctl s cur s' :
  Png.case_paeth s cur = Returned s' -> ctl s' = ctl s.
Proof.
  unfold Png.case_paeth. intros H. inv_bind H. destruct v as [[a b] c].
  repeat ctl_step; unfold ctl in *; cbn in *; congruence.
Qed.

Lemma open_row_ctl bs s : ctl (Png.open_row bs s) = ctl s.
Proof.
  unfold Png.open_row.
  destruct (row_at _ _) as [[|c cs]|]; reflexivity.
Qed.

Lemma switch_ctl wb s cur s' :
  Png.switch wb s cur = Returned s' -> ctl s' = ctl s.
Proof.
  unfold Png.switch, Png.case_none. intros H.
  repeat match type of H with
         | match ?v with _ => _ end = _ => destruct v; try discriminate
         end;
    eauto using push_pixel_ctl, case_sub_ctl, case_up_ctl, case_average_ctl,
      case_paeth_ctl.
Qed.

(** What an iteration does to [i], [lineNum] and [filterByte] is decided
    by its first [if]. *)
Lemma body_ctl bs wb s s' :
  Png.body bs wb s = Returned s' ->
  Png.i s' = Png.i (Png.enter_line bs wb s)
  /\ Png.lineNum s' = Png.lineNum (Png.enter_line bs wb s)
  /\ Png.filterByte s' = Png.filterByte (Png.enter_line bs wb s)
  /\ Png.pixelCount s' = Png.pixelCount (Png.enter_line bs wb s) + 1.
Proof.
  unfold Png.body. intros H. inv_bind H. injection H as <-.
  apply switch_ctl in Hv. rewrite open_row_ctl in Hv.
  unfold ctl in Hv. injection Hv as Hi Hl Hf Hp. cbn.
  rewrite Hi, Hl, Hf, Hp. auto.
Qed.

Lemma enter_line_i bs wb s :
  Png.i (Png.enter_line bs wb s) =
  if Png.at_line_start wb s then Png.i s + 1 else Png.i s.
Proof. unfold Png.enter_line. destruct (Png.at_line_start wb s); reflexivity. Qed.

(** *** The budget of the loop *)

Lemma push_fuel r k v : push r k v <> OutOfFuel.
Proof. unfold push. destruct (row_at r k); discriminate. Qed.

Lemma at2_fuel r a b : at2 r a b <> OutOfFuel.
Proof. unfold at2. destruct (row_at r a); discriminate. Qed.

Lemma prop_fuel v c : prop v c <> OutOfFuel.
Proof. destruct v; discriminate. Qed.

Lemma at3_fuel r a b c : at3 r a b c <> OutOfFuel.
Proof. apply bind_fuel; auto using at2_fuel, prop_fuel. Qed.

Lemma reduce_sum_fuel v : reduce_sum v <> OutOfFuel.
Proof. destruct v as [| |[|h t]]; discriminate. Qed.

Lemma push_pixel_fuel px s : Png.push_pixel px s <> OutOfFuel.
Proof. apply bind_fuel; [apply push_fuel | discriminate]. Qed.

Ltac fuel_step :=
  match goal with
  | |- bind _ _ <> OutOfFuel => apply bind_fuel
  | |- mapi _ _ _ <> OutOfFuel => apply mapi_fuel
  | |- Png.push_pixel _ _ <> OutOfFuel => apply push_pixel_fuel
  | |- at2 _ _ _ <> OutOfFuel => apply at2_fuel
  | |- at3 _ _ _ _ <> OutOfFuel => apply at3_fuel
  | |- prop _ _ <> OutOfFuel => apply prop_fuel
  | |- reduce_sum _ <> OutOfFuel => apply reduce_sum_fuel
  | |- Returned _ <> OutOfFuel => discriminate
  | |- Threw _ <> OutOfFuel => discriminate
  | |- (if ?b then _ else _) <> OutOfFuel => destruct b
  | |- (let '(_, _) := ?p in _) <> OutOfFuel => destruct p
  | |- forall _, _ => intro
  end.

Lemma switch_fuel wb s cur : Png.switch wb s cur <> OutOfFuel.
Proof.
  unfold Png.switch, Png.case_none, Png.case_sub, Png.case_up,
    Png.case_average, Png.case_paeth, Png.paeth_add.
  repeat match goal with
         | |- match ?v with _ => _ end <> _ => destruct v; try discriminate
         end;
    repeat fuel_step.
Qed.

Lemma body_fuel bs wb s : Png.body bs wb s <> OutOfFuel.
Proof.
  unfold Png.body. apply bind_fuel; [apply switch_fuel | discriminate].
Qed.

(** Every iteration moves [i] forward, so a budget of the bytes still ahead
    is never used up. *)
Lemma loop_fuel bs wb fuel :
  forall s,
    Z.of_nat (length bs) - Png.i s <= Z.of_nat fuel ->
    Png.loop fuel bs wb s <> OutOfFuel.
Proof.
  induction fuel as [|fuel IH]; intros s Hf; cbn [Png.loop].
  - destruct (Png.i s <? _) eqn:Hlt; [|discriminate].
    apply Z.ltb_lt in Hlt. lia.
  - destruct (Png.i s <? _) eqn:Hlt; [|discriminate].
    pose proof (body_fuel bs wb s) as Hb.
    destruct (Png.body bs wb s) as [s'| |] eqn:Hbody; cbn; try congruence.
    apply IH. cbn. apply body_ctl in Hbody. destruct Hbody as (Hi & _).
    rewrite Hi, enter_line_i. destruct (Png.at_line_start wb s); lia.
Qed.

(** [reverseFiltering] never runs out of the budget of its model. *)
Lemma reverseFiltering_fuel this bs : Png.reverseFiltering this bs <> OutOfFuel.
Proof.
  unfold Png.reverseFiltering.
  apply bind_fuel.
  - unfold Png.header_width.
    destruct (Png.this_data this) as [cs|]; [|discriminate].
    destruct (index cs 0) as [c|]; [|discriminate].
    destruct (Png.chunkInfo c); discriminate.
  - intros w. apply bind_fuel; [|discriminate].
    apply loop_fuel. cbn. lia.
Qed.

(** *** Where the loop stands *)

Lemma rem_position w q r :
  0 <= q -> 0 <= r < w * 4 + 1 ->
  Z.rem (q * (w * 4 + 1) + r) (w * 4 + 1) = r.
Proof.
  intros Hq Hr. rewrite Z.rem_mod_nonneg by nia.
  rewrite Z.add_comm, Z.mod_add by lia. apply Z.mod_small. lia.
Qed.

Lemma at_line_start_line w q s :
  0 <= q -> 1 <= w -> Png.i s = q * (w * 4 + 1) ->
  Png.at_line_start (w * 4 + 1) s = true.
Proof.
  intros Hq Hw Hi. unfold Png.at_line_start. rewrite Hi.
  replace (q * (w * 4 + 1)) with (q * (w * 4 + 1) + 0) by lia.
  rewrite rem_position by lia. reflexivity.
Qed.

Lemma at_line_start_pixel w q k s :
  0 <= q -> 1 <= k <= w - 1 -> Png.i s = q * (w * 4 + 1) + 1 + 4 * k ->
  Png.at_line_start (w * 4 + 1) s = false.
Proof.
  intros Hq Hk Hi. unfold Png.at_line_start. rewrite Hi.
  replace (q * (w * 4 + 1) + 1 + 4 * k)
    with (q * (w * 4 + 1) + (1 + 4 * k)) by lia.
  rewrite rem_position by lia.
  apply orb_false_iff. split; apply Z.eqb_neq; nia.
Qed.

(** From one head of the loop to the next: the position after a position
    is a position, and no start of a scanline is stepped over. *)
Lemma position_next w bs s :
  1 <= w -> position w (Png.i s) ->
  position w (Png.i (Png.enter_line bs (w * 4 + 1) s) + 4)
  /\ forall q0, 0 <= q0 -> Png.i s < q0 * (w * 4 + 1) ->
                Png.i (Png.enter_line bs (w * 4 + 1) s) + 4 <= q0 * (w * 4 + 1).
Proof.
  intros Hw Hp. rewrite enter_line_i.
  remember (Png.i s) as n eqn:Hn. destruct Hp as [q Hq | q k Hq Hk].
  - rewrite (at_line_start_line w q) by auto. split.
    + destruct (Z.eq_dec w 1) as [->|Hw1].
      * replace (q * (1 * 4 + 1) + 1 + 4) with ((q + 1) * (1 * 4 + 1)) by lia.
        apply at_line. lia.
      * replace (q * (w * 4 + 1) + 1 + 4)
          with (q * (w * 4 + 1) + 1 + 4 * 1) by lia.
        apply at_pixel; lia.
    + intros q0 Hq0 Hlt. assert (q + 1 <= q0) by nia. nia.
  - rewrite (at_line_start_pixel w q k) by auto. split.
    + destruct (Z.eq_dec (k + 1) w) as [Hkw|Hkw].
      * replace (q * (w * 4 + 1) + 1 + 4 * k + 4)
          with ((q + 1) * (w * 4 + 1)) by nia.
        apply at_line. lia.
      * replace (q * (w * 4 + 1) + 1 + 4 * k + 4)
          with (q * (w * 4 + 1) + 1 + 4 * (k + 1)) by lia.
        apply at_pixel; lia.
    + intros q0 Hq0 Hlt. assert (q + 1 <= q0) by nia. nia.
Qed.

(** *** A filter type the [switch] does not know *)

Lemma switch_unknown wb s cur b :
  Png.filterByte s = Number (Int b) -> b < 0 \/ 4 < b ->
  Png.switch wb s cur = Threw UnexpectedFilterByte.
Proof.
  intros Hf Hb. unfold Png.switch. rewrite Hf.
  repeat match goal with
         | |- match ?v with _ => _ end = _ => destruct v
         end; try reflexivity; lia.
Qed.

(** At the start of a scanline whose filter type is unknown the iteration
    throws "Unexpected filter byte.", whatever the rows built so far. *)
Lemma body_unknown bs w q s b :
  0 <= q -> 1 <= w -> Png.i s = q * (w * 4 + 1) ->
  index bs (q * (w * 4 + 1)) = Some b -> b < 0 \/ 4 < b ->
  Png.body bs (w * 4 + 1) s = Threw UnexpectedFilterByte.
Proof.
  intros Hq Hw Hi Hb Hbad. unfold Png.body.
  erewrite switch_unknown; [reflexivity | | exact Hbad].
  pose proof (open_row_ctl bs (Png.enter_line bs (w * 4 + 1) s)) as Hc.
  unfold ctl in Hc. injection Hc as _ _ Hf _. rewrite Hf.
  unfold Png.enter_line. rewrite (at_line_start_line w q) by auto.
  cbn. unfold Png.byte_at. rewrite Hi, Hb. reflexivity.
Qed.

(** A stream with a scanline of unknown filter type never yields a grid:
    the loop throws at that scanline if not before. *)
Lemma loop_unknown bs w q0 b :
  1 <= w -> 0 <= q0 ->
  index bs (q0 * (w * 4 + 1)) = Some b -> b < 0 \/ 4 < b ->
  forall fuel s,
    position w (Png.i s) -> Png.i s <= q0 * (w * 4 + 1) ->
    Z.of_nat (length bs) - Png.i s <= Z.of_nat fuel ->
    exists e, Png.loop fuel bs (w * 4 + 1) s = Threw e.
Proof.
  intros Hw Hq0 Hb Hbad fuel.
  pose proof (index_Some_lt _ _ _ Hb) as Hlen.
  induction fuel as [|fuel IH]; intros s Hp Hle Hf; [lia|].
  cbn [Png.loop].
  destruct (Png.i s <? _) eqn:Hlt; [|apply Z.ltb_ge in Hlt; lia].
  destruct (Z.eq_dec (Png.i s) (q0 * (w * 4 + 1))) as [Heq|Hne].
  - rewrite (body_unknown bs w q0 s b) by auto. cbn. eauto.
  - pose proof (body_fuel bs (w * 4 + 1) s) as Hbf.
    destruct (Png.body bs (w * 4 + 1) s) as [s'|e|] eqn:Hbody; cbn;
      [|eauto|congruence].
    apply body_ctl in Hbody. destruct Hbody as (Hi & _).
    destruct (position_next w bs s Hw Hp) as (Hp' & Hle').
    apply IH; cbn; rewrite Hi; auto.
    + apply Hle'; auto. lia.
    + rewrite enter_line_i. destruct (Png.at_line_start _ s); lia.
Qed.

(** With a header of width [w] at least 1, a stream in which some
    scanline has a filter type outside 0..4 makes [reverseFiltering]
    throw: no grid, partial or not, is returned. *)
Lemma reverseFiltering_unknown_throws this bs w q b :
  Png.header_width this = Returned w -> 1 <= w -> 0 <= q ->
  index bs (q * (w * 4 + 1)) = Some b -> b < 0 \/ 4 < b ->
  exists e, Png.reverseFiltering this bs = Threw e.
Proof.
  intros Hh Hw Hq Hb Hbad. unfold Png.reverseFiltering. rewrite Hh. cbn.
  destruct (loop_unknown bs w q b Hw Hq Hb Hbad (length bs)
              (Png.mkLocals 0 Undefined [Row []] (-1) Undefined 0))
    as (e & He).
  - cbn. replace 0 with (0 * (w * 4 + 1)) by lia. apply at_line. lia.
  - cbn. nia.
  - cbn. lia.
  - rewrite He. cbn. eauto.
Qed.

(** *** Invariants of the loop *)

(** A property of the locals that every iteration keeps is kept by the
    loop, which then returns, given a budget of the bytes still ahead. *)
Lemma loop_invariant bs wb (Inv : Png.locals -> Prop) :
  (forall s, Inv s -> Png.i s < Z.of_nat (length bs) ->
             exists s', Png.body bs wb s = Returned s'
                        /\ Inv (Png.set_i (Png.i s' + 4) s')) ->
  forall fuel s,
    Inv s -> Z.of_nat (length bs) - Png.i s <= Z.of_nat fuel ->
    exists s', Png.loop fuel bs wb s = Returned s'
               /\ Inv s' /\ Z.of_nat (length bs) <= Png.i s'.
Proof.
  intros Hstep fuel.
  induction fuel as [|fuel IH]; intros s Hs Hf; cbn [Png.loop];
    destruct (Png.i s <? _) eqn:Hlt;
    try (apply Z.ltb_ge in Hlt; eauto);
    apply Z.ltb_lt in Hlt; [lia|].
  destruct (Hstep s Hs Hlt) as (s' & Hbody & Hs').
  rewrite Hbody. cbn [bind]. apply IH; auto.
  cbn. apply body_ctl in Hbody. destruct Hbody as (Hi & _).
  rewrite Hi, enter_line_i. destruct (Png.at_line_start wb s); lia.
Qed.

(** *** Writing to [res] *)

Lemma row_at_app_last R r k :
  k = Z.of_nat (length R) -> row_at (R ++ [Row r]) k = Some r.
Proof. intros ->. unfold row_at. rewrite index_app_last. reflexivity. Qed.

Lemma row_at_end R k : k = Z.of_nat (length R) -> row_at R k = None.
Proof. intros ->. unfold row_at. rewrite index_end. reflexivity. Qed.

Lemma store_app_last R v v' k :
  k = Z.of_nat (length R) -> store (R ++ [v]) k v' = R ++ [v'].
Proof.
  intros ->.
  unfold store. destruct (_ <? 0) eqn:H; [apply Z.ltb_lt in H; lia|].
  rewrite Nat2Z.id.
  destruct (_ <? _)%nat eqn:Hn.
  - rewrite firstn_app, firstn_all, Nat.sub_diag. cbn [firstn].
    rewrite app_nil_r. f_equal.
    replace (S (length R)) with (length (R ++ [v]))
      by (rewrite length_app; cbn; lia).
    rewrite skipn_all. reflexivity.
  - apply Nat.ltb_ge in Hn. rewrite length_app in Hn. cbn in Hn. lia.
Qed.

Lemma store_end R v k : k = Z.of_nat (length R) -> store R k v = R ++ [v].
Proof.
  intros ->.
  unfold store. destruct (_ <? 0) eqn:H; [apply Z.ltb_lt in H; lia|].
  rewrite Nat2Z.id, Nat.ltb_irrefl, Nat.sub_diag. reflexivity.
Qed.

Lemma push_app_last R r v k :
  k = Z.of_nat (length R) ->
  push (R ++ [Row r]) k v = Returned (R ++ [Row (r ++ [v])]).
Proof.
  intros Hk. unfold push.
  rewrite row_at_app_last, store_app_last by exact Hk. reflexivity.
Qed.

(** *** Filter type 0 on whole scanlines *)

Lemma copied_rows_length bs w n : length (copied_rows bs w n) = n.
Proof. unfold copied_rows. rewrite length_map, length_seq. reflexivity. Qed.

Lemma copied_rows_S bs w n :
  copied_rows bs w (S n)
  = copied_rows bs w n ++ [copied_row bs w n (Z.to_nat w)].
Proof. unfold copied_rows. rewrite seq_S, map_app. reflexivity. Qed.

Lemma copied_row_S bs w q n cells :
  copied_row bs w q n = Row cells ->
  copied_row bs w q (S n) = Row (cells ++ [pixel_at bs w q n]).
Proof.
  unfold copied_row. intros H. injection H as <-.
  rewrite seq_S, map_app. reflexivity.
Qed.

Lemma copied_row_1 bs w q :
  copied_row bs w q 1
  = Row [Number (Int 0);
         Array (Png.slice4 bs (Z.of_nat q * (w * 4 + 1) + 1))].
Proof.
  unfold copied_row, pixel_at. cbn [seq map].
  replace (Z.of_nat q * (w * 4 + 1) + 1 + 4 * Z.of_nat 0)
    with (Z.of_nat q * (w * 4 + 1) + 1) by lia.
  reflexivity.
Qed.

Lemma open_row_kept bs s c cs :
  row_at (Png.res s) (Png.lineNum s) = Some (c :: cs) ->
  Png.open_row bs s = s.
Proof. unfold Png.open_row. intros ->. reflexivity. Qed.

Ltac simpl_locals :=
  cbn [Png.i Png.filterByte Png.res Png.lineNum Png.tempArr Png.pixelCount
       Png.set_i Png.set_res Png.set_tempArr Png.set_pixelCount].

Section Copy.
Variables (bs : list Z) (w : Z) (h : nat).
Hypothesis w_pos : 1 <= w.
Hypothesis whole : Z.of_nat (length bs) = Z.of_nat h * (w * 4 + 1).
Hypothesis type0 :
  forall q, (q < h)%nat -> index bs (Z.of_nat q * (w * 4 + 1)) = Some 0.

(** After the first pixel of scanline [q] the loop stands at its second
    pixel, or at the next scanline when the width is 1. *)
Lemma copying_first q s :
  (q < h)%nat ->
  Png.i s = Z.of_nat q * (w * 4 + 1) + 1 + 4 ->
  Png.lineNum s = Z.of_nat q ->
  Png.res s = copied_rows bs w q ++ [copied_row bs w q 1] ->
  Png.filterByte s = Number (Int 0) ->
  copying bs w h s.
Proof.
  intros Hq Hi Hl Hr Hf. destruct (Z.eq_dec w 1) as [Hw1|Hw1].
  - apply (copying_line bs w h (S q)); [lia | | lia | ].
    + rewrite Hi. subst w. lia.
    + rewrite Hr, copied_rows_S. subst w. reflexivity.
  - apply (copying_pixel bs w h q 1%nat); auto; try (lia).
Qed.

(** The iteration at the start of scanline [q]. *)
Lemma copying_start q s :
  (q < h)%nat ->
  Png.i s = Z.of_nat q * (w * 4 + 1) ->
  Png.lineNum s = Z.of_nat q - 1 ->
  Png.res s = copied_rows bs w q \/ (q = 0%nat /\ Png.res s = [Row []]) ->
  exists s', Png.body bs (w * 4 + 1) s = Returned s'
             /\ copying bs w h (Png.set_i (Png.i s' + 4) s').
Proof.
  intros Hq Hi Hl Hr. unfold Png.body, Png.enter_line.
  rewrite (at_line_start_line w (Z.of_nat q)) by (auto; lia).
  unfold Png.byte_at. rewrite Hi, (type0 q Hq).
  unfold Png.open_row. cbn [Png.res Png.lineNum Png.filterByte Png.i].
  replace (Png.lineNum s + 1) with (Z.of_nat q) by lia.
  assert (Hopen :
    match row_at (Png.res s) (Z.of_nat q) with
    | Some (_ :: _) => False
    | _ => True
    end
    /\ store (Png.res s) (Z.of_nat q) (Row [Number (Int 0)])
       = copied_rows bs w q ++ [Row [Number (Int 0)]]).
  { destruct Hr as [Hr | [-> Hr]]; rewrite Hr.
    - rewrite row_at_end, store_end
        by (rewrite copied_rows_length; reflexivity).
      auto.
    - cbn. auto. }
  destruct Hopen as (Hrow & Hstore).
  destruct (row_at (Png.res s) (Z.of_nat q)) as [[|c cs]|]; try tauto.
  all: unfold Png.switch, Png.case_none, Png.push_pixel;
    cbn [Png.set_tempArr Png.set_res Png.res Png.lineNum Png.filterByte
         Png.i Png.tempArr Png.pixelCount];
    rewrite Hstore;
    rewrite push_app_last by (rewrite copied_rows_length; reflexivity);
    cbn [bind];
    eexists; (split; [reflexivity|]);
    apply (copying_first q); simpl_locals; auto; try lia;
    rewrite copied_row_1; reflexivity.
Qed.

(** One iteration keeps the loop copying. *)
Lemma copying_step s :
  copying bs w h s -> Png.i s < Z.of_nat (length bs) ->
  exists s', Png.body bs (w * 4 + 1) s = Returned s'
             /\ copying bs w h (Png.set_i (Png.i s' + 4) s').
Proof.
  intros Hs Hlt. destruct Hs as [|q s Hq Hi Hl Hr|q k s Hq Hk Hi Hl Hr Hf].
  - cbn in Hlt. apply (copying_start 0); cbn; auto. nia.
  - apply (copying_start q); auto. nia.
  - assert (Hlen : Png.lineNum s = Z.of_nat (length (copied_rows bs w q)))
      by (rewrite copied_rows_length; exact Hl).
    unfold copied_row in Hr.
    assert (Hrow : row_at (Png.res s) (Png.lineNum s)
                   = Some (Number (Int 0) :: map (pixel_at bs w q) (seq 0 k)))
      by (rewrite Hr; apply row_at_app_last, Hlen).
    unfold Png.body, Png.enter_line.
    rewrite (at_line_start_pixel w (Z.of_nat q) (Z.of_nat k)) by (auto; lia).
    rewrite (open_row_kept bs s _ _ Hrow).
    unfold Png.switch, Png.case_none, Png.push_pixel. rewrite Hf, Hr.
    rewrite push_app_last by exact Hlen. cbn [bind].
    eexists. split; [reflexivity|]. simpl_locals.
    assert (Hres : copied_rows bs w q
                   ++ [Row ((Number (Int 0) :: map (pixel_at bs w q) (seq 0 k))
                            ++ [Array (Png.slice4 bs (Png.i s))])]
                   = copied_rows bs w q ++ [copied_row bs w q (S k)]).
    { rewrite (copied_row_S bs w q k _ eq_refl), Hi. reflexivity. }
    destruct (Z.eq_dec (Z.of_nat k + 1) w) as [Hkw|Hkw].
    + apply (copying_line bs w h (S q)); simpl_locals; [lia | | lia | ].
      * rewrite Hi. nia.
      * rewrite Hres, copied_rows_S. repeat f_equal. lia.
    + apply (copying_pixel bs w h q (S k)); simpl_locals; auto; try lia.
Qed.

(** At the end of the stream all [h] rows are there. *)
Lemma copying_done s :
  (1 <= h)%nat -> copying bs w h s -> Z.of_nat (length bs) <= Png.i s ->
  Png.res s = copied_rows bs w h.
Proof.
  rewrite whole. intros Hh Hs Hge.
  destruct Hs as [|q s Hq Hi _ Hr|q k s Hq Hk Hi _ _ _].
  - cbn in Hge. nia.
  - rewrite Hi in Hge. assert (q = h) by nia. subst q. exact Hr.
  - rewrite Hi in Hge. assert (Z.of_nat q + 1 <= Z.of_nat h) by lia. nia.
Qed.

End Copy.

(** Filter type 0 on a stream of [h] whole scanlines, [h] at least 1: the
    method returns [h] rows, row [q] being the filter byte 0 followed by
    the [w] pixels of scanline [q], each the four bytes of the stream. *)
Lemma reverseFiltering_type0 this bs w h :
  Png.header_width this = Returned w ->
  1 <= w -> (1 <= h)%nat ->
  Z.of_nat (length bs) = Z.of_nat h * (w * 4 + 1) ->
  (forall q, (q < h)%nat -> index bs (Z.of_nat q * (w * 4 + 1)) = Some 0) ->
  Png.reverseFiltering this bs = Returned (copied_rows bs w h).
Proof.
  intros Hh Hw Hh1 Hlen H0. unfold Png.reverseFiltering. rewrite Hh.
  cbn [bind].
  destruct (loop_invariant bs (w * 4 + 1) (copying bs w h)
              (copying_step bs w h Hw Hlen H0) (length bs)
              (Png.mkLocals 0 Undefined [Row []] (-1) Undefined 0))
    as (s' & Hloop & Hinv & Hge).
  - apply copying_init.
  - cbn. lia.
  - rewrite Hloop. cbn [bind]. f_equal.
    apply (copying_done bs w h Hw Hlen); auto.
Qed.

(** A first row that begins with the filter type 3 and has at least one
    more byte makes [reverseFiltering] throw a [TypeError], whatever the
    width: the Average case reads [res[0][1]] before anything is there. *)
Lemma reverseFiltering_average_first_row this w b rest :
  Png.header_width this = Returned w ->
  Png.reverseFiltering this (3 :: b :: rest) = Threw TypeError.
Proof.
  intros Hh. unfold Png.reverseFiltering. rewrite Hh.
  cbn [bind length Png.loop Png.i].
  replace (0 <? Z.of_nat (S (S (length rest)))) with true
    by (symmetry; apply Z.ltb_lt; lia).
  unfold Png.body, Png.enter_line, Png.at_line_start. simpl_locals.
  rewrite Z.eqb_refl, orb_true_r.
  unfold Png.open_row. simpl_locals.
  change (row_at [Row []] (-1 + 1)) with (Some (@nil value)).
  cbv iota. simpl_locals.
  change (store [Row []] (-1 + 1) (Row [Png.byte_at (3 :: b :: rest) 0]))
    with [Row [Number (Int 3)]].
  unfold Png.switch. simpl_locals.
  change (Png.byte_at (3 :: b :: rest) 0) with (Number (Int 3)).
  cbv iota. unfold Png.case_average. simpl_locals.
  change (0 <? -1 + 1) with false. cbn [andb negb].
  pose proof (slice_length (3 :: b :: rest) (0 + 1) (0 + 1 + 4)) as Hl.
  unfold Png.slice4.
  destruct (slice (3 :: b :: rest) (0 + 1) (0 + 1 + 4)) as [|p ps].
  - cbn [length] in Hl. lia.
  - reflexivity.
Qed.

(** [lineNum] is -1 before the first iteration only; the first [if] makes
    it 0 there, and from then on it is never negative: no row is read or
    written at a negative index. *)
Lemma body_lineNum bs wb s s' :
  (Png.i s = 0 /\ Png.lineNum s = -1) \/ (0 < Png.i s /\ 0 <= Png.lineNum s) ->
  0 <= Png.lineNum (Png.enter_line bs wb s)
  /\ (Png.body bs wb s = Returned s' ->
      0 < Png.i s' + 4 /\ 0 <= Png.lineNum s').
Proof.
  intros Hs.
  assert (Hl : 0 <= Png.lineNum (Png.enter_line bs wb s)
               /\ 0 <= Png.i (Png.enter_line bs wb s)).
  { unfold Png.enter_line, Png.at_line_start.
    destruct (Z.rem (Png.i s) wb =? 0) eqn:Hr; cbn [orb]; simpl_locals;
      [lia|].
    destruct (Png.i s =? 0) eqn:Hz; simpl_locals; [lia|].
    apply Z.eqb_neq in Hz. lia. }
  split; [tauto|]. intros Hb. apply body_ctl in Hb.
  destruct Hb as (Hi & Hn & _). lia.
Qed.

(** Four bytes of the stream as a pixel. *)
Lemma slice4_bytes bs p :
  0 <= p -> p + 4 <= Z.of_nat (length bs) ->
  Png.slice4 bs p
  = [Int (nth (Z.to_nat p) bs 0); Int (nth (Z.to_nat (p + 1)) bs 0);
     Int (nth (Z.to_nat (p + 2)) bs 0); Int (nth (Z.to_nat (p + 3)) bs 0)].
Proof.
  intros Hp Hlen. unfold Png.slice4.
  rewrite <- (firstn_skipn (Z.to_nat p) bs) at 1.
  assert (Hpre : Z.of_nat (length (firstn (Z.to_nat p) bs)) = p)
    by (rewrite length_firstn; lia).
  remember (skipn (Z.to_nat p) bs) as tl eqn:Htl.
  assert (Hnth : forall j, nth (Z.to_nat p + j) bs 0 = nth j tl 0).
  { intros j. rewrite <- (firstn_skipn (Z.to_nat p) bs) at 1.
    rewrite <- Htl, app_nth2 by (rewrite length_firstn; lia).
    f_equal. rewrite length_firstn. lia. }
  assert (Htll : (4 <= length tl)%nat)
    by (rewrite Htl, length_skipn; lia).
  destruct tl as [|b0 [|b1 [|b2 [|b3 tl']]]]; cbn [length] in Htll; try lia.
  replace (Z.to_nat (p + 1)) with (Z.to_nat p + 1)%nat by lia.
  replace (Z.to_nat (p + 2)) with (Z.to_nat p + 2)%nat by lia.
  replace (Z.to_nat (p + 3)) with (Z.to_nat p + 3)%nat by lia.
  rewrite <- (Nat.add_0_r (Z.to_nat p)) at 2.
  rewrite !Hnth. cbn [nth].
  change (b0 :: b1 :: b2 :: b3 :: tl') with ([b0; b1; b2; b3] ++ tl').
  rewrite (slice_app _ [b0; b1; b2; b3] tl') by (cbn [length]; lia).
  reflexivity.
Qed.

(** *** All five filter types *)

Lemma pixel4_of_length l : length l = 4%nat -> pixel4 (Array l).
Proof.
  destruct l as [|a [|b [|c [|d [|]]]]]; try discriminate.
  intros _. exists a, b, c, d. reflexivity.
Qed.

Lemma prop_pixel4 v c : pixel4 v -> exists o, prop v c = Returned o.
Proof. intros (a & b & c' & d & ->). cbn. eauto. Qed.

Lemma reduce_sum_pixel4 v : pixel4 v -> exists n, reduce_sum v = Returned n.
Proof. intros (a & b & c & d & ->). cbn. eauto. Qed.

Lemma cell_pixel4 c0 ps j :
  Forall pixel4 ps -> 1 <= j <= Z.of_nat (length ps) ->
  pixel4 (cell (c0 :: ps) j).
Proof.
  intros Hps Hj. unfold cell, index.
  destruct (j <? 0) eqn:Hlt; [apply Z.ltb_lt in Hlt; lia|].
  replace (Z.to_nat j) with (S (Z.to_nat (j - 1))) by lia. cbn [nth_error].
  destruct (nth_error ps (Z.to_nat (j - 1))) as [v|] eqn:Hn.
  - rewrite Forall_forall in Hps. apply Hps. eapply nth_error_In, Hn.
  - apply nth_error_None in Hn. lia.
Qed.

Lemma at2_current R cur k j :
  k = Z.of_nat (length R) ->
  at2 (R ++ [Row cur]) k j = Returned (cell cur j).
Proof. intros Hk. unfold at2. rewrite row_at_app_last by exact Hk. reflexivity. Qed.

Lemma at2_above w R cur q j :
  Forall (row_ok w) R -> Z.of_nat (length R) = q -> 1 <= q ->
  1 <= j <= w ->
  exists v, at2 (R ++ [Row cur]) (q - 1) j = Returned v /\ pixel4 v.
Proof.
  intros HR Hlen Hq Hj. unfold at2, row_at, index.
  destruct (q - 1 <? 0) eqn:Hlt; [apply Z.ltb_lt in Hlt; lia|].
  rewrite nth_error_app1 by lia.
  destruct (nth_error R (Z.to_nat (q - 1))) as [sl|] eqn:Hn.
  - rewrite Forall_forall in HR.
    destruct (HR sl (nth_error_In _ _ Hn)) as (c0 & ps & -> & Hps & Hw).
    eexists. split; [reflexivity|]. apply cell_pixel4; auto. lia.
  - apply nth_error_None in Hn. lia.
Qed.

Lemma push_pixel_last R cur px t :
  Png.res t = R ++ [Row cur] -> Png.lineNum t = Z.of_nat (length R) ->
  Png.push_pixel px t
  = Returned (Png.set_res (R ++ [Row (cur ++ [Array px])]) t).
Proof.
  intros Hr Hl. unfold Png.push_pixel.
  rewrite Hr, push_app_last by exact Hl. reflexivity.
Qed.

Lemma cell_last r v j :
  j = Z.of_nat (length r) -> cell (r ++ [v]) j = v.
Proof. intros ->. unfold cell. rewrite index_app_last. reflexivity. Qed.

Lemma at3_pixel4 r a b c v :
  at2 r a b = Returned v -> pixel4 v -> exists o, at3 r a b c = Returned o.
Proof.
  intros Hv Hp. unfold at3. rewrite Hv. cbn [bind]. apply prop_pixel4, Hp.
Qed.

Lemma Forall_pixel4_snoc ps l :
  Forall pixel4 ps -> length l = 4%nat -> Forall pixel4 (ps ++ [Array l]).
Proof.
  intros Hps Hl. apply Forall_app. split; [exact Hps|].
  constructor; [apply pixel4_of_length, Hl | constructor].
Qed.

Ltac run_mapi cur px Hl tac :=
  match goal with
  | |- context [mapi ?f 0 cur] =>
      let Hf := fresh "Hf" in
      let Hpx := fresh "Hpx" in
      assert (Hf : forall c v, exists y, f c v = Returned y);
      [ intros ? ?; tac
      | destruct (mapi_returned f Hf cur 0) as (px & Hpx & Hl);
        rewrite Hpx; cbn [bind]; clear Hf Hpx ]
  end.

Ltac decide_ltb b :=
  first
    [ replace b with true by (symmetry; apply Z.ltb_lt; nia)
    | replace b with false by (symmetry; apply Z.ltb_ge; nia) ].

Section Switch.
Variables (w q k : Z) (t : Png.locals) (cur : list num).
Variables (R : list slot) (c0 : value) (ps : list value).
Hypothesis Hw : 1 <= w.
Hypothesis Hq : 0 <= q.
Hypothesis Hk : 0 <= k <= w - 1.
Hypothesis Hl : Png.lineNum t = q.
Hypothesis Hp : Png.pixelCount t = k.
Hypothesis Hi : Png.i t = q * (w * 4 + 1) + 1 + 4 * k.
Hypothesis Hr : Png.res t = R ++ [Row (c0 :: ps)].
Hypothesis HR : Z.of_nat (length R) = q.
Hypothesis Hrows : Forall (row_ok w) R.
Hypothesis Hps : Forall pixel4 ps.
Hypothesis Ht : exists l, Png.tempArr t = Array l.

Lemma HlR : Png.lineNum t = Z.of_nat (length R).
Proof. lia. Qed.

Lemma case_none_pushed :
  exists t', Png.case_none t cur = Returned t'
             /\ pushed R c0 cur t' (ps ++ [Array cur]).
Proof.
  unfold Png.case_none. rewrite (push_pixel_last R _ cur t Hr HlR).
  eexists. split; [reflexivity|]. unfold pushed. simpl_locals.
  repeat split; auto using Forall_pixel4_snoc.
Qed.

Lemma case_sub_pushed :
  Z.of_nat (length ps) = k ->
  exists t' px, Png.case_sub (w * 4 + 1) t cur = Returned t'
                /\ pushed R c0 cur t' (ps ++ [Array px]).
Proof.
  intros Hlen. unfold Png.case_sub. rewrite Hl, Hi.
  destruct (Z.eq_dec k 0) as [Hk0|Hk0].
  - decide_ltb ((w * 4 + 1) * q + 3 <? q * (w * 4 + 1) + 1 + 4 * k).
    rewrite (push_pixel_last R (c0 :: ps) cur) by (simpl_locals; auto using HlR).
    exists (Png.set_res (R ++ [Row ((c0 :: ps) ++ [Array cur])])
              (Png.set_tempArr (Array cur) t)), cur.
    split; [reflexivity|]. unfold pushed. simpl_locals.
    repeat split; eauto using Forall_pixel4_snoc.
  - decide_ltb ((w * 4 + 1) * q + 3 <? q * (w * 4 + 1) + 1 + 4 * k).
    destruct Ht as (l & Hta).
    run_mapi cur px Hlpx ltac:(rewrite Hta; cbn; eauto).
    rewrite (push_pixel_last R (c0 :: ps) px t Hr HlR). cbn [bind].
    simpl_locals. rewrite Hl, Hp, at2_current by lia.
    rewrite cell_last by (cbn [length]; lia). cbn [bind].
    eexists _, px. split; [reflexivity|]. unfold pushed. simpl_locals.
    repeat split; eauto. intros Hc. apply Forall_pixel4_snoc; auto. lia.
Qed.

Lemma case_up_pushed :
  exists t' px, Png.case_up t cur = Returned t'
                /\ pushed R c0 cur t' (ps ++ [Array px]).
Proof.
  unfold Png.case_up. rewrite Hl, Hp, Hr.
  destruct (Z.eq_dec q 0) as [Hq0|Hq0].
  - decide_ltb (0 <? q).
    rewrite (push_pixel_last R (c0 :: ps) cur) by (simpl_locals; auto using HlR).
    exists (Png.set_res (R ++ [Row ((c0 :: ps) ++ [Array cur])])
              (Png.set_tempArr (Array cur) t)), cur.
    split; [reflexivity|]. unfold pushed. simpl_locals.
    repeat split; eauto using Forall_pixel4_snoc.
  - decide_ltb (0 <? q).
    destruct (at2_above w R (c0 :: ps) q (k + 1) Hrows HR) as (v & Hv & Hv4);
      try lia.
    run_mapi cur px Hlpx
      ltac:(destruct (at3_pixel4 _ _ _ c _ Hv Hv4) as (o & ->); cbn; eauto).
    rewrite (push_pixel_last R (c0 :: ps) px t Hr HlR).
    eexists _, px. split; [reflexivity|]. unfold pushed. simpl_locals.
    repeat split; eauto. intros Hc. apply Forall_pixel4_snoc; auto. lia.
Qed.

Lemma case_average_pushed :
  1 <= q ->
  Z.of_nat (length ps) = (if 1 <=? k then k + 1 else k) ->
  exists t' ps', Png.case_average (w * 4 + 1) t cur = Returned t'
                 /\ pushed R c0 cur t' ps'
                 /\ Z.of_nat (length ps') = k + 2.
Proof.
  intros Hq1 Hlen. unfold Png.case_average. rewrite Hl, Hp, Hi.
  decide_ltb (0 <? q).
  destruct (Z.eq_dec k 0) as [Hk0|Hk0].
  - decide_ltb ((w * 4 + 1) * q + 3 <? q * (w * 4 + 1) + 1 + 4 * k).
    cbn [andb negb].
    destruct (at2_above w R (c0 :: ps) q (k + 1) Hrows HR) as (v & Hv & Hv4);
      try lia.
    rewrite Hr.
    run_mapi cur px Hlpx ltac:(rewrite Hv; cbn; eauto).
    rewrite (push_pixel_last R (c0 :: ps) px t Hr HlR). cbn [bind].
    rewrite (push_pixel_last R ((c0 :: ps) ++ [Array px]) cur)
      by (simpl_locals; auto using HlR).
    eexists _, ((ps ++ [Array px]) ++ [Array cur]).
    split; [reflexivity|]. unfold pushed. simpl_locals.
    split; [|rewrite !length_app; cbn [length];
             replace (1 <=? k) with false in Hlen
               by (symmetry; apply Z.leb_gt; lia); lia].
    repeat split; eauto.
    intros Hc. apply Forall_pixel4_snoc; auto.
    apply Forall_pixel4_snoc; auto. lia.
  - decide_ltb ((w * 4 + 1) * q + 3 <? q * (w * 4 + 1) + 1 + 4 * k).
    cbn [andb].
    replace (1 <=? k) with true in Hlen by (symmetry; apply Z.leb_le; lia).
    destruct (at2_above w R (c0 :: ps) q (k + 1) Hrows HR) as (v & Hv & Hv4);
      try lia.
    rewrite Hr.
    pose proof (at2_current R (c0 :: ps) q (k + 1) (eq_sym HR)) as Hu.
    pose proof (cell_pixel4 c0 ps (k + 1) Hps ltac:(lia)) as Hu4.
    run_mapi cur px Hlpx
      ltac:(destruct (at3_pixel4 _ _ _ c _ Hu Hu4) as (o & ->);
            destruct (at3_pixel4 _ _ _ c _ Hv Hv4) as (o' & ->);
            cbn; eauto).
    rewrite (push_pixel_last R (c0 :: ps) px t Hr HlR).
    eexists _, (ps ++ [Array px]).
    split; [reflexivity|]. unfold pushed. simpl_locals.
    split; [|rewrite length_app; cbn [length]; lia].
    repeat split; eauto. intros Hc. apply Forall_pixel4_snoc; auto. lia.
Qed.

Lemma paeth_add_returned n :
  pixel4 n ->
  exists ret, Png.paeth_add n cur = Returned ret /\ length ret = 4%nat.
Proof.
  intros Hn. unfold Png.paeth_add.
  run_mapi [tt; tt; tt; tt] ret Hlret
    ltac:(destruct (prop_pixel4 n c Hn) as (o & ->); cbn; eauto).
  eauto.
Qed.

Lemma pixel4_zeros : pixel4 (Array [Int 0; Int 0; Int 0; Int 0]).
Proof. apply pixel4_of_length. reflexivity. Qed.

Lemma case_paeth_pushed :
  Z.of_nat (length ps) = k ->
  exists t' px, Png.case_paeth t cur = Returned t'
                /\ pushed R c0 cur t' (ps ++ [Array px])
                /\ length px = 4%nat.
Proof.
  intros Hlen. unfold Png.case_paeth. rewrite Hl, Hp, Hr.
  assert (Habc : exists a b c,
    (if (0 <? q) && negb (k =? 0)
     then
       a <- at2 (R ++ [Row (c0 :: ps)]) q k ;;
       b <- at2 (R ++ [Row (c0 :: ps)]) (q - 1) (k + 1) ;;
       c <- at2 (R ++ [Row (c0 :: ps)]) (q - 1) k ;;
       Returned (a, b, c)
     else if (k =? 0) && (0 <? q)
     then
       b <- at2 (R ++ [Row (c0 :: ps)]) (q - 1) (k + 1) ;;
       Returned (Array [Int 0; Int 0; Int 0; Int 0], b,
                 Array [Int 0; Int 0; Int 0; Int 0])
     else if negb (k =? 0) && negb (0 <? q)
     then
       a <- at2 (R ++ [Row (c0 :: ps)]) q k ;;
       Returned (a, Array [Int 0; Int 0; Int 0; Int 0],
                 Array [Int 0; Int 0; Int 0; Int 0])
     else
       Returned (Array [Int 0; Int 0; Int 0; Int 0],
                 Array [Int 0; Int 0; Int 0; Int 0],
                 Array [Int 0; Int 0; Int 0; Int 0]))
    = Returned (a, b, c) /\ pixel4 a /\ pixel4 b /\ pixel4 c).
  { pose proof pixel4_zeros as Hz.
    destruct (0 <? q) eqn:Hq0; destruct (k =? 0) eqn:Hk0; cbn [andb negb];
      try apply Z.ltb_lt in Hq0; try apply Z.eqb_neq in Hk0;
      try apply Z.eqb_eq in Hk0.
    - destruct (at2_above w R (c0 :: ps) q (k + 1) Hrows HR) as (b & -> & Hb);
        try lia.
      cbn [bind]. eauto 10.
    - rewrite (at2_current R (c0 :: ps) q k (eq_sym HR)). cbn [bind].
      destruct (at2_above w R (c0 :: ps) q (k + 1) Hrows HR) as (b & -> & Hb);
        try lia.
      destruct (at2_above w R (c0 :: ps) q k Hrows HR) as (c & -> & Hc);
        try lia.
      cbn [bind]. do 3 eexists. split; [reflexivity|].
      repeat split; auto. apply cell_pixel4; auto. lia.
    - eauto 10.
    - rewrite (at2_current R (c0 :: ps) q k (eq_sym HR)). cbn [bind].
      do 3 eexists. split; [reflexivity|].
      repeat split; auto. apply cell_pixel4; auto. lia. }
  destruct Habc as (a & b & c & -> & Ha & Hb & Hc). cbn [bind].
  destruct (reduce_sum_pixel4 a Ha) as (sa & ->).
  destruct (reduce_sum_pixel4 b Hb) as (sb & ->).
  destruct (reduce_sum_pixel4 c Hc) as (sc & ->). cbn [bind].
  assert (Hret : exists ret,
    (if le (abs (sub (sub (add sa sb) sc) sa)) (abs (sub (sub (add sa sb) sc) sb))
        && le (abs (sub (sub (add sa sb) sc) sa))
              (abs (sub (sub (add sa sb) sc) sc))
     then Png.paeth_add a cur
     else if le (abs (sub (sub (add sa sb) sc) sb))
                (abs (sub (sub (add sa sb) sc) sc))
          then Png.paeth_add b cur
          else Png.paeth_add c cur) = Returned ret /\ length ret = 4%nat).
  { destruct (_ && _); [apply paeth_add_returned, Ha|].
    destruct (le _ _); apply paeth_add_returned; auto. }
  destruct Hret as (ret & -> & Hlret). cbn [bind].
  rewrite (push_pixel_last R (c0 :: ps) ret t Hr HlR).
  eexists _, ret. split; [reflexivity|]. unfold pushed. simpl_locals.
  repeat split; eauto using Forall_pixel4_snoc.
Qed.

End Switch.

Lemma slice4_length bs p :
  0 <= p -> p + 4 <= Z.of_nat (length bs) -> length (Png.slice4 bs p) = 4%nat.
Proof.
  intros Hp Hlen. unfold Png.slice4. rewrite length_map.
  pose proof (slice_length bs p (p + 4) Hp ltac:(lia)). lia.
Qed.

Lemma shaped_weaken (P Q : Prop) w q k f s :
  shaped Q w q k f s -> (P -> Q) -> shaped P w q k f s.
Proof.
  intros [R c0 ps Hr HR Hrows Hps Hlen Ht] HPQ.
  apply (shaped_intro P w q k f s R c0 ps); auto.
Qed.

Section Decode.
Variables (bs : list Z) (w limit : Z).
Hypothesis w_pos : 1 <= w.
Hypothesis limit_len : limit <= Z.of_nat (length bs).
Hypothesis types :
  forall q, 0 <= q -> q * (w * 4 + 1) < limit ->
            exists f, index bs (q * (w * 4 + 1)) = Some f
                      /\ 0 <= f <= 4 /\ (f = 3 -> 1 <= q).

(** The [switch] on a well-shaped state returns, and leaves a well-shaped
    state if the pixel read was whole. *)
Lemma switch_shaped q k f t cur R c0 ps :
  0 <= q -> 0 <= k <= w - 1 -> 0 <= f <= 4 -> (f = 3 -> 1 <= q) ->
  Png.lineNum t = q -> Png.pixelCount t = k ->
  Png.i t = q * (w * 4 + 1) + 1 + 4 * k ->
  Png.filterByte t = Number (Int f) ->
  Png.res t = R ++ [Row (c0 :: ps)] ->
  Z.of_nat (length R) = q ->
  Forall (row_ok w) R -> Forall pixel4 ps ->
  Z.of_nat (length ps) = (if (f =? 3) && (1 <=? k) then k + 1 else k) ->
  (exists l, Png.tempArr t = Array l) ->
  exists t', Png.switch (w * 4 + 1) t cur = Returned t'
             /\ shaped (length cur = 4%nat) w q (k + 1) f t'.
Proof.
  intros Hq Hk Hf H3 Hl Hp Hi Hfb Hr HR Hrows Hps Hlen Ht.
  unfold Png.switch. rewrite Hfb.
  assert (Hk1 : (1 <=? k + 1) = true) by (apply Z.leb_le; lia).
  assert (Hcases : f = 0 \/ f = 1 \/ f = 2 \/ f = 3 \/ f = 4) by lia.
  destruct Hcases as [-> | [-> | [-> | [-> | ->]]]];
    cbn [Z.eqb Pos.eqb andb] in *.
  - destruct (case_none_pushed q t cur R c0 ps)
      as (t' & -> & Hres & Hta & H4); auto.
    eexists. split; [reflexivity|].
    apply (shaped_intro _ w q (k + 1) 0 t' R c0 _ Hres); auto.
    rewrite length_app. cbn. lia.
  - destruct (case_sub_pushed w q k t cur R c0 ps)
      as (t' & px & -> & Hres & Hta & H4); auto.
    eexists. split; [reflexivity|].
    apply (shaped_intro _ w q (k + 1) 1 t' R c0 _ Hres); auto.
    rewrite length_app. cbn. lia.
  - destruct (case_up_pushed w q k t cur R c0 ps)
      as (t' & px & -> & Hres & Hta & H4); auto.
    eexists. split; [reflexivity|].
    apply (shaped_intro _ w q (k + 1) 2 t' R c0 _ Hres); auto.
    rewrite length_app. cbn. lia.
  - destruct (case_average_pushed w q k t cur R c0 ps)
      as (t' & ps' & -> & (Hres & Hta & H4) & Hlen'); auto.
    eexists. split; [reflexivity|].
    apply (shaped_intro _ w q (k + 1) 3 t' R c0 _ Hres); auto.
    cbn [Z.eqb Pos.eqb andb]. rewrite Hk1. lia.
  - destruct (case_paeth_pushed w q k t cur R c0 ps)
      as (t' & px & -> & (Hres & Hta & H4) & Hlpx); auto.
    eexists. split; [reflexivity|].
    apply (shaped_intro _ w q (k + 1) 4 t' R c0 _ Hres); auto.
    rewrite length_app. cbn. lia.
Qed.

(** From the state behind the [switch] to the next head of the loop. *)
Lemma decoding_next q k f t' :
  0 <= q -> 0 <= k <= w - 1 ->
  Png.i t' = q * (w * 4 + 1) + 1 + 4 * k ->
  Png.lineNum t' = q -> Png.pixelCount t' = k ->
  Png.filterByte t' = Number (Int f) ->
  index bs (q * (w * 4 + 1)) = Some f ->
  shaped (Png.i t' + 4 < Z.of_nat (length bs)) w q (k + 1) f t' ->
  decoding bs w
    (Png.set_i (Png.i (Png.set_pixelCount (Png.pixelCount t' + 1) t') + 4)
       (Png.set_pixelCount (Png.pixelCount t' + 1) t')).
Proof.
  intros Hq Hk Hi Hl Hp Hf Hb Hs. simpl_locals.
  destruct (index_Some_lt _ _ _ Hb) as (_ & Hbq).
  destruct Hs as [R c0 ps Hr HR Hrows Hps Hlen Ht].
  destruct (Z.eq_dec (k + 1) w) as [Hkw|Hkw].
  - apply (decoding_line bs w (q + 1)); simpl_locals.
    + lia.
    + rewrite Hi. nia.
    + lia.
    + rewrite Hr, length_app. cbn [length]. lia.
    + replace (q + 1 - 1) with q by lia. exact Hbq.
    + intros Hlt. rewrite Hr.
      apply Forall_app. split; [exact Hrows|].
      constructor; [|constructor]. exists c0, ps.
      split; [reflexivity|]. split; [auto|].
      destruct (_ && _); lia.
  - apply (decoding_pixel bs w q (k + 1) f); simpl_locals; auto; try lia.
    apply (shaped_intro _ w q (k + 1) f _ R c0 ps); auto.
Qed.

(** The iteration at the start of scanline [q]. *)
Lemma decoding_start q s :
  0 <= q -> q * (w * 4 + 1) < limit ->
  Png.i s = q * (w * 4 + 1) ->
  Png.lineNum s = q - 1 ->
  (Forall (row_ok w) (Png.res s) /\ Z.of_nat (length (Png.res s)) = q)
  \/ (q = 0 /\ Png.res s = [Row []]) ->
  exists s', Png.body bs (w * 4 + 1) s = Returned s'
             /\ decoding bs w (Png.set_i (Png.i s' + 4) s').
Proof.
  intros Hq Hlt Hi Hl Hr.
  destruct (types q Hq Hlt) as (f & Hb & Hf & H3).
  unfold Png.body, Png.enter_line.
  rewrite (at_line_start_line w q) by auto.
  unfold Png.byte_at. rewrite Hi, Hb.
  unfold Png.open_row. simpl_locals.
  replace (Png.lineNum s + 1) with q by lia.
  assert (Hopen :
    exists R,
      match row_at (Png.res s) q with
      | Some (_ :: _) => False
      | _ => True
      end
      /\ store (Png.res s) q (Row [Number (Int f)])
         = R ++ [Row [Number (Int f)]]
      /\ Z.of_nat (length R) = q /\ Forall (row_ok w) R).
  { destruct Hr as [[Hrows Hr] | [-> Hr]].
    - exists (Png.res s).
      rewrite row_at_end, store_end by (symmetry; exact Hr). auto.
    - exists []. rewrite Hr. cbn. auto. }
  destruct Hopen as (R & Hrow & Hstore & HR & Hrows).
  set (t := Png.set_tempArr (Array (Png.slice4 bs (q * (w * 4 + 1) + 1)))
              (Png.set_res (R ++ [Row [Number (Int f)]])
                 (Png.mkLocals (q * (w * 4 + 1) + 1) (Number (Int f))
                    (Png.res s) q
                    (Array (Png.slice4 bs (q * (w * 4 + 1)))) 0))).
  assert (Ht : match row_at (Png.res s) q with
               | Some (_ :: _) =>
                   Png.mkLocals (q * (w * 4 + 1) + 1) (Number (Int f))
                     (Png.res s) q
                     (Array (Png.slice4 bs (q * (w * 4 + 1)))) 0
               | _ =>
                   Png.set_tempArr
                     (Array (Png.slice4 bs (q * (w * 4 + 1) + 1)))
                     (Png.set_res
                        (store (Png.res s) q (Row [Number (Int f)]))
                        (Png.mkLocals (q * (w * 4 + 1) + 1) (Number (Int f))
                           (Png.res s) q
                           (Array (Png.slice4 bs (q * (w * 4 + 1)))) 0))
               end = t).
  { unfold t. rewrite Hstore.
    destruct (row_at (Png.res s) q) as [[|c cs]|]; tauto. }
  rewrite Ht. clear Ht.
  assert (Hex : exists t',
             Png.switch (w * 4 + 1) t (Png.slice4 bs (Png.i t)) = Returned t'
             /\ shaped (length (Png.slice4 bs (Png.i t)) = 4%nat)
                  w q (0 + 1) f t').
  { apply (switch_shaped q 0 f t _ R (Number (Int f)) []);
      unfold t; simpl_locals; eauto; try lia.
    change (1 <=? 0) with false. rewrite andb_false_r. reflexivity. }
  destruct Hex as (t' & Hsw & Hshape). rewrite Hsw. cbn [bind].
  eexists. split; [reflexivity|].
  pose proof (switch_ctl _ _ _ _ Hsw) as Hc. unfold ctl in Hc.
  injection Hc as Hi' Hl' Hf' Hp'. unfold t in Hi', Hl', Hf', Hp'.
  simpl_locals.
  apply (decoding_next q 0 f t'); simpl_locals; auto; try lia.
  apply (shaped_weaken _ _ _ _ _ _ _ Hshape).
  intros Hlen. unfold t. simpl_locals. apply slice4_length; lia.
Qed.

(** One iteration keeps the loop decoding, as long as the filter types
    are known. *)
Lemma decoding_step s :
  decoding bs w s -> Png.i s < limit ->
  exists s', Png.body bs (w * 4 + 1) s = Returned s'
             /\ decoding bs w (Png.set_i (Png.i s' + 4) s').
Proof.
  intros Hs Hlt.
  destruct Hs as [|q s Hq Hi Hl Hlr Hb Hr|q k f s Hq Hk Hi Hl Hp Hf Hb Hsh].
  - cbn in Hlt. apply (decoding_start 0); cbn; auto; lia.
  - apply (decoding_start q); auto; try lia. left. split; auto. apply Hr. lia.
  - destruct Hsh as [R c0 ps Hr HR Hrows Hps Hlen Ht].
    specialize (Hps ltac:(lia)).
    assert (Hrow : row_at (Png.res s) (Png.lineNum s) = Some (c0 :: ps))
      by (rewrite Hr; apply row_at_app_last; lia).
    unfold Png.body, Png.enter_line.
    rewrite (at_line_start_pixel w q k) by (auto; lia).
    rewrite (open_row_kept bs s _ _ Hrow).
    destruct (index_Some_lt _ _ _ Hb) as (_ & Hbq).
    assert (Hval : 0 <= f <= 4 /\ (f = 3 -> 1 <= q)).
    { destruct (types q Hq ltac:(nia)) as (f' & Hb' & Hf' & H3').
      rewrite Hb in Hb'. injection Hb' as <-. auto. }
    destruct Hval as (Hf04 & H3).
    destruct (switch_shaped q k f s (Png.slice4 bs (Png.i s)) R c0 ps)
      as (t' & Hsw & Hshape); auto; try lia.
    rewrite Hsw. cbn [bind]. eexists. split; [reflexivity|].
    pose proof (switch_ctl _ _ _ _ Hsw) as Hc. unfold ctl in Hc.
    injection Hc as Hi' Hl' Hf' Hp'.
    apply (decoding_next q k f t'); auto; try lia; try congruence.
    apply (shaped_weaken _ _ _ _ _ _ _ Hshape).
    intros Hlen4. apply slice4_length; lia.
Qed.

End Decode.

(** At the end of the stream there is one row for every scanline that has
    begun, and one empty row if the stream is empty. *)
Lemma decoding_done bs w s :
  1 <= w -> decoding bs w s -> Z.of_nat (length bs) <= Png.i s ->
  Z.of_nat (length (Png.res s))
  = Z.max 1 ((Z.of_nat (length bs) + (w * 4 + 1) - 1) / (w * 4 + 1)).
Proof.
  intros Hw Hs Hge.
  destruct Hs as [|q s Hq Hi Hl Hlr Hb Hr|q k f s Hq Hk Hi Hl Hp Hf Hb Hsh].
  - cbn in *. assert (Hl0 : Z.of_nat (length bs) = 0) by lia. rewrite Hl0.
    rewrite Z.div_small by lia. reflexivity.
  - rewrite Hlr. rewrite Hi in Hge.
    rewrite <- (Z.div_unique_pos _ (w * 4 + 1) q
                  (Z.of_nat (length bs) - (q - 1) * (w * 4 + 1) - 1)); lia.
  - destruct (index_Some_lt _ _ _ Hb) as (_ & Hbq).
    destruct Hsh as [R c0 ps Hr HR _ _ _ _].
    rewrite Hr, length_app. cbn [length]. rewrite Hi in Hge.
    rewrite <- (Z.div_unique_pos _ (w * 4 + 1) (q + 1)
                  (Z.of_nat (length bs) - q * (w * 4 + 1) - 1)); lia.
Qed.

(** With a header of width [w] at least 1, a stream of any length whose
    scanlines all begin with a filter type from 0 to 4, the first one not
    with 3, is turned into a grid, one row for every scanline that has
    begun. *)
Lemma reverseFiltering_known_types this bs w :
  Png.header_width this = Returned w -> 1 <= w ->
  (forall q, 0 <= q -> q * (w * 4 + 1) < Z.of_nat (length bs) ->
             exists f, index bs (q * (w * 4 + 1)) = Some f
                       /\ 0 <= f <= 4 /\ (f = 3 -> 1 <= q)) ->
  exists g,
    Png.reverseFiltering this bs = Returned g
    /\ Z.of_nat (length g)
       = Z.max 1 ((Z.of_nat (length bs) + (w * 4 + 1) - 1) / (w * 4 + 1)).
Proof.
  intros Hh Hw Hty. unfold Png.reverseFiltering. rewrite Hh. cbn [bind].
  destruct (loop_invariant bs (w * 4 + 1) (decoding bs w)
              (decoding_step bs w _ Hw (Z.le_refl _) Hty) (length bs)
              (Png.mkLocals 0 Undefined [Row []] (-1) Undefined 0))
    as (s' & Hloop & Hinv & Hge).
  - apply decoding_init.
  - cbn. lia.
  - rewrite Hloop. cbn [bind]. eexists. split; [reflexivity|].
    apply decoding_done; auto.
Qed.

(** The loop on a stream whose scanline [q0] is the first of an unknown
    filter type, the scanlines before it being of types 0 to 4 and the
    first one not of type 3: it gets to that scanline and throws
    "Unexpected filter byte.". *)
Lemma loop_unknown_after_known bs w q0 b :
  1 <= w -> 0 <= q0 ->
  index bs (q0 * (w * 4 + 1)) = Some b -> b < 0 \/ 4 < b ->
  (forall q, 0 <= q -> q * (w * 4 + 1) < q0 * (w * 4 + 1) ->
             exists f, index bs (q * (w * 4 + 1)) = Some f
                       /\ 0 <= f <= 4 /\ (f = 3 -> 1 <= q)) ->
  forall fuel s,
    decoding bs w s -> position w (Png.i s) ->
    Png.i s <= q0 * (w * 4 + 1) ->
    Z.of_nat (length bs) - Png.i s <= Z.of_nat fuel ->
    Png.loop fuel bs (w * 4 + 1) s = Threw UnexpectedFilterByte.
Proof.
  intros Hw Hq0 Hb Hbad Hty fuel.
  pose proof (index_Some_lt _ _ _ Hb) as Hlen.
  induction fuel as [|fuel IH]; intros s Hd Hp Hle Hf; [lia|].
  cbn [Png.loop].
  destruct (Png.i s <? _) eqn:Hlt; [|apply Z.ltb_ge in Hlt; lia].
  destruct (Z.eq_dec (Png.i s) (q0 * (w * 4 + 1))) as [Heq|Hne].
  - rewrite (body_unknown bs w q0 s b) by auto. reflexivity.
  - destruct (decoding_step bs w (q0 * (w * 4 + 1)) Hw ltac:(lia) Hty s Hd
                ltac:(lia)) as (s' & Hbody & Hd').
    rewrite Hbody. cbn [bind].
    apply body_ctl in Hbody. destruct Hbody as (Hi & _).
    destruct (position_next w bs s Hw Hp) as (Hp' & Hle').
    apply IH; simpl_locals; auto; rewrite Hi; auto.
    + apply Hle'; auto. lia.
    + rewrite enter_line_i. destruct (Png.at_line_start _ s); lia.
Qed.

(** With a header of width [w] at least 1: if scanline [q0] is the first
    whose filter type is outside 0..4, and the stream does not begin with
    the filter type 3, [reverseFiltering] throws "Unexpected filter
    byte.". *)
Lemma reverseFiltering_unknown_type this bs w q0 b :
  Png.header_width this = Returned w -> 1 <= w -> 0 <= q0 ->
  index bs (q0 * (w * 4 + 1)) = Some b -> b < 0 \/ 4 < b ->
  (forall q, 0 <= q < q0 ->
             exists f, index bs (q * (w * 4 + 1)) = Some f
                       /\ 0 <= f <= 4 /\ (f = 3 -> 1 <= q)) ->
  Png.reverseFiltering this bs = Threw UnexpectedFilterByte.
Proof.
  intros Hh Hw Hq0 Hb Hbad Hty. unfold Png.reverseFiltering. rewrite Hh.
  cbn [bind].
  rewrite (loop_unknown_after_known bs w q0 b); auto.
  - intros q Hq Hlt. apply Hty. nia.
  - apply decoding_init.
  - cbn. replace 0 with (0 * (w * 4 + 1)) by lia. apply at_line. lia.
  - cbn. nia.
  - cbn. lia.
Qed.

(** ** [subimage] *)

Section SubimageFacts.
Context {A : Type}.
Implicit Types (g : list (list A)) (ts : Png.tileSize_t).

Lemma times_fuel {S} (step : S -> result S) :
  (forall s, step s <> OutOfFuel) ->
  forall n s, Png.times n step s <> OutOfFuel.
Proof.
  intros Hs n; induction n as [|n IH]; intros s; simpl; [discriminate|].
  specialize (Hs s). destruct (step s); simpl; auto; congruence.
Qed.

Lemma tile_at_fuel g xo yo tw th : Png.tile_at g xo yo tw th <> OutOfFuel.
Proof.
  unfold Png.tile_at. destruct yo; [|discriminate].
  apply mapi_fuel. intros c v. destruct (index g c); discriminate.
Qed.

Lemma tiling_loops_fuel g tw th sep xm ym nr nc :
  Png.tiling_loops g tw th sep xm ym nr nc <> OutOfFuel.
Proof.
  unfold Png.tiling_loops. apply times_fuel. intros s.
  apply bind_fuel; [|discriminate].
  apply times_fuel. intros s'.
  apply bind_fuel; [apply tile_at_fuel | discriminate].
Qed.

(** The loops of [subimage] are bounded by their counters: the budget of
    the model is never at stake. *)
Lemma subimage_tileset_fuel g ts m sep o :
  Png.subimage_tileset g ts m sep o <> OutOfFuel.
Proof.
  unfold Png.subimage_tileset.
  destruct (_ || _); [discriminate|].
  destruct (Png.margins_x _); [|discriminate].
  destruct (Png.margins_y _); [|discriminate].
  destruct (_ <? 0); [discriminate|].
  destruct (negb _); [discriminate|].
  apply bind_fuel.
  - destruct (0 <? _); [|discriminate]. destruct (index g 0); discriminate.
  - intros nc. apply bind_fuel; [|discriminate].
    pose proof (tiling_loops_fuel g (Png.x ts) (Png.y ts)) as Hl.
    unfold Png.rethrow.
    match goal with |- match ?t with _ => _ end <> _ =>
      assert (Ht : t <> OutOfFuel) by apply Hl; destruct t; congruence
    end.
Qed.

(** Whatever the arguments, a call of [subimage] throws or evaluates to
    [undefined]: the tile list it builds never reaches the caller. *)
Lemma subimage_undefined_or_throws g ts m sep o :
  Png.subimage g ts m sep o = Returned None \/
  exists e, Png.subimage g ts m sep o = Threw e.
Proof.
  unfold Png.subimage.
  pose proof (subimage_tileset_fuel g ts m sep o) as Hf.
  destruct (Png.subimage_tileset g ts m sep o); cbn; eauto; congruence.
Qed.

(** The colour in [options] is checked for its length and then never read:
    two colours of the same length give the same tiles. *)
Lemma subimage_tileset_colour g ts m sep c1 c2 :
  length c1 = length c2 ->
  Png.subimage_tileset g ts m sep (Some (Png.mkOptions c1)) =
  Png.subimage_tileset g ts m sep (Some (Png.mkOptions c2)).
Proof.
  intros Hl. unfold Png.subimage_tileset. cbn [Png.ignoredColour].
  rewrite Hl. reflexivity.
Qed.

End SubimageFacts.

Section Tiling.
Context {A : Type}.
Variables (g : list (list A)) (tw th sep xm ym : Z).
Hypothesis th_pos : 0 < th.
Hypothesis sep_nonneg : 0 <= sep.
Hypothesis ym_nonneg : 0 <= ym.

(** A tile whose rows all lie inside the grid is cut out without an
    error. *)
Lemma tile_at_returned xo y0 :
  0 <= y0 -> y0 + th <= Z.of_nat (length g) ->
  exists tile, Png.tile_at g xo (Int y0) tw th = Returned tile.
Proof.
  intros Hy0 Hy1. unfold Png.tile_at. apply mapi_returned_range.
  intros j _ Hj. rewrite repeat_length in Hj.
  unfold index. destruct (j <? 0) eqn:Hlt; [apply Z.ltb_lt in Hlt; lia|].
  destruct (nth_error g (Z.to_nat j)) eqn:Hn; [eauto|].
  apply nth_error_None in Hn. lia.
Qed.

(** A row of [nc] tiles at height [y0]: the inner loop adds [nc] tiles
    and leaves [yOffset] alone. *)
Lemma times_cols y0 nc :
  0 <= y0 -> y0 + th <= Z.of_nat (length g) ->
  forall t,
    Png.yOffset t = Int y0 ->
    exists t',
      Png.times nc
        (fun t =>
           tile <- Png.tile_at g (Png.xOffset t) (Png.yOffset t) tw th ;;
           Returned (Png.mkTiling A (add (Png.xOffset t) (Int (tw + sep)))
                       (Png.yOffset t) (Png.tileset t ++ [tile]))) t
      = Returned t'
      /\ Png.yOffset t' = Int y0
      /\ length (Png.tileset t') = (length (Png.tileset t) + nc)%nat.
Proof.
  intros Hy0 Hy1. induction nc as [|nc IH]; intros t Hy; cbn [Png.times].
  - exists t. auto.
  - rewrite Hy.
    destruct (tile_at_returned (Png.xOffset t) y0 Hy0 Hy1) as (tile & ->).
    cbn [bind].
    destruct (IH (Png.mkTiling A (add (Png.xOffset t) (Int (tw + sep)))
                    (Int y0) (Png.tileset t ++ [tile])) eq_refl)
      as (t' & -> & Hy' & Hl).
    exists t'. split; [reflexivity|]. split; [exact Hy'|].
    rewrite Hl. cbn [Png.tileset]. rewrite length_app. cbn [length]. lia.
Qed.

(** [nr] rows of [nc] tiles, as long as the rows of tiles fit into the
    grid: the two loops add [nr * nc] tiles. *)
Lemma times_rows nc nr :
  forall r t,
    Png.yOffset t = Int (ym + Z.of_nat r * (th + sep)) ->
    ym + Z.of_nat (r + nr) * (th + sep) - sep <= Z.of_nat (length g)
    \/ nr = 0%nat ->
    exists t',
      Png.times nr
        (fun t =>
           t <- Png.times nc
                  (fun t =>
                     tile <- Png.tile_at g (Png.xOffset t) (Png.yOffset t)
                               tw th ;;
                     Returned (Png.mkTiling A
                                 (add (Png.xOffset t) (Int (tw + sep)))
                                 (Png.yOffset t) (Png.tileset t ++ [tile])))
                  t ;;
           Returned (Png.mkTiling A (to_num (option_map Int (Some xm)))
                       (add (Png.yOffset t) (Int (th + sep)))
                       (Png.tileset t))) t
      = Returned t'
      /\ length (Png.tileset t') = (length (Png.tileset t) + nr * nc)%nat.
Proof.
  induction nr as [|nr IH]; intros r t Hy Hfit; cbn [Png.times].
  - exists t. split; [reflexivity|]. lia.
  - destruct Hfit as [Hfit|Hfit]; [|discriminate].
    destruct (times_cols (ym + Z.of_nat r * (th + sep)) nc
                ltac:(nia) ltac:(nia) t Hy) as (t1 & -> & Hy1 & Hl1).
    cbn [bind]. rewrite Hy1. cbn [add].
    destruct (IH (S r)
                (Png.mkTiling A (to_num (option_map Int (Some xm)))
                   (Int (ym + Z.of_nat r * (th + sep) + (th + sep)))
                   (Png.tileset t1)))
      as (t' & -> & Hl').
    + cbn [Png.yOffset]. f_equal. lia.
    + left. replace (S r + nr)%nat with (r + S nr)%nat by lia. exact Hfit.
    + exists t'. split; [reflexivity|]. rewrite Hl'. cbn [Png.tileset].
      rewrite Hl1. lia.
Qed.

End Tiling.

(** With the margins under both pairs of names and not negative, the
    local [tileset] of [subimage] ends up with [numRows * numCols] tiles,
    the counts being the floors of the specification. *)
Lemma subimage_tileset_length {A} (g : list (list A)) r0 ts xm ym sep o :
  index g 0 = Some r0 ->
  0 < Png.x ts -> 0 < Png.y ts -> 0 <= xm -> 0 <= ym -> 0 <= sep ->
  length (Png.ignoredColour o) = 4%nat ->
  exists tiles,
    Png.subimage_tileset g ts (Some (Png.mkMargins (Some xm) (Some ym)
                                       (Some xm) (Some ym)))
      (Some sep) (Some o) = Returned tiles
    /\ Z.of_nat (length tiles)
       = Z.max 0 ((Z.of_nat (length g) - ym) / (Png.y ts + sep))
         * Z.max 0 ((Z.of_nat (length r0) - xm) / (Png.x ts + sep)).
Proof.
  intros Hr0 Hx Hy Hxm Hym Hsep Hcol. unfold Png.subimage_tileset.
  cbn [Png.margins_x Png.margins_y Png.xMargin Png.yMargin].
  replace (Png.x ts <=? 0) with false by (symmetry; apply Z.leb_gt; lia).
  replace (Png.y ts <=? 0) with false by (symmetry; apply Z.leb_gt; lia).
  replace (sep <? 0) with false by (symmetry; apply Z.ltb_ge; lia).
  rewrite Hcol. cbn [orb Z.of_nat Z.eqb Pos.eqb negb].
  change (Z.of_nat 4 =? 4) with true. cbn [negb].
  replace (0 <? Png.y ts + sep) with true by (symmetry; apply Z.ltb_lt; lia).
  replace (0 <? Png.x ts + sep) with true by (symmetry; apply Z.ltb_lt; lia).
  rewrite Hr0. cbn [bind Png.floor_div]. unfold Png.tiling_loops.
  cbn [Png.count].
  set (nr := (Z.of_nat (length g) - ym) / (Png.y ts + sep)).
  set (nc := (Z.of_nat (length r0) - xm) / (Png.x ts + sep)).
  destruct (times_rows g (Png.x ts) (Png.y ts) sep xm ym Hy Hsep Hym
              (Z.to_nat nc) (Z.to_nat nr) 0
              (Png.mkTiling A (to_num (option_map Int (Some xm)))
                 (to_num (option_map Int (Some ym))) []))
    as (t' & Ht' & Hl).
  - cbn. f_equal. lia.
  - destruct (Z_le_gt_dec nr 0) as [Hle|Hgt]; [right; lia|left].
    assert (Hm : (Png.y ts + sep) * nr <= Z.of_nat (length g) - ym)
      by (apply Z.mul_div_le; lia).
    rewrite Nat.add_0_l, Z2Nat.id by lia. nia.
  - rewrite Ht'. cbn [Png.rethrow bind]. eexists. split; [reflexivity|].
    rewrite Hl. cbn [Png.tileset length]. lia.
Qed.

(** ** [parseChunks] *)

Lemma getUint32_app pre b post pos :
  length b = 4%nat -> pos = Z.of_nat (length pre) ->
  Png.getUint32 (pre ++ b ++ post) pos = Returned (uint32_of b).
Proof.
  intros Hb ->. unfold Png.getUint32.
  rewrite (slice_app pre b post) by (auto; lia).
  rewrite !length_app, Hb.
  destruct (_ || _) eqn:Hc.
  - apply orb_true_iff in Hc. destruct Hc as [Hc|Hc];
      apply Z.ltb_lt in Hc; lia.
  - destruct b as [|b0 [|b1 [|b2 [|b3 [|]]]]]; try discriminate. reflexivity.
Qed.

Lemma uint32_be_length n : length (uint32_be n) = 4%nat.
Proof. reflexivity. Qed.

Lemma uint32_of_be n : 0 <= n < 2 ^ 32 -> uint32_of (uint32_be n) = n.
Proof.
  intros Hn. unfold uint32_of, uint32_be.
  change (2 ^ 24) with 16777216. change (2 ^ 16) with 65536.
  change (2 ^ 8) with 256. change (2 ^ 32) with 4294967296 in Hn.
  Z.div_mod_to_equations. lia.
Qed.

(** One turn of the [while] loop on a chunk that lies whole in the
    buffer: the chunk is read at its place, with its payload and CRC, and
    the loop goes on behind its CRC. *)
Lemma parse_loop_chunk fuel pre ty payload crc post acc :
  length (fourcc_bytes ty) = 4%nat -> length crc = 4%nat ->
  Z.of_nat (length payload) < 2 ^ 32 ->
  Png.decode (fourcc_bytes ty) = ty ->
  let buf := pre ++ chunk_bytes ty payload crc ++ post in
  let pos := Z.of_nat (length pre) in
  Png.parse_loop (S fuel) buf pos acc =
  (c <- (if String.eqb ty "IHDR" then
           w <- Png.getUint32 buf 16 ;;
           h <- Png.getUint32 buf 20 ;;
           Returned (Png.mkChunk ty (Z.of_nat (length payload)) payload
                       (pos + 8) (uint32_of crc)
                       (Some (Png.mkChunkInfo w h)))
         else
           Returned (Png.mkChunk ty (Z.of_nat (length payload)) payload
                       (pos + 8) (uint32_of crc) None)) ;;
   Png.parse_loop fuel buf (pos + 8 + Z.of_nat (length payload) + 4)
     (acc ++ [c])).
Proof.
  intros Hty Hcrc Hn Hdec buf pos. cbn [Png.parse_loop].
  assert (Hlen : Z.of_nat (length buf)
                 = pos + 12 + Z.of_nat (length payload)
                   + Z.of_nat (length post)).
  { unfold buf, chunk_bytes, pos. rewrite !length_app, Hty, Hcrc.
    rewrite uint32_be_length. lia. }
  destruct (pos <? Z.of_nat (length buf)) eqn:Hlt;
    [|apply Z.ltb_ge in Hlt; lia].
  assert (Hsize : Png.getUint32 buf pos
                  = Returned (Z.of_nat (length payload))).
  { unfold buf, chunk_bytes. rewrite <- !app_assoc.
    rewrite getUint32_app by auto using uint32_be_length.
    rewrite uint32_of_be by lia. reflexivity. }
  rewrite Hsize. cbn [bind].
  assert (Hfour : slice buf (pos + 4) (pos + 8) = fourcc_bytes ty).
  { unfold buf, chunk_bytes. rewrite <- !app_assoc.
    rewrite (app_assoc pre).
    apply slice_app; rewrite ?length_app, ?uint32_be_length, ?Hty;
      unfold pos; lia. }
  rewrite Hfour, Hdec.
  assert (Hdata : slice buf (pos + 8) (pos + 8 + Z.of_nat (length payload))
                  = payload).
  { unfold buf, chunk_bytes. rewrite <- !app_assoc.
    rewrite (app_assoc (uint32_be _)), (app_assoc pre).
    apply slice_app; rewrite ?length_app, ?uint32_be_length, ?Hty;
      unfold pos; lia. }
  rewrite Hdata.
  assert (Hc : Png.getUint32 buf (pos + 8 + Z.of_nat (length payload))
               = Returned (uint32_of crc)).
  { unfold buf, chunk_bytes. rewrite <- !app_assoc.
    rewrite (app_assoc (fourcc_bytes _)), (app_assoc (uint32_be _)),
      (app_assoc pre).
    apply getUint32_app; auto.
    rewrite !length_app, uint32_be_length, Hty. unfold pos. lia. }
  rewrite Hc. cbn [bind]. reflexivity.
Qed.

Lemma getUint32_inside pre l post pos k :
  pos = Z.of_nat (length pre) + Z.of_nat k -> (k + 4 <= length l)%nat ->
  Png.getUint32 (pre ++ l ++ post) pos
  = Returned (uint32_of (firstn 4 (skipn k l))).
Proof.
  intros -> Hk.
  rewrite <- (firstn_skipn k l) at 1.
  rewrite <- (firstn_skipn 4 (skipn k l)) at 1.
  rewrite <- !app_assoc, (app_assoc pre).
  apply getUint32_app.
  - rewrite length_firstn, length_skipn. lia.
  - rewrite length_app, length_firstn. lia.
Qed.

(** The bytes of a buffer are not negative, so a chunk never ends before
    it begins, and the budget of the loop is never used up. *)
Lemma getUint32_nonneg bs pos n :
  Forall (fun b => 0 <= b) bs -> Png.getUint32 bs pos = Returned n -> 0 <= n.
Proof.
  intros Hbs. unfold Png.getUint32. destruct (_ || _); [discriminate|].
  assert (Hs : Forall (fun b => 0 <= b) (slice bs pos (pos + 4)))
    by (apply Forall_slice, Hbs).
  destruct (slice bs pos (pos + 4)) as [|b0 [|b1 [|b2 [|b3 [|]]]]];
    try discriminate.
  intros H. injection H as <-.
  repeat match goal with
         | H : Forall _ (_ :: _) |- _ => inversion H; clear H; subst
         end.
  lia.
Qed.

Lemma parse_loop_fuel bs :
  Forall (fun b => 0 <= b) bs ->
  forall fuel pos acc,
    Z.of_nat (length bs) - pos <= Z.of_nat fuel ->
    Png.parse_loop fuel bs pos acc <> OutOfFuel.
Proof.
  intros Hbs fuel.
  induction fuel as [|fuel IH]; intros pos acc Hf; cbn [Png.parse_loop];
    destruct (pos <? _) eqn:Hlt; try discriminate;
    apply Z.ltb_lt in Hlt; [lia|].
  destruct (Png.getUint32 bs pos) as [n| |] eqn:Hn; cbn [bind];
    try discriminate.
  - apply getUint32_nonneg in Hn; auto.
    destruct (Png.getUint32 bs (pos + 8 + n)) as [c| |] eqn:Hc; cbn [bind];
      try discriminate.
    + destruct (String.eqb _ _).
      * destruct (Png.getUint32 bs 16) as [w| |] eqn:Hw; cbn [bind];
          try discriminate.
        -- destruct (Png.getUint32 bs 20) as [h| |] eqn:Hh; cbn [bind];
             try discriminate.
           ++ apply IH. lia.
           ++ unfold Png.getUint32 in Hh.
              repeat match type of Hh with
                     | context [if ?b then _ else _] => destruct b
                     | context [match ?l with _ => _ end] => destruct l
                     end; discriminate.
        -- unfold Png.getUint32 in Hw.
           repeat match type of Hw with
                  | context [if ?b then _ else _] => destruct b
                  | context [match ?l with _ => _ end] => destruct l
                  end; discriminate.
      * cbn [bind]. apply IH. lia.
    + unfold Png.getUint32 in Hc.
      repeat match type of Hc with
             | context [if ?b then _ else _] => destruct b
             | context [match ?l with _ => _ end] => destruct l
             end; discriminate.
  - unfold Png.getUint32 in Hn.
    repeat match type of Hn with
           | context [if ?b then _ else _] => destruct b
           | context [match ?l with _ => _ end] => destruct l
           end; discriminate.
Qed.

(** [parseChunks] never runs out of the budget of its model. *)
Lemma parseChunks_fuel bs :
  Forall (fun b => 0 <= b < 256) bs -> Png.parseChunks bs <> OutOfFuel.
Proof.
  intros Hbs. unfold Png.parseChunks. apply bind_fuel; [|discriminate].
  apply parse_loop_fuel; [|lia].
  eapply Forall_impl; [|exact Hbs]. cbn. lia.
Qed.

Lemma chunk_bytes_length ty payload crc :
  length (fourcc_bytes ty) = 4%nat -> length crc = 4%nat ->
  length (chunk_bytes ty payload crc) = (12 + length payload)%nat.
Proof.
  intros Hty Hcrc. unfold chunk_bytes.
  rewrite !length_app, uint32_be_length, Hty, Hcrc. lia.
Qed.

(** ** Bytes *)

Lemma bytes_check l :
  forallb (fun b => (0 <=? b) && (b <? 256)) l = true ->
  Forall (fun b => 0 <= b < 256) l.
Proof.
  intros H. apply Forall_forall. intros b Hb.
  rewrite forallb_forall in H. specialize (H b Hb).
  apply andb_true_iff in H. destruct H as [H0 H1].
  apply Z.leb_le in H0. apply Z.ltb_lt in H1. lia.
Qed.

Ltac bytes_ok := apply bytes_check; vm_compute; reflexivity.

(** ** [#concatIDATChunks] and the joining of stream chunks *)

Lemma concat_fold (cs : list Png.chunk) (acc : list Z) :
  fold_left
    (fun idatData chunk =>
       if String.eqb (Png.fourCC chunk) "IDAT"
       then idatData ++ Png.data chunk else idatData) cs acc
  = acc ++ concat (map Png.data (filter is_idat cs)).
Proof.
  revert acc; induction cs as [|c cs IH]; intros acc; simpl.
  - now rewrite app_nil_r.
  - rewrite IH. unfold is_idat at 2.
    destruct (String.eqb (Png.fourCC c) "IDAT"); simpl.
    + now rewrite app_assoc.
    + reflexivity.
Qed.

Lemma map_toUint8_bytes (l : list Z) :
  Forall (fun b => 0 <= b < 256) l -> map Png.toUint8 l = l.
Proof.
  induction 1 as [|b l Hb _ IH]; simpl; [reflexivity|].
  rewrite IH. unfold Png.toUint8. now rewrite Z.mod_small.
Qed.

Lemma total_fold (cs : list (list Z)) (n : Z) :
  fold_left (fun acc val => acc + Z.of_nat (length val)) cs n
  = n + Z.of_nat (length (concat cs)).
Proof.
  revert n; induction cs as [|c cs IH]; intros n; simpl; [lia|].
  rewrite IH, length_app. lia.
Qed.

Lemma typed_set_fits (done chunk rest : list Z) :
  Png.typed_set (done ++ repeat 0 (length chunk + length rest)) chunk
    (Z.of_nat (length done))
  = Returned ((done ++ chunk) ++ repeat 0 (length rest)).
Proof.
  unfold Png.typed_set.
  rewrite length_app, repeat_length.
  replace (Z.of_nat (length done) <? 0) with false by (symmetry; apply Z.ltb_ge; lia).
  replace (Z.of_nat (length done + (length chunk + length rest))
           <? Z.of_nat (length done) + Z.of_nat (length chunk)) with false
    by (symmetry; apply Z.ltb_ge; lia).
  simpl. rewrite Nat2Z.id.
  rewrite firstn_app, Nat.sub_diag, firstn_all. simpl. rewrite app_nil_r.
  rewrite skipn_app, skipn_all2 by lia. simpl.
  replace (length done + length chunk - length done)%nat with (length chunk) by lia.
  rewrite <- (repeat_length 0 (length chunk)) at 1.
  rewrite repeat_app, skipn_app, skipn_all, Nat.sub_diag. simpl.
  now rewrite app_assoc.
Qed.

Lemma join_fold (cs : list (list Z)) (done : list Z) :
  fold_left
    (fun st chunk =>
       st <- st ;;
       let '(dataBuffer, offset) := st in
       b <- Png.typed_set dataBuffer chunk offset ;;
       Returned (b, offset + Z.of_nat (length chunk)))
    cs (Returned (done ++ repeat 0 (length (concat cs)), Z.of_nat (length done)))
  = Returned (done ++ concat cs, Z.of_nat (length (done ++ concat cs))).
Proof.
  revert done; induction cs as [|c cs IH]; intros done; simpl.
  - now rewrite !app_nil_r.
  - rewrite length_app, typed_set_fits. simpl.
    replace (Z.of_nat (length done) + Z.of_nat (length c))
      with (Z.of_nat (length (done ++ c))) by (rewrite length_app; lia).
    rewrite IH. now rewrite <- app_assoc.
Qed.

Lemma join_chunks_concat (cs : list (list Z)) :
  Png.join_chunks cs = Returned (concat cs).
Proof.
  unfold Png.join_chunks. rewrite total_fold. simpl.
  rewrite Nat2Z.id.
  change (Returned (repeat 0 (length (concat cs)), 0))
    with (Returned ([] ++ repeat 0 (length (concat cs)), Z.of_nat (length (@nil Z)))).
  rewrite join_fold. reflexivity.
Qed.

(** ** [parseChunks]: where the chunks lie *)

Lemma chained_snoc bs p0 acc p1 c :
  chained bs p0 acc p1 -> read_at bs p1 c ->
  chained bs p0 (acc ++ [c]) (Png.offset c + Png.size c + 4).
Proof.
  induction 1 as [pos|pos c0 cs e Hc0 _ IH]; intros Hc; simpl.
  - apply chained_cons; [exact Hc|apply chained_nil].
  - apply chained_cons; auto.
Qed.

Lemma getUint32_returned bs pos n :
  Png.getUint32 bs pos = Returned n ->
  0 <= pos /\ pos + 4 <= Z.of_nat (length bs).
Proof.
  unfold Png.getUint32. destruct (_ || _) eqn:Hc; [discriminate|].
  apply orb_false_iff in Hc. destruct Hc as [Ha Hb].
  apply Z.ltb_ge in Ha, Hb. intros _. lia.
Qed.

Lemma parse_loop_chained bs :
  Forall (fun b => 0 <= b) bs ->
  forall fuel pos acc r,
    chained bs 8 acc pos ->
    Png.parse_loop fuel bs pos acc = Returned r ->
    chained bs 8 r (Z.max pos (Z.of_nat (length bs))).
Proof.
  intros Hbs fuel.
  induction fuel as [|fuel IH]; intros pos acc r Hacc; cbn [Png.parse_loop];
    destruct (pos <? _) eqn:Hlt; try discriminate;
    try (apply Z.ltb_ge in Hlt; intros H; injection H as <-;
         rewrite Z.max_l by lia; exact Hacc).
  apply Z.ltb_lt in Hlt. intros H.
  inv_bind H. rename v into size, Hv into Hsize.
  inv_bind H. rename v into crc, Hv into Hcrc.
  inv_bind H. rename v into c, Hv into Hc.
  assert (Hsz : 0 <= size) by (eapply getUint32_nonneg; eauto).
  destruct (getUint32_returned _ _ _ Hcrc) as [_ Hend].
  assert (Hr : read_at bs pos c).
  { destruct (String.eqb _ "IHDR") eqn:Hty.
    - inv_bind Hc. inv_bind Hc. injection Hc as <-.
      apply String.eqb_eq in Hty.
      unfold read_at; cbn. repeat split; auto; lia.
    - injection Hc as <-. apply String.eqb_neq in Hty.
      unfold read_at; cbn. repeat split; auto; lia. }
  apply IH in H.
  - rewrite Z.max_r in H by lia. rewrite Z.max_r by lia. exact H.
  - replace (pos + 8 + size + 4) with (Png.offset c + Png.size c + 4).
    + eapply chained_snoc; eauto.
    + destruct Hr as (-> & Hs' & _). rewrite Hsize in Hs'.
      injection Hs' as <-. reflexivity.
Qed.

Lemma parseChunks_chained bs p :
  Forall (fun b => 0 <= b < 256) bs ->
  Png.parseChunks bs = Returned p ->
  chained bs 8 (Png.chunks p) (Z.max 8 (Z.of_nat (length bs))).
Proof.
  intros Hbs H. unfold Png.parseChunks in H. inv_bind H. injection H as <-.
  cbn. eapply parse_loop_chained; [|apply chained_nil|exact Hv].
  eapply Forall_impl; [|exact Hbs]. cbn; lia.
Qed.

Lemma getUint32_outcome bs pos :
  Png.getUint32 bs pos = Threw RangeError
  \/ exists n, Png.getUint32 bs pos = Returned n.
Proof.
  unfold Png.getUint32. destruct (_ || _); auto.
  destruct (slice bs pos (pos + 4)) as [|b0 [|b1 [|b2 [|b3 [|]]]]]; eauto.
Qed.

Lemma getUint32_outside bs pos :
  Z.of_nat (length bs) < pos + 4 -> Png.getUint32 bs pos = Threw RangeError.
Proof.
  intros H. unfold Png.getUint32.
  replace (Z.of_nat (length bs) <? pos + 4) with true
    by (symmetry; apply Z.ltb_lt; lia).
  now rewrite orb_true_r.
Qed.

Lemma slice_behind {X} (s1 s2 rest : list X) a b :
  length s1 = length s2 -> Z.of_nat (length s1) <= a -> a <= b ->
  slice (s1 ++ rest) a b = slice (s2 ++ rest) a b.
Proof.
  intros Hs Ha Hb. unfold slice. rewrite !length_app, <- Hs.
  destruct (a <? 0) eqn:Ha'; [apply Z.ltb_lt in Ha'; lia|].
  destruct (b <? 0) eqn:Hb'; [apply Z.ltb_lt in Hb'; lia|].
  f_equal. rewrite !skipn_app, <- Hs.
  rewrite (skipn_all2 s1) by lia. rewrite (skipn_all2 s2) by lia.
  reflexivity.
Qed.

Lemma getUint32_behind (s1 s2 rest : list Z) pos :
  length s1 = length s2 -> Z.of_nat (length s1) <= pos ->
  Png.getUint32 (s1 ++ rest) pos = Png.getUint32 (s2 ++ rest) pos.
Proof.
  intros Hs Hp. unfold Png.getUint32.
  rewrite (slice_behind s1 s2) by lia.
  rewrite !length_app, Hs. reflexivity.
Qed.

Lemma parse_loop_behind (s1 s2 rest : list Z) :
  length s1 = 8%nat -> length s2 = 8%nat ->
  Forall (fun b => 0 <= b) (s1 ++ rest) ->
  forall fuel pos acc,
    8 <= pos ->
    Png.parse_loop fuel (s1 ++ rest) pos acc
    = Png.parse_loop fuel (s2 ++ rest) pos acc.
Proof.
  intros H1 H2 Hbs fuel.
  induction fuel as [|fuel IH]; intros pos acc Hp; cbn [Png.parse_loop];
    rewrite !length_app, H1, H2; [reflexivity|].
  destruct (pos <? _); [|reflexivity].
  rewrite <- (getUint32_behind s1 s2) by lia.
  destruct (Png.getUint32 (s1 ++ rest) pos) as [size| |] eqn:Hsize;
    cbn [bind]; try reflexivity.
  assert (0 <= size) by (eapply getUint32_nonneg; eauto).
  rewrite <- (getUint32_behind s1 s2) by lia.
  destruct (Png.getUint32 (s1 ++ rest) (pos + 8 + size)) as [crc| |];
    cbn [bind]; try reflexivity.
  rewrite <- (getUint32_behind s1 s2 rest 16) by lia.
  rewrite <- (getUint32_behind s1 s2 rest 20) by lia.
  rewrite <- (slice_behind s1 s2 rest (pos + 4)) by lia.
  rewrite <- (slice_behind s1 s2 rest (pos + 8)) by lia.
  match goal with
  | |- bind ?m _ = _ => destruct m as [c| |]; cbn [bind]; try reflexivity
  end.
  apply IH. lia.
Qed.

(** ** [parseChunks]: files made of chunks *)

Lemma decode_fourcc_bytes s : Png.decode (fourcc_bytes s) = s.
Proof.
  unfold Png.decode, fourcc_bytes. rewrite map_map.
  rewrite <- (string_of_list_ascii_of_string s) at 2. f_equal.
  induction (list_ascii_of_string s) as [|a l IH]; simpl; [reflexivity|].
  rewrite IH, Nat2Z.id, ascii_nat_embedding. reflexivity.
Qed.

Lemma fourcc_bytes_length s : length (fourcc_bytes s) = String.length s.
Proof.
  unfold fourcc_bytes. rewrite length_map.
  induction s as [|a s IH]; simpl; auto.
Qed.

Lemma getUint32_value bs pos :
  0 <= pos -> pos + 4 <= Z.of_nat (length bs) ->
  Png.getUint32 bs pos = Returned (uint32_of (slice bs pos (pos + 4))).
Proof.
  intros Hp Hl. unfold Png.getUint32.
  replace (pos <? 0) with false by (symmetry; apply Z.ltb_ge; lia).
  replace (_ <? pos + 4) with false by (symmetry; apply Z.ltb_ge; lia).
  cbn [orb].
  assert (Hs := slice_length bs pos (pos + 4) Hp ltac:(lia)).
  rewrite !Z.min_l in Hs by lia.
  destruct (slice bs pos (pos + 4)) as [|b0 [|b1 [|b2 [|b3 [|]]]]];
    cbn in Hs; try lia. reflexivity.
Qed.

Lemma piece_bytes_length c :
  well_formed c ->
  length (piece_bytes c) = (12 + length (piece_payload c))%nat.
Proof.
  intros (Hty & Hcrc & _). apply chunk_bytes_length; auto.
  now rewrite fourcc_bytes_length.
Qed.

Lemma parse_loop_layout buf :
  forall cs pre acc fuel,
    buf = pre ++ concat (map piece_bytes cs) ->
    (length cs <= fuel)%nat ->
    Forall well_formed cs ->
    Forall (fun c => piece_type c = "IHDR"%string
                     -> 24 <= Z.of_nat (length buf)) cs ->
    Png.parse_loop fuel buf (Z.of_nat (length pre)) acc
    = Returned (acc ++ layout (header_info buf) (Z.of_nat (length pre)) cs).
Proof.
  induction cs as [|c cs IH]; intros pre acc fuel Hbuf Hfuel Hwf Hinfo.
  - cbn in Hbuf. rewrite app_nil_r in Hbuf. subst pre.
    cbn [layout]. rewrite app_nil_r.
    destruct fuel; cbn [Png.parse_loop]; rewrite Z.ltb_irrefl; reflexivity.
  - destruct fuel as [|fuel]; [cbn in Hfuel; lia|].
    inversion Hwf as [|? ? Hc Hwf']; subst.
    inversion Hinfo as [|? ? Hi Hinfo']; subst.
    cbn [map concat] in *.
    assert (Hlen := piece_bytes_length c Hc).
    destruct Hc as (Hty & Hcrc & Hn & _).
    pose proof (parse_loop_chunk fuel pre (piece_type c) (piece_payload c)
                  (piece_crc c) (concat (map piece_bytes cs)) acc) as E.
    rewrite fourcc_bytes_length in E.
    specialize (E Hty Hcrc Hn (decode_fourcc_bytes _)). cbv zeta in E.
    fold (piece_bytes c) in E.
    set (buf := pre ++ piece_bytes c ++ concat (map piece_bytes cs)) in *.
    rewrite E. clear E.
    assert (Hnext : Z.of_nat (length pre) + 8
                    + Z.of_nat (length (piece_payload c)) + 4
                    = Z.of_nat (length (pre ++ piece_bytes c)))
      by (rewrite length_app, Hlen; lia).
    rewrite Hnext.
    destruct (String.eqb (piece_type c) "IHDR") eqn:Heq.
    + apply String.eqb_eq in Heq. specialize (Hi Heq).
      rewrite (getUint32_value buf 16), (getUint32_value buf 20) by lia.
      cbn [bind].
      rewrite (IH (pre ++ piece_bytes c)); auto.
      * rewrite <- app_assoc. cbn [layout app]. rewrite Heq.
        rewrite <- Hnext. cbn [String.eqb Ascii.eqb Bool.eqb].
        replace (Z.of_nat (length pre) + 8
                 + Z.of_nat (length (piece_payload c)) + 4)
          with (Z.of_nat (length pre) + 12
                + Z.of_nat (length (piece_payload c))) by lia.
        reflexivity.
      * unfold buf. now rewrite <- app_assoc.
      * cbn in Hfuel. lia.
    + cbn [bind].
      rewrite (IH (pre ++ piece_bytes c)); auto.
      * rewrite <- app_assoc. cbn [layout app]. rewrite Heq.
        rewrite <- Hnext.
        replace (Z.of_nat (length pre) + 8
                 + Z.of_nat (length (piece_payload c)) + 4)
          with (Z.of_nat (length pre) + 12
                + Z.of_nat (length (piece_payload c))) by lia.
        reflexivity.
      * unfold buf. now rewrite <- app_assoc.
      * cbn in Hfuel. lia.
Qed.

Lemma parseChunks_file signature cs :
  length signature = 8%nat ->
  Forall well_formed cs ->
  Forall (fun c => piece_type c = "IHDR"%string
                   -> 24 <= Z.of_nat (length (file_bytes signature cs))) cs ->
  Png.parseChunks (file_bytes signature cs)
  = Returned (Png.mkParsed
                (layout (header_info (file_bytes signature cs)) 8 cs)).
Proof.
  intros Hsig Hwf Hinfo. unfold Png.parseChunks.
  change 8 with (Z.of_nat 8). rewrite <- Hsig.
  rewrite (parse_loop_layout (file_bytes signature cs) cs signature []);
    auto.
  unfold file_bytes. rewrite length_app.
  assert (length cs <= length (concat (map piece_bytes cs)))%nat; [|lia].
  clear Hinfo. induction Hwf as [|c l Hc _ IH]; cbn [map concat length];
    [lia|].
  rewrite length_app, piece_bytes_length by exact Hc. lia.
Qed.

Lemma layout_idat info pos cs :
  map Png.data (filter is_idat (layout info pos cs))
  = map piece_payload (filter is_idat_piece cs).
Proof.
  revert pos; induction cs as [|c cs IH]; intros pos; cbn; [reflexivity|].
  unfold is_idat at 1, is_idat_piece at 1. cbn.
  destruct (String.eqb (piece_type c) "IDAT"); cbn; now rewrite IH.
Qed.

Lemma slice_beyond {X} (l : list X) a b :
  Z.of_nat (length l) <= a -> a <= b -> slice l a b = [].
Proof.
  intros Ha Hb. unfold slice.
  destruct (a <? 0) eqn:Ha'; [apply Z.ltb_lt in Ha'; lia|].
  destruct (b <? 0) eqn:Hb'; [apply Z.ltb_lt in Hb'; lia|].
  rewrite !Z.min_r by lia. rewrite Z.sub_diag. reflexivity.
Qed.

Lemma header_slice signature payload crc rest :
  length signature = 8%nat -> (4 <= length payload)%nat ->
  slice (signature ++ chunk_bytes "IHDR" payload crc ++ rest) 16 20
  = firstn 4 payload.
Proof.
  intros Hsig Hp. unfold chunk_bytes.
  rewrite <- (firstn_skipn 4 payload) at 2.
  set (n := uint32_be (Z.of_nat (length payload))).
  replace (signature
           ++ (n ++ fourcc_bytes "IHDR"
               ++ (firstn 4 payload ++ skipn 4 payload) ++ crc) ++ rest)
    with ((signature ++ n ++ fourcc_bytes "IHDR")
          ++ firstn 4 payload ++ (skipn 4 payload ++ crc ++ rest))
    by (rewrite <- !app_assoc; reflexivity).
  apply slice_app.
  - rewrite !length_app, Hsig. reflexivity.
  - rewrite length_firstn. lia.
Qed.

(** ** [reverseFiltering]: the reconstructed pixels *)

Lemma wrap_add x a :
  0 <= x < 256 -> 0 <= a < 256 ->
  wrap (add (Int x) (Int a)) = Int ((x + a) mod 256).
Proof.
  intros Hx Ha. cbn. destruct (256 <=? x + a) eqn:Hc; f_equal.
  - apply Z.leb_le in Hc. apply Z.mod_unique with (q := 1); lia.
  - apply Z.leb_gt in Hc. symmetry. apply Z.mod_small. lia.
Qed.

Ltac four l :=
  let H := fresh "Hlen" in
  let F := fresh "Hbytes" in
  match goal with
  | Hok : pixel_ok l |- _ =>
      destruct Hok as [H F];
      destruct l as [|? [|? [|? [|? [|]]]]]; try discriminate H;
      clear H;
      repeat match goal with
             | G : Forall _ (_ :: _) |- _ => inversion G; clear G; subst
             | G : Forall _ [] |- _ => clear G
             end
  end.

Lemma index_four {X} (a b c d : X) :
  index [a; b; c; d] 0 = Some a /\ index [a; b; c; d] 1 = Some b
  /\ index [a; b; c; d] 2 = Some c /\ index [a; b; c; d] 3 = Some d.
Proof. repeat split. Qed.

Ltac index_four :=
  repeat match goal with
         | |- context [index [?a; ?b; ?c; ?d] _] =>
             let H0 := fresh in
             let H1 := fresh in
             let H2 := fresh in
             let H3 := fresh in
             destruct (index_four a b c d) as (H0 & H1 & H2 & H3);
             progress rewrite ?H0, ?H1, ?H2, ?H3; clear H0 H1 H2 H3
         end.

Lemma mapi_add_exact (g : Z -> result (option num)) xs ys :
  pixel_ok xs -> pixel_ok ys ->
  (forall c, 0 <= c < 4 -> g c = Returned (index (map Int ys) c)) ->
  mapi (fun c x => u <- g c ;; Returned (wrap (add x (to_num u)))) 0
    (map Int xs)
  = Returned (map Int (add_pixel xs ys)).
Proof.
  intros Hx Hy Hg. four xs. four ys.
  cbn [map mapi]. change (0 + 1) with 1. change (1 + 1) with 2.
  change (2 + 1) with 3.
  rewrite (Hg 0), (Hg 1), (Hg 2), (Hg 3) by lia.
  cbn [map]. index_four. cbn [bind to_num].
  rewrite !wrap_add by assumption. reflexivity.
Qed.

Lemma add_pixel_ok x a : pixel_ok x -> pixel_ok a -> pixel_ok (add_pixel x a).
Proof.
  intros Hx Ha. four x. four a. split; [reflexivity|].
  unfold add_pixel. cbn [combine map fst snd].
  repeat constructor; apply Z.mod_pos_bound; lia.
Qed.

Lemma add_pixel_none x : pixel_ok x -> add_pixel x no_pixel = x.
Proof.
  intros Hx. four x. unfold add_pixel, no_pixel. cbn [combine map fst snd].
  rewrite !Z.add_0_r, !Z.mod_small by assumption. reflexivity.
Qed.

Lemma no_pixel_ok : pixel_ok no_pixel.
Proof. split; [reflexivity|]. repeat constructor; lia. Qed.

Lemma recon_pixel_ok f x a b c :
  pixel_ok x -> pixel_ok a -> pixel_ok b -> pixel_ok c ->
  pixel_ok (recon_pixel f x a b c).
Proof.
  intros Hx Ha Hb Hc. unfold recon_pixel.
  destruct (f =? 1); [apply add_pixel_ok; auto|].
  destruct (f =? 2); [apply add_pixel_ok; auto|].
  destruct (f =? 3).
  { four x. four a. four b. split; [reflexivity|]. cbn [Canon.recon_average].
    repeat constructor; apply Z.mod_pos_bound; lia. }
  destruct (f =? 4); [|exact Hx].
  four x. four a. four b. four c. split; [reflexivity|].
  cbn [Canon.recon_paeth].
  repeat constructor; apply Z.mod_pos_bound; lia.
Qed.

Lemma recon_line_ok (w : Z) f raw above :
  (forall k, Z.of_nat k <= w - 1 -> pixel_ok (raw k)) ->
  (forall k, Z.of_nat k <= w - 1 -> pixel_ok (above k)) ->
  forall k, Z.of_nat k <= w - 1 -> pixel_ok (recon_line f raw above k).
Proof.
  intros Hraw Habove k. induction k as [|k IH]; intros Hk; cbn [recon_line].
  - apply recon_pixel_ok; auto using no_pixel_ok.
  - apply recon_pixel_ok; auto; try apply IH; try apply Habove; lia.
Qed.

Lemma recon_rows_length bs w n : length (recon_rows bs w n) = n.
Proof. unfold recon_rows. rewrite length_map, length_seq. reflexivity. Qed.

Lemma recon_rows_S bs w n :
  recon_rows bs w (S n) = recon_rows bs w n ++ [recon_row bs w n (Z.to_nat w)].
Proof. unfold recon_rows. rewrite seq_S, map_app. reflexivity. Qed.

Lemma recon_row_S bs w q n :
  recon_row bs w q (S n)
  = Row ((Number (Int (filter_type bs w q))
          :: map (fun k => Array (map Int (recon bs w q k))) (seq 0 n))
         ++ [Array (map Int (recon bs w q n))]).
Proof. unfold recon_row. rewrite seq_S, map_app. reflexivity. Qed.

Lemma cell_behind (F : nat -> value) (c0 : value) n k j :
  (k < n)%nat -> j = Z.of_nat k + 1 ->
  cell (c0 :: map F (seq 0 n)) j = F k.
Proof.
  intros Hk ->. unfold cell, index.
  destruct (Z.of_nat k + 1 <? 0) eqn:Hlt; [apply Z.ltb_lt in Hlt; lia|].
  replace (Z.to_nat (Z.of_nat k + 1)) with (S k) by lia. cbn [nth_error].
  rewrite (nth_error_nth' _ (F 0%nat)) by (rewrite length_map, length_seq; lia).
  rewrite (map_nth F (seq 0 n) 0%nat k), seq_nth by lia. reflexivity.
Qed.

Lemma paeth_left a : 0 <= a -> Canon.paeth a 0 0 = a.
Proof.
  intros Ha. unfold Canon.paeth. cbv zeta.
  replace (Z.abs (a + 0 - 0 - a) <=? Z.abs (a + 0 - 0 - 0)) with true
    by (symmetry; apply Z.leb_le; lia).
  reflexivity.
Qed.

Lemma case_paeth_first_line t xs a :
  Png.lineNum t = 0 ->
  (Png.pixelCount t = 0 /\ a = no_pixel)
  \/ (Png.pixelCount t <> 0
      /\ at2 (Png.res t) 0 (Png.pixelCount t) = Returned (Array (map Int a))) ->
  pixel_ok xs -> pixel_ok a ->
  Png.case_paeth t (map Int xs)
  = Png.push_pixel (map Int (Canon.recon_paeth xs a no_pixel no_pixel)) t.
Proof.
  intros Hl Hcase Hx Ha. unfold Png.case_paeth. rewrite Hl.
  change (0 <? 0) with false. cbn [andb negb].
  rewrite andb_false_r, andb_true_r.
  assert (Habc :
    (if negb (Png.pixelCount t =? 0)
     then a0 <- at2 (Png.res t) 0 (Png.pixelCount t) ;;
          Returned (a0, Array [Int 0; Int 0; Int 0; Int 0],
                    Array [Int 0; Int 0; Int 0; Int 0])
     else Returned (Array [Int 0; Int 0; Int 0; Int 0],
                    Array [Int 0; Int 0; Int 0; Int 0],
                    Array [Int 0; Int 0; Int 0; Int 0]))
    = Returned (Array (map Int a), Array [Int 0; Int 0; Int 0; Int 0],
                Array [Int 0; Int 0; Int 0; Int 0])).
  { destruct Hcase as [[Hp ->]|[Hp Hat]].
    - rewrite Hp. reflexivity.
    - apply Z.eqb_neq in Hp. rewrite Hp, Hat. reflexivity. }
  rewrite Habc. cbn [bind]. clear Habc Hcase.
  four xs. four a. cbn [map reduce_sum fold_left add bind sub abs le].
  match goal with
  | |- context [if ?c && ?c then _ else _] =>
      replace c with true by (symmetry; apply Z.leb_le; lia)
  end.
  cbn [andb]. unfold Png.paeth_add. cbn [mapi prop].
  change (0 + 1) with 1. change (1 + 1) with 2. change (2 + 1) with 3.
  index_four. cbn [bind to_num].
  unfold no_pixel. cbn [Canon.recon_paeth map].
  rewrite !paeth_left by lia.
  rewrite !wrap_add by assumption.
  rewrite (Z.add_comm z3), (Z.add_comm z4), (Z.add_comm z5), (Z.add_comm z6).
  reflexivity.
Qed.

Section Exact.
Variables (bs : list Z) (w : Z) (h : nat).
Hypothesis w_pos : 1 <= w.
Hypothesis whole : Z.of_nat (length bs) = Z.of_nat h * (w * 4 + 1).
Hypothesis bytes : Forall (fun b => 0 <= b < 256) bs.
Hypothesis types :
  forall q, (q < h)%nat ->
            0 <= filter_type bs w q <= 2
            \/ (q = 0%nat /\ filter_type bs w q = 4).

Lemma filter_type_index q :
  (q < h)%nat ->
  index bs (Z.of_nat q * (w * 4 + 1)) = Some (filter_type bs w q).
Proof.
  intros Hq. unfold filter_type, index.
  destruct (_ <? 0) eqn:Hlt; [apply Z.ltb_lt in Hlt; nia|].
  destruct (nth_error bs _) eqn:Hn; [reflexivity|].
  apply nth_error_None in Hn. nia.
Qed.

Lemma raw_pixel_ok q k :
  (q < h)%nat -> Z.of_nat k <= w - 1 -> pixel_ok (raw_pixel bs w q k).
Proof.
  intros Hq Hk. unfold raw_pixel. split; [|apply Forall_slice, bytes].
  apply Nat2Z.inj. rewrite slice_length by nia.
  rewrite !Z.min_l by nia. lia.
Qed.

Lemma recon_ok q :
  (q < h)%nat -> forall k, Z.of_nat k <= w - 1 -> pixel_ok (recon bs w q k).
Proof.
  induction q as [|q IH]; intros Hq; cbn [recon];
    apply recon_line_ok; auto using raw_pixel_ok, no_pixel_ok.
  apply IH. lia.
Qed.

(** The reconstruction of pixel [k] of scanline [q] from its
    neighbours. *)
Lemma recon_eq q k :
  recon bs w q k
  = recon_pixel (filter_type bs w q) (raw_pixel bs w q k)
      (match k with O => no_pixel | S k' => recon bs w q k' end)
      (match q with O => no_pixel | S q' => recon bs w q' k end)
      (match q, k with
       | S q', S k' => recon bs w q' k'
       | _, _ => no_pixel
       end).
Proof. destruct q, k; reflexivity. Qed.

Lemma at3_above q k cur c :
  Z.of_nat k <= w - 1 ->
  at3 (recon_rows bs w (S q) ++ [Row cur]) (Z.of_nat (S q) - 1)
    (Z.of_nat k + 1) c
  = Returned (index (map Int (recon bs w q k)) c).
Proof.
  intros Hk. unfold at3, at2.
  rewrite recon_rows_S, <- app_assoc. cbn [app].
  replace (recon_rows bs w q ++ recon_row bs w q (Z.to_nat w) :: [Row cur])
    with ((recon_rows bs w q ++ [recon_row bs w q (Z.to_nat w)]) ++ [Row cur])
    by (rewrite <- app_assoc; reflexivity).
  unfold row_at, index.
  destruct (Z.of_nat (S q) - 1 <? 0) eqn:Hlt; [apply Z.ltb_lt in Hlt; lia|].
  replace (Z.to_nat (Z.of_nat (S q) - 1)) with q by lia.
  rewrite nth_error_app1 by (rewrite length_app, recon_rows_length; cbn; lia).
  rewrite nth_error_app2 by (rewrite recon_rows_length; lia).
  rewrite recon_rows_length, Nat.sub_diag. cbn [nth_error recon_row bind].
  rewrite (cell_behind _ _ (Z.to_nat w) k) by lia.
  reflexivity.
Qed.

Lemma switch_exact q k t :
  (q < h)%nat -> Z.of_nat k <= w - 1 ->
  Png.lineNum t = Z.of_nat q ->
  Png.pixelCount t = Z.of_nat k ->
  Png.i t = Z.of_nat q * (w * 4 + 1) + 1 + 4 * Z.of_nat k ->
  Png.res t = recon_rows bs w q ++ [recon_row bs w q k] ->
  Png.filterByte t = Number (Int (filter_type bs w q)) ->
  (filter_type bs w q = 1 -> forall k', k = S k' ->
   Png.tempArr t = Array (map Int (recon bs w q k'))) ->
  exists t',
    Png.switch (w * 4 + 1) t (Png.slice4 bs (Png.i t)) = Returned t'
    /\ Png.res t' = recon_rows bs w q ++ [recon_row bs w q (S k)]
    /\ ctl t' = ctl t
    /\ (filter_type bs w q = 1 ->
        Png.tempArr t' = Array (map Int (recon bs w q k))).
Proof.
  intros Hq Hk Hl Hp Hi Hr Hf Ht.
  assert (HlR : Png.lineNum t = Z.of_nat (length (recon_rows bs w q)))
    by (rewrite recon_rows_length; exact Hl).
  assert (Hx := raw_pixel_ok q k Hq Hk).
  assert (Hcur : Png.slice4 bs (Png.i t) = map Int (raw_pixel bs w q k))
    by (rewrite Hi; reflexivity).
  rewrite Hcur. rewrite recon_row_S. unfold recon_row in Hr.
  set (cells := Number (Int (filter_type bs w q))
                :: map (fun k0 => Array (map Int (recon bs w q k0))) (seq 0 k))
    in *.
  assert (Hcells : length cells = S k)
    by (unfold cells; cbn [length]; rewrite length_map, length_seq; reflexivity).
  unfold Png.switch. rewrite Hf. rewrite (recon_eq q k).
  destruct (types q Hq) as [Hty|[-> Hty]].
  - assert (Hc : filter_type bs w q = 0 \/ filter_type bs w q = 1
                 \/ filter_type bs w q = 2) by lia.
    destruct Hc as [Hc|[Hc|Hc]]; rewrite Hc in *.
    + (* None *)
      unfold Png.case_none.
      rewrite (push_pixel_last (recon_rows bs w q) cells _ t Hr HlR).
      eexists. split; [reflexivity|]. simpl_locals.
      repeat split; auto; discriminate.
    + (* Sub *)
      unfold Png.case_sub. rewrite Hl, Hi. unfold recon_pixel. cbn [Z.eqb Pos.eqb].
      destruct k as [|k'].
      * decide_ltb ((w * 4 + 1) * Z.of_nat q + 3
                    <? Z.of_nat q * (w * 4 + 1) + 1 + 4 * Z.of_nat 0).
        rewrite (push_pixel_last (recon_rows bs w q) cells)
          by (simpl_locals; assumption).
        rewrite add_pixel_none by exact Hx.
        eexists. split; [reflexivity|]. simpl_locals. repeat split; auto.
      * decide_ltb ((w * 4 + 1) * Z.of_nat q + 3
                    <? Z.of_nat q * (w * 4 + 1) + 1 + 4 * Z.of_nat (S k')).
        rewrite (Ht eq_refl k' eq_refl).
        rewrite (mapi_add_exact _ _ (recon bs w q k'));
          [ | exact Hx | apply recon_ok; lia | reflexivity ].
        cbn [bind].
        rewrite (push_pixel_last (recon_rows bs w q) cells _ t Hr HlR). cbn [bind].
        simpl_locals. rewrite Hl, Hp, at2_current
          by (rewrite recon_rows_length; reflexivity).
        rewrite cell_last by (rewrite Hcells; lia). cbn [bind].
        eexists. split; [reflexivity|]. simpl_locals. repeat split; auto.
    + (* Up *)
      unfold Png.case_up. rewrite Hl, Hp, Hr. unfold recon_pixel.
      cbn [Z.eqb Pos.eqb].
      destruct q as [|q'].
      * change (0 <? Z.of_nat 0) with false.
        rewrite (push_pixel_last (recon_rows bs w 0) cells)
          by (simpl_locals; assumption).
        rewrite add_pixel_none by exact Hx.
        eexists. split; [reflexivity|]. simpl_locals.
        repeat split; auto; discriminate.
      * decide_ltb (0 <? Z.of_nat (S q')).
        rewrite (mapi_add_exact _ _ (recon bs w q' k));
          [ | exact Hx | apply recon_ok; lia
            | intros c _; apply at3_above; exact Hk ].
        cbn [bind].
        rewrite (push_pixel_last (recon_rows bs w (S q')) cells _ t Hr HlR).
        eexists. split; [reflexivity|]. simpl_locals.
        repeat split; auto; discriminate.
  - (* Paeth on the first scanline *)
    rewrite Hty in *. unfold recon_pixel. cbn [Z.eqb Pos.eqb].
    rewrite (case_paeth_first_line t _
               (match k with O => no_pixel | S k' => recon bs w 0 k' end));
      auto.
    + rewrite (push_pixel_last (recon_rows bs w 0) cells _ t Hr HlR).
      eexists. split; [reflexivity|]. simpl_locals.
      repeat split; auto; discriminate.
    + destruct k as [|k']; [left; auto|right]. split; [lia|].
      rewrite Hr, Hp. rewrite at2_current by reflexivity.
      unfold cells. rewrite (cell_behind _ _ (S k') k') by lia.
      reflexivity.
    + destruct k as [|k']; [apply no_pixel_ok|apply recon_ok; lia].
Qed.

(** Where the loop stands when pixel [k] of scanline [q] is done. *)
Lemma reconstructing_next q k s :
  (q < h)%nat -> Z.of_nat k <= w - 1 ->
  Png.i s = Z.of_nat q * (w * 4 + 1) + 1 + 4 * Z.of_nat k + 4 ->
  Png.lineNum s = Z.of_nat q ->
  Png.pixelCount s = Z.of_nat k + 1 ->
  Png.res s = recon_rows bs w q ++ [recon_row bs w q (S k)] ->
  Png.filterByte s = Number (Int (filter_type bs w q)) ->
  (filter_type bs w q = 1 ->
   Png.tempArr s = Array (map Int (recon bs w q k))) ->
  reconstructing bs w h s.
Proof.
  intros Hq Hk Hi Hl Hp Hr Hf Ht.
  destruct (Z.eq_dec (Z.of_nat k + 1) w) as [Hkw|Hkw].
  - apply (reconstructing_line bs w h (S q)); [lia | | lia | ].
    + rewrite Hi. nia.
    + rewrite Hr, recon_rows_S. repeat f_equal. lia.
  - apply (reconstructing_pixel bs w h q (S k)); auto; try lia.
    cbn [Nat.sub]. rewrite Nat.sub_0_r. exact Ht.
Qed.

Lemma ctl_fields t' t :
  ctl t' = ctl t ->
  Png.i t' = Png.i t /\ Png.lineNum t' = Png.lineNum t
  /\ Png.filterByte t' = Png.filterByte t
  /\ Png.pixelCount t' = Png.pixelCount t.
Proof. unfold ctl. intros H. injection H as -> -> -> ->. auto. Qed.

(** The iteration at the start of scanline [q]. *)
Lemma reconstructing_start q s :
  (q < h)%nat ->
  Png.i s = Z.of_nat q * (w * 4 + 1) ->
  Png.lineNum s = Z.of_nat q - 1 ->
  Png.res s = recon_rows bs w q \/ (q = 0%nat /\ Png.res s = [Row []]) ->
  exists s', Png.body bs (w * 4 + 1) s = Returned s'
             /\ reconstructing bs w h (Png.set_i (Png.i s' + 4) s').
Proof.
  intros Hq Hi Hl Hr. unfold Png.body.
  set (f := filter_type bs w q).
  assert (He : Png.enter_line bs (w * 4 + 1) s
               = Png.mkLocals (Z.of_nat q * (w * 4 + 1) + 1) (Number (Int f))
                   (Png.res s) (Z.of_nat q)
                   (Array (Png.slice4 bs (Z.of_nat q * (w * 4 + 1)))) 0).
  { unfold Png.enter_line.
    rewrite (at_line_start_line w (Z.of_nat q)) by (auto; lia).
    unfold Png.byte_at.
    rewrite Hi, (filter_type_index q Hq). f_equal. lia. }
  rewrite He. clear He.
  set (t := Png.mkLocals (Z.of_nat q * (w * 4 + 1) + 1) (Number (Int f))
              (recon_rows bs w q ++ [recon_row bs w q 0]) (Z.of_nat q)
              (Array (Png.slice4 bs (Z.of_nat q * (w * 4 + 1) + 1))) 0).
  assert (Ho : Png.open_row bs
                 (Png.mkLocals (Z.of_nat q * (w * 4 + 1) + 1) (Number (Int f))
                    (Png.res s) (Z.of_nat q)
                    (Array (Png.slice4 bs (Z.of_nat q * (w * 4 + 1)))) 0)
               = t).
  { unfold Png.open_row. simpl_locals.
    destruct Hr as [Hr | [-> Hr]]; rewrite Hr.
    - rewrite row_at_end, store_end
        by (rewrite recon_rows_length; reflexivity).
      reflexivity.
    - reflexivity. }
  rewrite Ho. clear Ho.
  destruct (switch_exact q 0%nat t)
    as (t' & Hsw & Hres & Hctl & Htmp);
    try reflexivity; auto; try lia.
  { unfold t. simpl_locals. lia. }
  rewrite Hsw. cbn [bind]. eexists. split; [reflexivity|].
  apply ctl_fields in Hctl. destruct Hctl as (Hi' & Hl' & Hf' & Hp').
  apply (reconstructing_next q 0%nat); simpl_locals; auto; try lia.
  - rewrite Hi'. unfold t. simpl_locals. lia.
  - rewrite Hp'. reflexivity.
Qed.

(** One iteration keeps the loop reconstructing. *)
Lemma reconstructing_step s :
  reconstructing bs w h s -> Png.i s < Z.of_nat (length bs) ->
  exists s', Png.body bs (w * 4 + 1) s = Returned s'
             /\ reconstructing bs w h (Png.set_i (Png.i s' + 4) s').
Proof.
  intros Hs Hlt.
  destruct Hs as [|q s Hq Hi Hl Hr|q k s Hq Hk Hi Hl Hp Hr Hf Ht].
  - cbn in Hlt. apply (reconstructing_start 0); cbn; auto. nia.
  - apply (reconstructing_start q); auto. nia.
  - assert (Hrow : exists c cs,
               row_at (Png.res s) (Png.lineNum s) = Some (c :: cs)).
    { rewrite Hr. unfold recon_row. eexists _, _.
      apply row_at_app_last. rewrite recon_rows_length. exact Hl. }
    destruct Hrow as (c & cs & Hrow).
    unfold Png.body, Png.enter_line.
    rewrite (at_line_start_pixel w (Z.of_nat q) (Z.of_nat k)) by (auto; lia).
    rewrite (open_row_kept bs s _ _ Hrow).
    destruct (switch_exact q k s)
      as (t' & Hsw & Hres & Hctl & Htmp); auto; try lia.
    { intros H1 k' ->. rewrite (Ht H1). cbn [Nat.sub].
      rewrite Nat.sub_0_r. reflexivity. }
    rewrite Hsw. cbn [bind]. eexists. split; [reflexivity|].
    apply ctl_fields in Hctl. destruct Hctl as (Hi' & Hl' & Hf' & Hp').
    apply (reconstructing_next q k); simpl_locals; auto; try lia;
      congruence.
Qed.

(** At the end of the stream all [h] rows are there. *)
Lemma reconstructing_done s :
  (1 <= h)%nat -> reconstructing bs w h s ->
  Z.of_nat (length bs) <= Png.i s ->
  Png.res s = recon_rows bs w h.
Proof.
  rewrite whole. intros Hh Hs Hge.
  destruct Hs as [|q s Hq Hi _ Hr|q k s Hq Hk Hi _ _ _ _ _].
  - cbn in Hge. nia.
  - rewrite Hi in Hge. assert (q = h) by nia. subst q. exact Hr.
  - rewrite Hi in Hge. assert (Z.of_nat q + 1 <= Z.of_nat h) by lia. nia.
Qed.

End Exact.

(** ** [subimage]: the tiles *)

Lemma mapi_repeat_seq {Y} (f : Z -> unit -> result Y) (G : nat -> Y) n :
  forall c,
    (forall j, (j < n)%nat -> f (c + Z.of_nat j) tt = Returned (G j)) ->
    mapi f c (repeat tt n) = Returned (map G (seq 0 n)).
Proof.
  revert G. induction n as [|n IH]; intros G c Hf; cbn [repeat mapi];
    [reflexivity|].
  replace (f c tt) with (Returned (G 0%nat))
    by (rewrite <- (Hf 0%nat) by lia; f_equal; lia).
  cbn [bind]. rewrite (IH (fun j => G (S j))).
  - cbn [bind seq map]. rewrite <- seq_shift, map_map. reflexivity.
  - intros j Hj. rewrite <- (Hf (S j)) by lia. f_equal. lia.
Qed.

Lemma slice_window {X} (l : list X) a b :
  0 <= a -> a <= b -> b <= Z.of_nat (length l) ->
  slice l a b = firstn (Z.to_nat (b - a)) (skipn (Z.to_nat a) l).
Proof.
  intros Ha Hb Hl. unfold slice.
  destruct (a <? 0) eqn:Ha'; [apply Z.ltb_lt in Ha'; lia|].
  destruct (b <? 0) eqn:Hb'; [apply Z.ltb_lt in Hb'; lia|].
  rewrite !Z.min_l by lia. reflexivity.
Qed.

Section Tiles.
Context {A : Type}.
Variables (g : list (list A)) (W tw th sep xm ym : Z).
Hypothesis rect : Forall (fun r => Z.of_nat (length r) = W) g.
Hypothesis tw_pos : 0 < tw.
Hypothesis th_pos : 0 < th.
Hypothesis sep_nonneg : 0 <= sep.
Hypothesis xm_nonneg : 0 <= xm.
Hypothesis ym_nonneg : 0 <= ym.

Lemma tile_at_window x0 y0 :
  0 <= x0 -> x0 + tw <= W -> 0 <= y0 -> y0 + th <= Z.of_nat (length g) ->
  Png.tile_at g (Int x0) (Int y0) tw th = Returned (window g tw th x0 y0).
Proof.
  intros Hx0 Hx1 Hy0 Hy1. unfold Png.tile_at, window.
  apply mapi_repeat_seq. intros j Hj. unfold index.
  destruct (y0 + Z.of_nat j <? 0) eqn:Hlt; [apply Z.ltb_lt in Hlt; lia|].
  replace (Z.to_nat (y0 + Z.of_nat j)) with (Z.to_nat y0 + j)%nat by lia.
  rewrite (nth_error_nth' g []) by lia.
  unfold Png.slice_num. cbn [add].
  assert (Hr : Z.of_nat (length (nth (Z.to_nat y0 + j) g [])) = W).
  { rewrite Forall_forall in rect. apply rect, nth_In. lia. }
  rewrite slice_window by lia.
  replace (x0 + tw - x0) with tw by lia. reflexivity.
Qed.

Lemma times_cols_window y0 nc :
  0 <= y0 -> y0 + th <= Z.of_nat (length g) ->
  forall x0 t,
    0 <= x0 -> nc = 0%nat \/ x0 + Z.of_nat nc * (tw + sep) <= W ->
    Png.xOffset t = Int x0 -> Png.yOffset t = Int y0 ->
    Png.times nc
      (fun t =>
         tile <- Png.tile_at g (Png.xOffset t) (Png.yOffset t) tw th ;;
         Returned (Png.mkTiling A (add (Png.xOffset t) (Int (tw + sep)))
                     (Png.yOffset t) (Png.tileset t ++ [tile]))) t
    = Returned
        (Png.mkTiling A (Int (x0 + Z.of_nat nc * (tw + sep))) (Int y0)
           (Png.tileset t
            ++ map (fun c => window g tw th (x0 + Z.of_nat c * (tw + sep)) y0)
                 (seq 0 nc))).
Proof.
  intros Hy0 Hy1. induction nc as [|nc IH]; intros x0 t Hx0 Hfit Hx Hy;
    cbn [Png.times].
  - cbn [seq map]. rewrite app_nil_r, Z.add_0_r.
    destruct t; cbn in *; congruence.
  - destruct Hfit as [Hfit|Hfit]; [discriminate|].
    rewrite Hx, Hy. rewrite tile_at_window by nia. cbn [bind add].
    rewrite (IH (x0 + (tw + sep))); cbn [Png.xOffset Png.yOffset];
      try reflexivity; try nia.
    cbn [Png.tileset]. f_equal. f_equal; [f_equal; lia|].
    rewrite <- app_assoc. f_equal. cbn [seq map app].
    replace (x0 + Z.of_nat 0 * (tw + sep)) with x0 by lia. f_equal.
    rewrite <- seq_shift, map_map. apply map_ext. intros c.
    f_equal. lia.
Qed.

Lemma times_rows_window nc nr :
  nc = 0%nat \/ xm + Z.of_nat nc * (tw + sep) <= W ->
  forall y0 t,
    0 <= y0 ->
    nr = 0%nat \/ y0 + Z.of_nat nr * (th + sep) <= Z.of_nat (length g) ->
    Png.xOffset t = Int xm -> Png.yOffset t = Int y0 ->
    exists t',
      Png.times nr
        (fun t =>
           t <- Png.times nc
                  (fun t =>
                     tile <- Png.tile_at g (Png.xOffset t) (Png.yOffset t)
                               tw th ;;
                     Returned (Png.mkTiling A
                                 (add (Png.xOffset t) (Int (tw + sep)))
                                 (Png.yOffset t) (Png.tileset t ++ [tile])))
                  t ;;
           Returned (Png.mkTiling A (to_num (option_map Int (Some xm)))
                       (add (Png.yOffset t) (Int (th + sep)))
                       (Png.tileset t))) t
      = Returned t'
      /\ Png.tileset t'
         = Png.tileset t
           ++ concat
                (map (fun r =>
                        map (fun c =>
                               window g tw th (xm + Z.of_nat c * (tw + sep))
                                 (y0 + Z.of_nat r * (th + sep)))
                          (seq 0 nc))
                   (seq 0 nr)).
Proof.
  intros Hcols. induction nr as [|nr IH]; intros y0 t Hy0 Hfit Hx Hy;
    cbn [Png.times].
  - exists t. split; [reflexivity|]. cbn. now rewrite app_nil_r.
  - destruct Hfit as [Hfit|Hfit]; [discriminate|].
    destruct (IH (y0 + (th + sep))
                (Png.mkTiling A (Int xm) (Int (y0 + (th + sep)))
                   (Png.tileset t
                    ++ map (fun c => window g tw th
                                       (xm + Z.of_nat c * (tw + sep)) y0)
                         (seq 0 nc))))
      as (t' & Ht1 & Ht'); try reflexivity; try nia.
    exists t'. split.
    + rewrite (times_cols_window y0 nc) with (x0 := xm);
        [exact Ht1 | exact Hy0 | nia | exact xm_nonneg | exact Hcols
        | exact Hx | exact Hy].
    + rewrite Ht'. cbn [Png.tileset].
      rewrite <- app_assoc. f_equal. cbn [seq map concat]. f_equal.
      * apply map_ext. intros c. f_equal. lia.
      * rewrite <- seq_shift, map_map. f_equal. apply map_ext. intros r.
        apply map_ext. intros c. f_equal. lia.
Qed.

End Tiles.

Ltac subimage_guards tw th sep Hcol :=
  unfold Png.subimage_tileset;
  cbn [Png.margins_x Png.margins_y Png.xMargin Png.yMargin Png.x Png.y];
  replace (tw <=? 0) with false by (symmetry; apply Z.leb_gt; lia);
  replace (th <=? 0) with false by (symmetry; apply Z.leb_gt; lia);
  replace (sep <? 0) with false by (symmetry; apply Z.ltb_ge; lia);
  rewrite Hcol; cbn [orb negb];
  replace (0 <? th + sep) with true by (symmetry; apply Z.ltb_lt; lia);
  replace (0 <? tw + sep) with true by (symmetry; apply Z.ltb_lt; lia).

Lemma valid_options_length o :
  valid_options o ->
  negb (Z.of_nat (length (Png.ignoredColour
                            match o with
                            | Some c => c
                            | None => Png.mkOptions [0; 0; 0; 0]
                            end)) =? 4) = false.
Proof. destruct o as [c|]; cbn [valid_options]; [intros ->|]; reflexivity. Qed.

Lemma times_throws {S} (step : S -> result S) e n s :
  step s = Threw e -> Png.times (Datatypes.S n) step s = Threw e.
Proof. intros H. cbn [Png.times]. rewrite H. reflexivity. Qed.

Lemma times_idle {S} (step : S -> result S) (P : S -> Prop) :
  (forall s, P s -> exists s', step s = Returned s' /\ P s') ->
  forall n s, P s -> exists s', Png.times n step s = Returned s' /\ P s'.
Proof.
  intros Hstep n. induction n as [|n IH]; intros s Hs; cbn [Png.times].
  - eauto.
  - destruct (Hstep s Hs) as (s1 & -> & Hs1). cbn [bind]. apply IH, Hs1.
Qed.

(** * The claims of the specification *)

(** C1. Tile count of [extractTiles]: a 130 by 130 grid, 64 by 64 tiles,
    margins 0 and separation 0 should give back a list of 4 tiles.  The
    method gives back [undefined].  With margins [{x: 0, y: 0}] the counts
    are [NaN] and the local list stays empty; with the margins also under
    [xMargin] and [yMargin] the local list does get its 2 * 2 tiles, and is
    dropped at the end of the body. *)
Theorem C1_subimage_returns_undefined :
  Png.subimage grid130 (Png.mkTileSize 64 64) (Some margins_xy) (Some 0)
    (Some (Png.mkOptions [0; 0; 0; 0])) = Returned None
  /\ Png.subimage_tileset grid130 (Png.mkTileSize 64 64) (Some margins_xy)
       (Some 0) (Some (Png.mkOptions [0; 0; 0; 0])) = Returned []
  /\ Png.subimage grid130 (Png.mkTileSize 64 64) (Some margins_both) (Some 0)
       (Some (Png.mkOptions [0; 0; 0; 0])) = Returned None
  /\ exists t1 t2 t3 t4,
       Png.subimage_tileset grid130 (Png.mkTileSize 64 64) (Some margins_both)
         (Some 0) (Some (Png.mkOptions [0; 0; 0; 0]))
       = Returned [t1; t2; t3; t4].
Proof.
  repeat split; try (vm_compute; reflexivity).
  do 4 eexists. vm_compute. reflexivity.
Qed.

(** C2. Paeth, filter type 4, should choose its neighbour channel by
    channel.  [reverseFiltering] adds up the four channels of each
    neighbour and chooses one neighbour for the whole pixel: with left
    (100,0,0,0), above (0,50,0,0) and above-left (0,0,0,0) it adds the left
    pixel to (1,1,1,1) in all channels, where the second channel of the
    reference reconstruction takes the pixel above. *)
Theorem C2_paeth_sums_channels :
  Png.reverseFiltering (png_of_size 2 2)
    [0; 0; 0; 0; 0; 0; 50; 0; 0; 4; 100; 0; 0; 0; 1; 1; 1; 1]
  = Returned
      [Row [Number (Int 0); Array [Int 0; Int 0; Int 0; Int 0];
            Array [Int 0; Int 50; Int 0; Int 0]];
       Row [Number (Int 4); Array [Int 100; Int 0; Int 0; Int 0];
            Array [Int 101; Int 1; Int 1; Int 1]]]
  /\ Canon.recon_paeth [1; 1; 1; 1] [100; 0; 0; 0] [0; 50; 0; 0] [0; 0; 0; 0]
     = [101; 51; 1; 1].
Proof. split; vm_compute; reflexivity. Qed.

(** C3. Masking of the ignored colour: a pixel equal to [ignoredColour]
    should come out of [extractTiles] as (0,0,0,0).  The tile that
    [subimage] builds holds the pixel as it was in the grid, and the call
    evaluates to [undefined]. *)
Theorem C3_subimage_keeps_ignored_colour :
  Png.subimage_tileset [[[255; 0; 255; 255]; [1; 2; 3; 4]]]
    (Png.mkTileSize 2 1) (Some margins_both) (Some 0)
    (Some (Png.mkOptions [255; 0; 255; 255]))
  = Returned [[[[255; 0; 255; 255]; [1; 2; 3; 4]]]]
  /\ Png.subimage [[[255; 0; 255; 255]; [1; 2; 3; 4]]]
       (Png.mkTileSize 2 1) (Some margins_both) (Some 0)
       (Some (Png.mkOptions [255; 0; 255; 255]))
     = Returned None.
Proof. split; vm_compute; reflexivity. Qed.

(** C4. Defaults of [extractTiles]: leaving out the margins should be the
    same as passing [{x: 0, y: 0}] and should pass validation.  A call of
    [subimage] without margins always throws, "Invalid margins" as soon as
    the tile size is valid, because the default object has no [x] and no
    [y]; the same call with [{x: 0, y: 0}] does not throw. *)
Theorem C4_subimage_default_margins_throw :
  (forall (A : Type) (g : list (list A)) ts sep o,
      Png.subimage g ts None sep o =
      Threw (if (Png.x ts <=? 0) || (Png.y ts <=? 0)
             then InvalidTileSize else InvalidMargins))
  /\ Png.subimage [[[1; 2; 3; 4]]] (Png.mkTileSize 1 1) None None None
     = Threw InvalidMargins
  /\ Png.subimage [[[1; 2; 3; 4]]] (Png.mkTileSize 1 1) (Some margins_xy)
       (Some 0) (Some (Png.mkOptions [0; 0; 0; 0]))
     = Returned None.
Proof.
  split; [|split; reflexivity].
  intros A g ts sep o. unfold Png.subimage, Png.subimage_tileset. cbn.
  destruct (_ || _); reflexivity.
Qed.

(** C5. Average, filter type 3, should give [x + floor((a + b) / 2)] per
    channel and one output pixel per input pixel.  On a first row
    [reverseFiltering] throws a [TypeError]; on a later row the first pixel
    comes out as [x], without the half of the pixel above, and is pushed
    twice. *)
Theorem C5_average_first_pixel :
  Png.reverseFiltering (png_of_size 1 1) [3; 10; 20; 30; 40] = Threw TypeError
  /\ Png.reverseFiltering (png_of_size 1 2)
       [0; 10; 20; 30; 40; 3; 1; 2; 3; 4]
     = Returned
         [Row [Number (Int 0); Array [Int 10; Int 20; Int 30; Int 40]];
          Row [Number (Int 3); Array [Int 1; Int 2; Int 3; Int 4];
               Array [Int 1; Int 2; Int 3; Int 4]]]
  /\ Canon.recon_average [1; 2; 3; 4] [0; 0; 0; 0] [10; 20; 30; 40]
     = [6; 12; 18; 24].
Proof. repeat split; vm_compute; reflexivity. Qed.

(** C6 in the wording of the specification: with filter type 0 every
    output row would hold the pixels only and have the length of the image
    width.  For width 1 the one row has two entries, the first being the
    filter byte. *)
Lemma C6_row_keeps_filter_byte :
  exists cells,
    Png.reverseFiltering (png_of_size 1 1) [0; 1; 2; 3; 4]
    = Returned [Row cells]
    /\ length cells <> 1%nat
    /\ cells <> [Array [Int 1; Int 2; Int 3; Int 4]].
Proof.
  eexists. split; [vm_compute; reflexivity|]. split; discriminate.
Qed.

(** C6, as the method has it.  On a stream of [h] whole scanlines, [h] at
    least 1, for a width [w] at least 1, all of filter type 0,
    [reverseFiltering] returns [h] rows; row [q] is the filter byte 0
    followed by the [w] pixels of scanline [q], each the four bytes of the
    stream unchanged.  A row has [w + 1] entries. *)
Theorem C6_type0_rows_keep_filter_byte this bs w h :
  Png.header_width this = Returned w -> 1 <= w -> (1 <= h)%nat ->
  Z.of_nat (length bs) = Z.of_nat h * (w * 4 + 1) ->
  (forall q, (q < h)%nat -> index bs (Z.of_nat q * (w * 4 + 1)) = Some 0) ->
  exists rows,
    Png.reverseFiltering this bs = Returned rows
    /\ length rows = h
    /\ forall q, (q < h)%nat ->
         exists pixels,
           nth_error rows q = Some (Row (Number (Int 0) :: pixels))
           /\ Z.of_nat (length pixels) = w
           /\ forall k, Z.of_nat k < w ->
                nth_error pixels k
                = Some (Array
                          (map (fun j =>
                                  Int (nth (Z.to_nat
                                              (Z.of_nat q * (w * 4 + 1) + 1
                                               + 4 * Z.of_nat k + j)) bs 0))
                               [0; 1; 2; 3])).
Proof.
  intros Hh Hw Hh1 Hlen H0. exists (copied_rows bs w h).
  split; [apply reverseFiltering_type0; auto|].
  split; [apply copied_rows_length|].
  intros q Hq. exists (map (pixel_at bs w q) (seq 0 (Z.to_nat w))).
  split; [|split].
  - unfold copied_rows.
    rewrite (nth_error_nth' _ (copied_row bs w 0 (Z.to_nat w)))
      by (rewrite length_map, length_seq; lia).
    rewrite (map_nth (fun q => copied_row bs w q (Z.to_nat w)) _ 0%nat).
    rewrite seq_nth by lia. reflexivity.
  - rewrite length_map, length_seq. lia.
  - intros k Hk.
    rewrite (nth_error_nth' _ (pixel_at bs w q 0))
      by (rewrite length_map, length_seq; lia).
    rewrite (map_nth (pixel_at bs w q) _ 0%nat), seq_nth by lia.
    unfold pixel_at. cbn [Nat.add map]. rewrite slice4_bytes by nia.
    rewrite !Z.add_0_r. reflexivity.
Qed.

(** C6 as the method has it, on two scanlines of one pixel. *)
Lemma C6_type0_rows_keep_filter_byte_witness :
  exists rows,
    Png.reverseFiltering (png_of_size 1 2) [0; 1; 2; 3; 4; 0; 5; 6; 7; 8]
    = Returned rows
    /\ length rows = 2%nat
    /\ forall q, (q < 2)%nat ->
         exists pixels,
           nth_error rows q = Some (Row (Number (Int 0) :: pixels))
           /\ Z.of_nat (length pixels) = 1
           /\ forall k, Z.of_nat k < 1 ->
                nth_error pixels k
                = Some (Array
                          (map (fun j =>
                                  Int (nth (Z.to_nat
                                              (Z.of_nat q * (1 * 4 + 1) + 1
                                               + 4 * Z.of_nat k + j))
                                         [0; 1; 2; 3; 4; 0; 5; 6; 7; 8] 0))
                               [0; 1; 2; 3])).
Proof.
  apply (C6_type0_rows_keep_filter_byte (png_of_size 1 2)
           [0; 1; 2; 3; 4; 0; 5; 6; 7; 8] 1 2%nat).
  - reflexivity.
  - lia.
  - lia.
  - reflexivity.
  - intros [|[|q]] Hq; [reflexivity | reflexivity | lia].
Defined.

(** C7 in the wording of the specification: a stream shorter than
    [height * (1 + width * 4)] would make the reconstruction fail.  For a
    1 by 2 image and the 5 bytes of its first scanline alone, a grid of
    one row is returned. *)
Lemma C7_short_stream_returns_grid :
  Z.of_nat (length [0; 1; 2; 3; 4]) < 2 * (1 + 1 * 4)
  /\ Png.reverseFiltering (png_of_size 1 2) [0; 1; 2; 3; 4]
     = Returned [Row [Number (Int 0); Array [Int 1; Int 2; Int 3; Int 4]]].
Proof. split; [vm_compute; reflexivity | vm_compute; reflexivity]. Qed.

(** C7, as the method has it.  [reverseFiltering] holds the length of the
    stream against no height: for a header of width [w] at least 1 and of
    any height, a stream shorter than [height * (1 + w * 4)] whose
    scanlines all begin with a filter type from 0 to 4, the first one not
    with 3, is turned into a grid, with one row for every scanline that
    has begun. *)
Theorem C7_short_stream_is_decoded c rest w height bs :
  Png.chunkInfo c = Some (Png.mkChunkInfo w height) -> 1 <= w ->
  (forall q, 0 <= q -> q * (w * 4 + 1) < Z.of_nat (length bs) ->
             exists f, index bs (q * (w * 4 + 1)) = Some f
                       /\ 0 <= f <= 4 /\ (f = 3 -> 1 <= q)) ->
  Z.of_nat (length bs) < height * (1 + w * 4) ->
  exists g,
    Png.reverseFiltering (Png.mkPng (Some (c :: rest))) bs = Returned g
    /\ Z.of_nat (length g)
       = Z.max 1 ((Z.of_nat (length bs) + (w * 4 + 1) - 1) / (w * 4 + 1)).
Proof.
  intros Hc Hw Hty _. apply reverseFiltering_known_types; auto.
  unfold Png.header_width. cbn. rewrite Hc. reflexivity.
Qed.

(** C7 as the method has it, on a 1 by 3 image with scanlines of types 1,
    4 and 2, cut short inside the pixel of the third. *)
Lemma C7_short_stream_is_decoded_witness :
  exists g,
    Png.reverseFiltering
      (Png.mkPng
         (Some [Png.mkChunk "IHDR" 13 [] 16 0 (Some (Png.mkChunkInfo 1 3))]))
      [1; 10; 20; 30; 40; 4; 1; 2; 3; 4; 2; 5]
    = Returned g
    /\ Z.of_nat (length g)
       = Z.max 1 ((Z.of_nat (length [1; 10; 20; 30; 40; 4; 1; 2; 3; 4; 2; 5])
                   + (1 * 4 + 1) - 1) / (1 * 4 + 1)).
Proof.
  apply (C7_short_stream_is_decoded
           (Png.mkChunk "IHDR" 13 [] 16 0 (Some (Png.mkChunkInfo 1 3)))
           [] 1 3 [1; 10; 20; 30; 40; 4; 1; 2; 3; 4; 2; 5]).
  - reflexivity.
  - lia.
  - intros q Hq Hlt.
    assert (Hq012 : q = 0 \/ q = 1 \/ q = 2) by (cbn in Hlt; lia).
    destruct Hq012 as [-> | [-> | ->]]; eexists;
      (split; [reflexivity | split; lia]).
  - reflexivity.
Defined.

(** C8. A filter-type byte outside 0..4 should make the reconstruction
    fail with the unsupported-filter error.  Behind a first scanline of
    type 3 the method never gets to the offending byte: it has already
    thrown a [TypeError].  Behind a scanline of type 0 the same byte gives
    "Unexpected filter byte.". *)
Theorem C8_type_error_before_filter_check :
  Png.reverseFiltering (png_of_size 1 2) [3; 10; 20; 30; 40; 5; 0; 0; 0; 0]
  = Threw TypeError
  /\ Png.reverseFiltering (png_of_size 1 2) [0; 10; 20; 30; 40; 5; 0; 0; 0; 0]
     = Threw UnexpectedFilterByte.
Proof. split; vm_compute; reflexivity. Qed.

(** C9. A buffer made of eight signature bytes and the chunks IHDR (13
    bytes of payload), IDAT (any payload that a 32-bit length can
    describe) and IEND (no payload) parses to exactly these three chunks
    in file order, and the header chunk carries as [widthPixels] and
    [heightPixels] the big-endian 32-bit integers at offsets 16 and 20 of
    the buffer. *)
Theorem C9_parseChunks_three_chunks sig ihdr idat crc1 crc2 crc3 :
  length sig = 8%nat -> length ihdr = 13%nat ->
  length crc1 = 4%nat -> length crc2 = 4%nat -> length crc3 = 4%nat ->
  Z.of_nat (length idat) < 2 ^ 32 ->
  let buf := sig ++ chunk_bytes "IHDR" ihdr crc1
                 ++ chunk_bytes "IDAT" idat crc2
                 ++ chunk_bytes "IEND" [] crc3 in
  exists w h,
    Png.getUint32 buf 16 = Returned w
    /\ Png.getUint32 buf 20 = Returned h
    /\ Png.parseChunks buf
       = Returned
           (Png.mkParsed
              [Png.mkChunk "IHDR" 13 ihdr 16 (uint32_of crc1)
                 (Some (Png.mkChunkInfo w h));
               Png.mkChunk "IDAT" (Z.of_nat (length idat)) idat 41
                 (uint32_of crc2) None;
               Png.mkChunk "IEND" 0 [] (53 + Z.of_nat (length idat))
                 (uint32_of crc3) None]).
Proof.
  intros Hsig Hihdr Hc1 Hc2 Hc3 Hn buf.
  exists (uint32_of (firstn 4 ihdr)), (uint32_of (firstn 4 (skipn 4 ihdr))).
  assert (Hw : Png.getUint32 buf 16 = Returned (uint32_of (firstn 4 ihdr))).
  { unfold buf, chunk_bytes at 1. rewrite <- !app_assoc.
    rewrite (app_assoc (uint32_be _)), (app_assoc sig).
    rewrite (getUint32_inside _ ihdr _ 16 0); [reflexivity| |lia].
    rewrite !length_app, Hsig. reflexivity. }
  assert (Hh : Png.getUint32 buf 20
               = Returned (uint32_of (firstn 4 (skipn 4 ihdr)))).
  { unfold buf, chunk_bytes at 1. rewrite <- !app_assoc.
    rewrite (app_assoc (uint32_be _)), (app_assoc sig).
    rewrite (getUint32_inside _ ihdr _ 20 4); [reflexivity| |lia].
    rewrite !length_app, Hsig. reflexivity. }
  split; [exact Hw|]. split; [exact Hh|].
  assert (Hlen : length buf = S (S (S (54 + length idat)))).
  { unfold buf. rewrite !length_app, !chunk_bytes_length, Hsig, Hihdr by auto.
    cbn [length]. lia. }
  unfold Png.parseChunks. rewrite Hlen.
  pose proof (parse_loop_chunk (S (S (54 + length idat))) sig "IHDR" ihdr crc1
                (chunk_bytes "IDAT" idat crc2 ++ chunk_bytes "IEND" [] crc3)
                [] eq_refl Hc1 ltac:(rewrite Hihdr; reflexivity) eq_refl)
    as H1.
  cbv zeta in H1. rewrite Hsig, Hihdr in H1. fold buf in H1.
  change (Z.of_nat 8) with 8 in H1. change (Z.of_nat 13) with 13 in H1.
  rewrite H1, Hw, Hh. cbn [String.eqb Ascii.eqb Bool.eqb bind app].
  pose proof (parse_loop_chunk (S (54 + length idat))
                (sig ++ chunk_bytes "IHDR" ihdr crc1) "IDAT" idat crc2
                (chunk_bytes "IEND" [] crc3)
                [Png.mkChunk "IHDR" 13 ihdr (8 + 8) (uint32_of crc1)
                   (Some (Png.mkChunkInfo (uint32_of (firstn 4 ihdr))
                            (uint32_of (firstn 4 (skipn 4 ihdr)))))]
                eq_refl Hc2 Hn eq_refl)
    as H2.
  cbv zeta in H2. rewrite <- !app_assoc in H2. fold buf in H2.
  assert (Hp2 : Z.of_nat (length (sig ++ chunk_bytes "IHDR" ihdr crc1)) = 33).
  { rewrite !length_app, !chunk_bytes_length, Hsig, Hihdr by auto.
    reflexivity. }
  rewrite Hp2 in H2.
  change (8 + 8 + 13 + 4) with 33. rewrite H2.
  cbn [String.eqb Ascii.eqb Bool.eqb bind app].
  pose proof (parse_loop_chunk (54 + length idat)
                (sig ++ chunk_bytes "IHDR" ihdr crc1
                     ++ chunk_bytes "IDAT" idat crc2) "IEND" [] crc3 []
                [Png.mkChunk "IHDR" 13 ihdr (8 + 8) (uint32_of crc1)
                   (Some (Png.mkChunkInfo (uint32_of (firstn 4 ihdr))
                            (uint32_of (firstn 4 (skipn 4 ihdr)))));
                 Png.mkChunk "IDAT" (Z.of_nat (length idat)) idat (33 + 8)
                   (uint32_of crc2) None]
                eq_refl Hc3 ltac:(cbn; lia) eq_refl)
    as H3.
  cbv zeta in H3. rewrite app_nil_r in H3. rewrite <- !app_assoc in H3.
  fold buf in H3.
  assert (Hp3 : Z.of_nat (length (sig ++ chunk_bytes "IHDR" ihdr crc1
                                      ++ chunk_bytes "IDAT" idat crc2))
                = 45 + Z.of_nat (length idat)).
  { rewrite !length_app, !chunk_bytes_length, Hsig, Hihdr by auto. lia. }
  rewrite Hp3 in H3.
  replace (33 + 8 + Z.of_nat (length idat) + 4)
    with (45 + Z.of_nat (length idat)) by lia.
  rewrite H3. cbn [String.eqb Ascii.eqb Bool.eqb bind app length Z.of_nat].
  destruct (54 + length idat)%nat eqn:Hfuel; [lia|].
  cbn [Png.parse_loop].
  destruct (_ <? _) eqn:Hlt.
  - apply Z.ltb_lt in Hlt. rewrite Hlen in Hlt. lia.
  - cbn [bind]. change (8 + 8) with 16. change (33 + 8) with 41.
    replace (45 + Z.of_nat (length idat) + 8)
      with (53 + Z.of_nat (length idat)) by lia.
    reflexivity.
Qed.

(** C9, at the buffer of a 2 by 3 image with two bytes of image data. *)
Lemma C9_parseChunks_three_chunks_witness :
  let buf := [137; 80; 78; 71; 13; 10; 26; 10]
               ++ chunk_bytes "IHDR" [0; 0; 0; 2; 0; 0; 0; 3; 8; 6; 0; 0; 0]
                    [1; 2; 3; 4]
               ++ chunk_bytes "IDAT" [7; 8] [5; 6; 7; 8]
               ++ chunk_bytes "IEND" [] [9; 10; 11; 12] in
  exists w h,
    Png.getUint32 buf 16 = Returned w
    /\ Png.getUint32 buf 20 = Returned h
    /\ Png.parseChunks buf
       = Returned
           (Png.mkParsed
              [Png.mkChunk "IHDR" 13 [0; 0; 0; 2; 0; 0; 0; 3; 8; 6; 0; 0; 0]
                 16 (uint32_of [1; 2; 3; 4]) (Some (Png.mkChunkInfo w h));
               Png.mkChunk "IDAT" (Z.of_nat (length [7; 8])) [7; 8] 41
                 (uint32_of [5; 6; 7; 8]) None;
               Png.mkChunk "IEND" 0 [] (53 + Z.of_nat (length [7; 8]))
                 (uint32_of [9; 10; 11; 12]) None]).
Proof.
  exact (C9_parseChunks_three_chunks
           [137; 80; 78; 71; 13; 10; 26; 10]
           [0; 0; 0; 2; 0; 0; 0; 3; 8; 6; 0; 0; 0] [7; 8]
           [1; 2; 3; 4] [5; 6; 7; 8] [9; 10; 11; 12]
           eq_refl eq_refl eq_refl eq_refl eq_refl eq_refl).
Defined.

(** C10 in the wording of the specification: the result would depend on
    the arguments of the call only, the width being one of them.
    [reverseFiltering] has one argument, the byte stream; the same stream
    gives one row on an object whose header says width 2 and two rows on
    an object whose header says width 1. *)
Lemma C10_result_depends_on_object_state :
  Png.reverseFiltering (png_of_size 2 1) [0; 1; 2; 3; 4; 0; 5; 6; 7]
  <> Png.reverseFiltering (png_of_size 1 1) [0; 1; 2; 3; 4; 0; 5; 6; 7].
Proof. vm_compute. discriminate. Qed.

(** C10, as the method has it.  The width is not an argument of
    [reverseFiltering] but read from [this.data[0].chunkInfo]; two calls
    with the same stream on objects whose first chunks carry the same
    [widthPixels] give the same result, whatever else the objects hold:
    other chunks, other fields of the first chunk, the height. *)
Theorem C10_result_depends_on_header_width_only c1 c2 rest1 rest2 i1 i2 bs :
  Png.chunkInfo c1 = Some i1 -> Png.chunkInfo c2 = Some i2 ->
  Png.widthPixels i1 = Png.widthPixels i2 ->
  Png.reverseFiltering (Png.mkPng (Some (c1 :: rest1))) bs
  = Png.reverseFiltering (Png.mkPng (Some (c2 :: rest2))) bs.
Proof.
  intros H1 H2 Hw. unfold Png.reverseFiltering, Png.header_width. cbn.
  rewrite H1, H2, Hw. reflexivity.
Qed.

(** C10 as the method has it, on two objects that agree on the width 2
    and on nothing else. *)
Lemma C10_result_depends_on_header_width_only_witness :
  Png.reverseFiltering
    (Png.mkPng
       (Some [Png.mkChunk "IHDR" 13 [] 16 0 (Some (Png.mkChunkInfo 2 1))]))
    [0; 1; 2; 3; 4; 5; 6; 7; 8]
  = Png.reverseFiltering
      (Png.mkPng
         (Some [Png.mkChunk "IHDR" 13 [0; 0; 0; 2] 16 99
                  (Some (Png.mkChunkInfo 2 7));
                Png.mkChunk "IDAT" 2 [7; 8] 41 5 None]))
      [0; 1; 2; 3; 4; 5; 6; 7; 8].
Proof.
  apply (C10_result_depends_on_header_width_only
           (Png.mkChunk "IHDR" 13 [] 16 0 (Some (Png.mkChunkInfo 2 1)))
           (Png.mkChunk "IHDR" 13 [0; 0; 0; 2] 16 99
              (Some (Png.mkChunkInfo 2 7)))
           [] [Png.mkChunk "IDAT" 2 [7; 8] 41 5 None]
           (Png.mkChunkInfo 2 1) (Png.mkChunkInfo 2 7));
    reflexivity.
Defined.

(** * Further properties of the code *)



(** X2. A buffer of fewer than 20 bytes.  With 8 bytes or fewer
    [parseChunks] reads nothing, not even the signature, and returns no
    chunks; with 9 to 19 bytes a [getUint32] reaches beyond the buffer and
    the method throws a [RangeError]. *)
Theorem X2_parseChunks_short_buffer bs :
  Forall (fun b => 0 <= b < 256) bs ->
  Z.of_nat (length bs) < 20 ->
  Png.parseChunks bs
  = if Z.of_nat (length bs) <=? 8 then Returned (Png.mkParsed [])
    else Threw RangeError.
Proof.
  intros Hbs Hlen. unfold Png.parseChunks.
  destruct (Z.of_nat (length bs) <=? 8) eqn:H8.
  - apply Z.leb_le in H8.
    destruct (length bs) as [|n] eqn:Hn; cbn [Png.parse_loop];
      (replace (8 <? _) with false by (symmetry; apply Z.ltb_ge; lia));
      reflexivity.
  - apply Z.leb_gt in H8.
    destruct (length bs) as [|n] eqn:Hn; [cbn in H8; lia|].
    cbn [Png.parse_loop]. rewrite Hn.
    replace (8 <? _) with true by (symmetry; apply Z.ltb_lt; lia).
    destruct (getUint32_outcome bs 8) as [->|[size Hsize]]; [reflexivity|].
    rewrite Hsize. cbn [bind].
    assert (0 <= size).
    { eapply getUint32_nonneg; [|exact Hsize].
      eapply Forall_impl; [|exact Hbs]. cbn; lia. }
    rewrite getUint32_outside by lia. reflexivity.
Qed.

(** X2 on a sample. *)
Lemma X2_parseChunks_short_buffer_witness :
  Png.parseChunks [137; 80; 78; 71; 13; 10; 26; 10; 0; 0; 0; 0; 73; 69]
  = Threw RangeError.
Proof.
  apply (X2_parseChunks_short_buffer
           [137; 80; 78; 71; 13; 10; 26; 10; 0; 0; 0; 0; 73; 69]).
  - bytes_ok.
  - cbn. lia.
Defined.

(** X3. [parseChunks] never reads the signature: two buffers that differ
    in their first eight bytes only are parsed alike. *)
Theorem X3_parseChunks_ignores_signature (s1 s2 rest : list Z) :
  length s1 = 8%nat -> length s2 = 8%nat ->
  Forall (fun b => 0 <= b < 256) (s1 ++ rest) ->
  Png.parseChunks (s1 ++ rest) = Png.parseChunks (s2 ++ rest).
Proof.
  intros H1 H2 Hbs. unfold Png.parseChunks.
  assert (Hn : Forall (fun b => 0 <= b) (s1 ++ rest))
    by (eapply Forall_impl; [|exact Hbs]; cbn; lia).
  rewrite !length_app, H1, H2.
  rewrite (parse_loop_behind s1 s2 rest H1 H2 Hn) by lia.
  reflexivity.
Qed.

(** X3 on a sample. *)
Lemma X3_parseChunks_ignores_signature_witness :
  Png.parseChunks (png_signature ++ concat (map piece_bytes sample_pieces))
  = Png.parseChunks ([0; 0; 0; 0; 0; 0; 0; 0]
                     ++ concat (map piece_bytes sample_pieces)).
Proof.
  apply (X3_parseChunks_ignores_signature png_signature
           [0; 0; 0; 0; 0; 0; 0; 0] (concat (map piece_bytes sample_pieces))).
  - reflexivity.
  - reflexivity.
  - bytes_ok.
Defined.

(** X4. Chunks written one behind the other after eight bytes are read
    back by [parseChunks], one chunk object each, in file order, with
    their offsets, sizes and payloads, whatever the type codes are and in
    whatever order they come.  The four bytes in the place of the CRC are
    returned as a number and compared with nothing.  Every chunk of type
    IHDR gets as [chunkInfo] the numbers at offsets 16 and 20 of the
    buffer. *)
Theorem X4_parseChunks_reads_back_chunks signature cs :
  length signature = 8%nat ->
  Forall well_formed cs ->
  Forall (fun c => piece_type c = "IHDR"%string
                   -> 24 <= Z.of_nat (length (file_bytes signature cs))) cs ->
  Png.parseChunks (file_bytes signature cs)
  = Returned (Png.mkParsed
                (layout (header_info (file_bytes signature cs)) 8 cs)).
Proof. apply parseChunks_file. Qed.

(** X4 on a sample. *)
Lemma X4_parseChunks_reads_back_chunks_witness :
  Png.parseChunks (file_bytes png_signature sample_pieces)
  = Returned
      (Png.mkParsed
         (layout (header_info (file_bytes png_signature sample_pieces)) 8
            sample_pieces)).
Proof.
  apply (X4_parseChunks_reads_back_chunks png_signature sample_pieces).
  - reflexivity.
  - repeat constructor.
  - repeat constructor; intros _; apply Z.leb_le; reflexivity.
Defined.

(** X5. After [#initialize], the width that [reverseFiltering] reads from
    the object is the number at bytes 16 to 19 of the file if the type
    code at bytes 12 to 15 is IHDR.  With another first chunk, or with no
    chunk at all, reading the width is a [TypeError]: the first step of
    every call of [reverseFiltering]. *)
Theorem X5_initialize_header_width bs this :
  Forall (fun b => 0 <= b < 256) bs ->
  Png.initialize bs = Returned this ->
  Png.header_width this
  = if String.eqb (Png.decode (slice bs 12 16)) "IHDR"
    then Png.getUint32 bs 16
    else Threw TypeError.
Proof.
  intros Hbs H. unfold Png.initialize in H. inv_bind H. injection H as <-.
  apply parseChunks_chained in Hv; [|exact Hbs].
  unfold Png.header_width. cbn [Png.this_data].
  inversion Hv as [pos Hpos|pos c cs e Hc _]; subst.
  - rewrite slice_beyond by lia. reflexivity.
  - cbn [index Z.ltb Z.compare Z.to_nat nth_error].
    destruct Hc as (_ & _ & _ & _ & Hty & _ & _ & Hinfo).
    change (8 + 4) with 12 in Hty. change (8 + 8) with 16 in Hty.
    rewrite <- Hty.
    destruct (Png.chunkInfo c) as [info|].
    + destruct Hinfo as (-> & -> & _). reflexivity.
    + apply String.eqb_neq in Hinfo. now rewrite Hinfo.
Qed.

(** X5 on a sample. *)
Lemma X5_initialize_header_width_witness :
  Png.header_width
    (Png.mkPng
       (Some (layout (header_info (file_bytes png_signature sample_pieces))
                8 sample_pieces)))
  = if String.eqb
         (Png.decode (slice (file_bytes png_signature sample_pieces) 12 16))
         "IHDR"
    then Png.getUint32 (file_bytes png_signature sample_pieces) 16
    else Threw TypeError.
Proof.
  apply (X5_initialize_header_width
           (file_bytes png_signature sample_pieces)).
  - bytes_ok.
  - vm_compute. reflexivity.
Defined.

(** X6. From a file to the decompressed stream: on the object initialized
    from a file made of chunks, [decompressIDATData] hands the payloads of
    the IDAT chunks, joined in file order and without the other chunks, to
    the deflate stream, and returns what the stream yields, joined in the
    order read.  The joining itself never fails. *)
Theorem X6_decompressIDATData_of_file inflate signature cs :
  length signature = 8%nat ->
  Forall well_formed cs ->
  Forall (fun c => piece_type c = "IHDR"%string
                   -> 24 <= Z.of_nat (length (file_bytes signature cs))) cs ->
  Forall (fun c => Forall (fun b => 0 <= b < 256) (piece_payload c)) cs ->
  (this <- Png.initialize (file_bytes signature cs) ;;
   Png.decompressIDATData inflate this)
  = (chunks <- inflate (concat (map piece_payload
                                  (filter is_idat_piece cs))) ;;
     Returned (concat chunks)).
Proof.
  intros Hsig Hwf Hinfo Hbytes. unfold Png.initialize.
  rewrite parseChunks_file by assumption. cbn [bind Png.chunks].
  unfold Png.decompressIDATData, Png.concatIDATChunks. cbn [Png.this_data bind].
  rewrite concat_fold. cbn [app]. rewrite layout_idat.
  rewrite map_toUint8_bytes.
  - destruct (inflate _); cbn [bind]; auto. apply join_chunks_concat.
  - clear - Hbytes. induction Hbytes as [|c l Hc _ IH]; cbn; [constructor|].
    unfold is_idat_piece at 1. destruct (String.eqb _ _); cbn; auto.
    apply Forall_app; auto.
Qed.

(** X6 on a sample. *)
Lemma X6_decompressIDATData_of_file_witness :
  (this <- Png.initialize (file_bytes png_signature sample_pieces) ;;
   Png.decompressIDATData (fun l => Returned [l; [0]; l]) this)
  = (chunks <- Returned [concat (map piece_payload
                                   (filter is_idat_piece sample_pieces));
                         [0];
                         concat (map piece_payload
                                   (filter is_idat_piece sample_pieces))] ;;
     Returned (concat chunks)).
Proof.
  apply (X6_decompressIDATData_of_file (fun l => Returned [l; [0]; l])
           png_signature sample_pieces).
  - reflexivity.
  - repeat constructor.
  - repeat constructor; intros _; apply Z.leb_le; reflexivity.
  - repeat constructor; lia.
Defined.

(** X7. [compressIDATData] returns the chunks that the deflate stream
    yields, joined in the order read: the buffer it allots has room for
    every chunk at its offset, so [set] never throws a [RangeError]. *)
Theorem X7_compressIDATData_joins_chunks deflate arrayBuffer :
  Png.compressIDATData deflate arrayBuffer
  = (chunks <- deflate arrayBuffer ;; Returned (concat chunks)).
Proof.
  unfold Png.compressIDATData.
  destruct (deflate arrayBuffer) as [chunks| |]; cbn [bind]; auto.
  apply join_chunks_concat.
Qed.

(** X8. [#concatIDATChunks] on any list of chunks: the data of the chunks
    whose type code is IDAT, joined in the order of the list; chunks of
    other types add nothing. *)
Theorem X8_concatIDATChunks_joins_idat cs :
  Forall (fun c => Forall (fun b => 0 <= b < 256) (Png.data c)) cs ->
  Png.concatIDATChunks (Png.mkPng (Some cs))
  = Returned (concat (map Png.data (filter is_idat cs))).
Proof.
  intros Hbytes. unfold Png.concatIDATChunks. cbn [Png.this_data].
  rewrite concat_fold. cbn [app]. rewrite map_toUint8_bytes; [reflexivity|].
  induction Hbytes as [|c l Hc _ IH]; cbn [filter map concat];
    [constructor|].
  destruct (is_idat c); cbn [map concat]; auto.
  apply Forall_app; auto.
Qed.

(** X8 on a sample. *)
Lemma X8_concatIDATChunks_joins_idat_witness :
  Png.concatIDATChunks
    (Png.mkPng
       (Some [Png.mkChunk "IDAT" 2 [7; 8] 16 0 None;
              Png.mkChunk "tEXt" 1 [65] 30 0 None;
              Png.mkChunk "IDAT" 1 [9] 43 0 None]))
  = Returned (concat (map Png.data
                        (filter is_idat
                           [Png.mkChunk "IDAT" 2 [7; 8] 16 0 None;
                            Png.mkChunk "tEXt" 1 [65] 30 0 None;
                            Png.mkChunk "IDAT" 1 [9] 43 0 None]))).
Proof.
  apply (X8_concatIDATChunks_joins_idat
           [Png.mkChunk "IDAT" 2 [7; 8] 16 0 None;
            Png.mkChunk "tEXt" 1 [65] 30 0 None;
            Png.mkChunk "IDAT" 1 [9] 43 0 None]).
  repeat constructor; lia.
Defined.

(** X9. On a stream of [h] whole scanlines of bytes, for a width [w] at
    least 1, whose scanlines have the filter types 0 (None), 1 (Sub) or 2
    (Up), the first one possibly 4 (Paeth), [reverseFiltering] returns the
    reconstruction of the PNG standard: row [q] is the filter type of
    scanline [q] followed by its [w] reconstructed pixels. *)
Theorem X9_reverseFiltering_reconstructs this bs w h :
  Png.header_width this = Returned w ->
  1 <= w -> (1 <= h)%nat ->
  Z.of_nat (length bs) = Z.of_nat h * (w * 4 + 1) ->
  Forall (fun b => 0 <= b < 256) bs ->
  (forall q, (q < h)%nat ->
             0 <= filter_type bs w q <= 2
             \/ (q = 0%nat /\ filter_type bs w q = 4)) ->
  Png.reverseFiltering this bs = Returned (recon_rows bs w h).
Proof.
  intros Hh Hw Hh1 Hlen Hbytes Htypes. unfold Png.reverseFiltering.
  rewrite Hh. cbn [bind].
  destruct (loop_invariant bs (w * 4 + 1) (reconstructing bs w h)
              (reconstructing_step bs w h Hw Hlen Hbytes Htypes) (length bs)
              (Png.mkLocals 0 Undefined [Row []] (-1) Undefined 0))
    as (s' & Hloop & Hinv & Hge).
  - apply reconstructing_init.
  - cbn. lia.
  - rewrite Hloop. cbn [bind]. f_equal.
    apply (reconstructing_done bs w h Hw Hlen); auto.
Qed.

(** X9 on a sample. *)
Lemma X9_reverseFiltering_reconstructs_witness :
  Png.reverseFiltering (png_of_size 2 3) sample_stream
  = Returned (recon_rows sample_stream 2 3).
Proof.
  apply (X9_reverseFiltering_reconstructs (png_of_size 2 3) sample_stream
           2 3).
  - reflexivity.
  - lia.
  - lia.
  - reflexivity.
  - bytes_ok.
  - intros q Hq. destruct q as [|[|[|q]]]; [right|left|left|lia].
    + split; reflexivity.
    + vm_compute. split; discriminate.
    + vm_compute. split; discriminate.
Defined.

(** X10. With a header of width [w] at least 1: if scanline [q0] is the
    first whose filter type is outside 0..4, the scanlines before it
    having types from 0 to 4 and the stream not beginning with type 3,
    [reverseFiltering] throws "Unexpected filter byte."; the rows
    reconstructed so far are lost. *)
Theorem X10_reverseFiltering_unexpected_filter_byte this bs w q0 b :
  Png.header_width this = Returned w -> 1 <= w -> 0 <= q0 ->
  index bs (q0 * (w * 4 + 1)) = Some b -> b < 0 \/ 4 < b ->
  (forall q, 0 <= q < q0 ->
             exists f, index bs (q * (w * 4 + 1)) = Some f
                       /\ 0 <= f <= 4 /\ (f = 3 -> 1 <= q)) ->
  Png.reverseFiltering this bs = Threw UnexpectedFilterByte.
Proof. apply reverseFiltering_unknown_type. Qed.

(** X10 on a sample. *)
Lemma X10_reverseFiltering_unexpected_filter_byte_witness :
  Png.reverseFiltering (png_of_size 1 3)
    [2; 1; 2; 3; 4; 9; 5; 6; 7; 8; 0; 1; 1; 1; 1]
  = Threw UnexpectedFilterByte.
Proof.
  apply (X10_reverseFiltering_unexpected_filter_byte (png_of_size 1 3)
           [2; 1; 2; 3; 4; 9; 5; 6; 7; 8; 0; 1; 1; 1; 1] 1 1 9).
  - reflexivity.
  - lia.
  - lia.
  - reflexivity.
  - right. lia.
  - intros q Hq. assert (q = 0) by lia. subst q. exists 2.
    split; [reflexivity|]. split; lia.
Defined.

(** X11. With a header of width [w] at least 1, a stream in which any
    scanline has a filter type outside 0..4 never yields a grid:
    [reverseFiltering] throws, whatever the other scanlines hold. *)
Theorem X11_reverseFiltering_unknown_type_no_grid this bs w q b :
  Png.header_width this = Returned w -> 1 <= w -> 0 <= q ->
  index bs (q * (w * 4 + 1)) = Some b -> b < 0 \/ 4 < b ->
  exists e, Png.reverseFiltering this bs = Threw e.
Proof. apply reverseFiltering_unknown_throws. Qed.

(** X11 on a sample. *)
Lemma X11_reverseFiltering_unknown_type_no_grid_witness :
  exists e,
    Png.reverseFiltering (png_of_size 1 2) [0; 1; 2; 3; 4; 7; 0; 0; 0; 0]
    = Threw e.
Proof.
  apply (X11_reverseFiltering_unknown_type_no_grid (png_of_size 1 2)
           [0; 1; 2; 3; 4; 7; 0; 0; 0; 0] 1 1 7).
  - reflexivity.
  - lia.
  - lia.
  - reflexivity.
  - right. lia.
Defined.

(** X12. A stream that begins with the filter type 3 (Average) and has at
    least one more byte makes [reverseFiltering] throw a [TypeError],
    whatever the width and the rest of the stream: the case reads
    [res[0][1]] before the first pixel is there. *)
Theorem X12_reverseFiltering_average_first this w b rest :
  Png.header_width this = Returned w ->
  Png.reverseFiltering this (3 :: b :: rest) = Threw TypeError.
Proof. apply reverseFiltering_average_first_row. Qed.

(** X12 on a sample. *)
Lemma X12_reverseFiltering_average_first_witness :
  Png.reverseFiltering (png_of_size 7 1) [3; 0] = Threw TypeError.
Proof.
  apply (X12_reverseFiltering_average_first (png_of_size 7 1) 7 0 []).
  reflexivity.
Defined.

(** X13. With margins that carry [x] and [y] for the validation and
    non-negative [xMargin] and [yMargin] for the tiling, on a grid whose
    rows all have the length [W], [subimage] throws nothing, and the tile
    list it has built when it ends holds, row of tiles by row of tiles,
    the windows of [tw] by [th] cells at [xMargin + c * (tw + sep)],
    [yMargin + r * (th + sep)], as many as fit; no cell is changed,
    whatever [ignoredColour] is.  The call itself evaluates to
    [undefined]. *)
Theorem X13_subimage_builds_tiles {A} (g : list (list A)) W tw th sep mx my xm ym o :
  g <> [] -> Forall (fun r => Z.of_nat (length r) = W) g ->
  0 < tw -> 0 < th -> 0 <= sep -> 0 <= xm -> 0 <= ym -> valid_options o ->
  let margins := Some (Png.mkMargins (Some mx) (Some my) (Some xm) (Some ym)) in
  Png.subimage_tileset g (Png.mkTileSize tw th) margins (Some sep) o
  = Returned (tiles_of g tw th sep xm ym)
  /\ Png.subimage g (Png.mkTileSize tw th) margins (Some sep) o
     = Returned None.
Proof.
  intros Hg Hrect Htw Hth Hsep Hxm Hym Ho margins.
  assert (Hts : Png.subimage_tileset g (Png.mkTileSize tw th) margins
                  (Some sep) o = Returned (tiles_of g tw th sep xm ym)).
  { subst margins. pose proof (valid_options_length o Ho) as Hcol.
    subimage_guards tw th sep Hcol.
    destruct g as [|r0 g']; [congruence|].
    change (index (r0 :: g') 0) with (Some r0).
    cbn [bind Png.floor_div]. unfold Png.tiling_loops. cbn [Png.count].
    assert (HW : Z.of_nat (length r0) = W) by (inversion Hrect; auto).
    unfold tiles_of. change (nth 0 (r0 :: g') []) with r0. rewrite HW.
    set (nr := (Z.of_nat (length (r0 :: g')) - ym) / (th + sep)).
    set (nc := (W - xm) / (tw + sep)).
    assert (Hnc : Z.to_nat nc = 0%nat
                  \/ xm + Z.of_nat (Z.to_nat nc) * (tw + sep) <= W).
    { destruct (Z_le_gt_dec nc 0) as [Hle|Hgt]; [left; lia|right].
      assert ((tw + sep) * nc <= W - xm) by (apply Z.mul_div_le; lia).
      rewrite Z2Nat.id by lia. lia. }
    destruct (times_rows_window (r0 :: g') W tw th sep xm Hrect Htw Hth Hsep
                Hxm (Z.to_nat nc) (Z.to_nat nr) Hnc ym
                (Png.mkTiling A (to_num (option_map Int (Some xm)))
                   (to_num (option_map Int (Some ym))) []))
      as (t' & Ht' & Hl); try reflexivity; try lia.
    - destruct (Z_le_gt_dec nr 0) as [Hle|Hgt]; [left; lia|right].
      assert ((th + sep) * nr <= Z.of_nat (length (r0 :: g')) - ym)
        by (apply Z.mul_div_le; lia).
      rewrite Z2Nat.id by lia. lia.
    - rewrite Ht'. cbn [Png.rethrow bind]. rewrite Hl. reflexivity. }
  split; [exact Hts|]. unfold Png.subimage. rewrite Hts. reflexivity.
Qed.

(** X13 on a sample. *)
Lemma X13_subimage_builds_tiles_witness :
  let margins := Some (Png.mkMargins (Some 0) (Some 0) (Some 1) (Some 1)) in
  Png.subimage_tileset sample_grid (Png.mkTileSize 2 1) margins (Some 0) None
  = Returned (tiles_of sample_grid 2 1 0 1 1)
  /\ Png.subimage sample_grid (Png.mkTileSize 2 1) margins (Some 0) None
     = Returned None.
Proof.
  apply (X13_subimage_builds_tiles sample_grid 5 2 1 0 0 0 1 1 None).
  - discriminate.
  - repeat constructor.
  - lia.
  - lia.
  - lia.
  - lia.
  - lia.
  - exact I.
Defined.

(** X14. A negative [yMargin] is not rejected by the validation; as soon
    as one tile fits, the first row read is [imageDataBuffer[yMargin]],
    which is [undefined], and [subimage] throws "Error trying to get
    subimage.". *)
Theorem X14_subimage_negative_yMargin {A} (g : list (list A)) r0 tw th sep
  mx my xm ym o :
  index g 0 = Some r0 ->
  0 < tw -> 0 < th -> 0 <= sep -> valid_options o ->
  ym < 0 ->
  th + sep <= Z.of_nat (length g) - ym ->
  tw + sep <= Z.of_nat (length r0) - xm ->
  Png.subimage g (Png.mkTileSize tw th)
    (Some (Png.mkMargins (Some mx) (Some my) (Some xm) (Some ym)))
    (Some sep) o
  = Threw SubimageError.
Proof.
  intros Hr0 Htw Hth Hsep Ho Hym Hrows Hfit. unfold Png.subimage.
  pose proof (valid_options_length o Ho) as Hcol.
  subimage_guards tw th sep Hcol.
  rewrite Hr0. cbn [bind Png.floor_div]. unfold Png.tiling_loops.
  cbn [Png.count].
  assert (Hnr : 1 <= (Z.of_nat (length g) - ym) / (th + sep))
    by (apply Z.div_le_lower_bound; lia).
  assert (Hnc : 1 <= (Z.of_nat (length r0) - xm) / (tw + sep))
    by (apply Z.div_le_lower_bound; lia).
  destruct (Z.to_nat ((Z.of_nat (length g) - ym) / (th + sep)))
    as [|nr] eqn:Enr; [lia|].
  destruct (Z.to_nat ((Z.of_nat (length r0) - xm) / (tw + sep)))
    as [|nc] eqn:Enc; [lia|].
  rewrite (times_throws _ TypeError); [reflexivity|].
  cbn [Png.xOffset Png.yOffset option_map to_num].
  rewrite (times_throws _ TypeError); [reflexivity|].
  cbn [Png.xOffset Png.yOffset]. unfold Png.tile_at.
  destruct (Z.to_nat th) as [|n] eqn:Eth; [lia|].
  cbn [repeat mapi]. unfold index.
  replace (ym <? 0) with true by (symmetry; apply Z.ltb_lt; lia).
  reflexivity.
Qed.

(** X14 on a sample. *)
Lemma X14_subimage_negative_yMargin_witness :
  Png.subimage sample_grid (Png.mkTileSize 2 1)
    (Some (Png.mkMargins (Some 0) (Some 0) (Some 0) (Some (-1))))
    (Some 0) None
  = Threw SubimageError.
Proof.
  apply (X14_subimage_negative_yMargin sample_grid [0; 1; 2; 3; 4]
           2 1 0 0 0 0 (-1) None).
  - reflexivity.
  - lia.
  - lia.
  - lia.
  - exact I.
  - lia.
  - cbn. lia.
  - cbn. lia.
Defined.

(** X15. Margins that carry the [x] and [y] the validation asks for, but
    not both [xMargin] and [yMargin], give no tile at all: a count of
    tiles is [NaN], and the loops add nothing. *)
Theorem X15_subimage_margins_unread {A} (g : list (list A)) r0 tw th sep
  (m : Png.margins_t) mx my o :
  index g 0 = Some r0 ->
  0 < tw -> 0 < th -> 0 <= sep -> valid_options o ->
  Png.margins_x m = Some mx -> Png.margins_y m = Some my ->
  Png.xMargin m = None \/ Png.yMargin m = None ->
  Png.subimage_tileset g (Png.mkTileSize tw th) (Some m) (Some sep) o
  = Returned [].
Proof.
  intros Hr0 Htw Hth Hsep Ho Hmx Hmy Hnone.
  pose proof (valid_options_length o Ho) as Hcol.
  subimage_guards tw th sep Hcol. rewrite Hmx, Hmy.
  rewrite Hr0. cbn [bind]. unfold Png.tiling_loops.
  destruct (Png.yMargin m) as [ym|]; cbn [Png.floor_div Png.count];
    [|reflexivity].
  destruct Hnone as [Hx|Hy]; [|discriminate]. rewrite Hx.
  cbn [Png.floor_div Png.count Png.times option_map to_num].
  destruct (times_idle
              (fun t : Png.tiling A =>
                 t0 <- Returned t ;;
                 Returned (Png.mkTiling A NaN
                             (add (Png.yOffset t0) (Int (th + sep)))
                             (Png.tileset t0)))
              (fun t => Png.tileset t = [])
              ltac:(intros s Hs; eexists; split; [reflexivity|exact Hs])
              (Z.to_nat ((Z.of_nat (length g) - ym) / (th + sep)))
              (Png.mkTiling A NaN (Int ym) []) eq_refl)
    as (t' & Ht' & Hempty).
  rewrite Ht'. cbn [Png.rethrow bind]. rewrite Hempty. reflexivity.
Qed.

(** X15 on a sample. *)
Lemma X15_subimage_margins_unread_witness :
  Png.subimage_tileset sample_grid (Png.mkTileSize 2 1)
    (Some (Png.mkMargins (Some 0) (Some 0) None None)) (Some 0) None
  = Returned [].
Proof.
  apply (X15_subimage_margins_unread sample_grid [0; 1; 2; 3; 4] 2 1 0
           (Png.mkMargins (Some 0) (Some 0) None None) 0 0 None).
  - reflexivity.
  - lia.
  - lia.
  - lia.
  - exact I.
  - reflexivity.
  - reflexivity.
  - left. reflexivity.
Defined.

(** X16. From the file input to the width: [new png(event)] on an event
    whose first file has the type image/png and holds a header chunk
    first resolves to an object, and the width read by [reverseFiltering]
    is the big-endian number in the first four bytes of the header's
    payload.  The other files of the event are not looked at. *)
Theorem X16_constructor_reads_width f files signature payload crc cs :
  Png.type f = "image/png"%string ->
  Png.content f = file_bytes signature (mkPiece "IHDR" payload crc :: cs) ->
  length signature = 8%nat -> (8 <= length payload)%nat ->
  Forall well_formed (mkPiece "IHDR" payload crc :: cs) ->
  exists this,
    Png.constructor (Png.TEvent (f :: files)) = Png.Constructed this
    /\ Png.header_width this = Returned (uint32_of (firstn 4 payload)).
Proof.
  intros Hty Hc Hsig Hp Hwf. unfold Png.constructor.
  change (index (f :: files) 0) with (Some f). cbv beta iota zeta.
  rewrite Hty.
  change (negb ("image/png" =? "image/png")%string) with false.
  cbv iota.
  unfold Png.initialize. rewrite Hc.
  rewrite parseChunks_file; auto.
  - cbn [bind Png.chunks]. eexists. split; [reflexivity|].
    unfold Png.header_width. cbn [Png.this_data layout].
    change (index (?c :: ?l) 0) with (Some c).
    cbn [Png.chunkInfo piece_type String.eqb Ascii.eqb Bool.eqb header_info
         Png.widthPixels].
    unfold file_bytes. cbn [map concat piece_bytes piece_type piece_payload
                            piece_crc].
    unfold piece_bytes. cbn [piece_type piece_payload piece_crc].
    rewrite header_slice by (auto; lia). reflexivity.
  - assert (Hlen : 24 <= Z.of_nat (length (file_bytes signature
                      (mkPiece "IHDR" payload crc :: cs)))).
    { unfold file_bytes. cbn [map concat].
      inversion Hwf as [|? ? Hc0 _]; subst.
      rewrite !length_app, Hsig, piece_bytes_length by exact Hc0.
      cbn [piece_payload]. lia. }
    apply Forall_forall. intros c _ _. exact Hlen.
Qed.

(** X16 on a sample. *)
Lemma X16_constructor_reads_width_witness :
  exists this,
    Png.constructor
      (Png.TEvent
         [Png.mkFile "image/png"
            (file_bytes png_signature
               (mkPiece "IHDR" [0; 0; 0; 2; 0; 0; 0; 3; 8; 6; 0; 0; 0]
                  [1; 2; 3; 4]
                :: [mkPiece "IEND" [] [9; 10; 11; 12]]))])
    = Png.Constructed this
    /\ Png.header_width this
       = Returned (uint32_of (firstn 4 [0; 0; 0; 2; 0; 0; 0; 3; 8; 6; 0; 0; 0])).
Proof.
  apply (X16_constructor_reads_width
           (Png.mkFile "image/png"
              (file_bytes png_signature
                 (mkPiece "IHDR" [0; 0; 0; 2; 0; 0; 0; 3; 8; 6; 0; 0; 0]
                    [1; 2; 3; 4]
                  :: [mkPiece "IEND" [] [9; 10; 11; 12]])))
           [] png_signature [0; 0; 0; 2; 0; 0; 0; 3; 8; 6; 0; 0; 0]
           [1; 2; 3; 4] [mkPiece "IEND" [] [9; 10; 11; 12]]).
  - reflexivity.
  - reflexivity.
  - reflexivity.
  - cbn. lia.
  - repeat constructor.
Defined.
